(** * Traffic-signal dashboard: the numerical core

    A shallow embedding of the two algorithmic parts of the repository,

    - the grid-network simulator ([networkSimulation.ts]), and
    - the statistics code ([statisticalAnalysis.ts], and the helpers of
      [HypothesisTests.tsx] and [StatisticalAnalysis.tsx]),

    and the properties the specification states about them, followed by
    further properties read off the code.

    Numbers.  The simulator's properties are about signs, order, counts and
    which fields a pass writes, so its [number]s are exact rationals [Q]
    (rounding is outside that model, and every divisor the module meets is
    guarded or positive); where rounding decides, the statement is on
    binary64 numbers.  The statistics code is different: what it returns at the
    inputs of interest is decided by the IEEE-754 special values (0/0,
    log 0, exp (-oo)), so there a [number] is a binary64 [float], which is
    what a JavaScript number is; [+], [-], [*], [/], [sqrt] and the
    comparisons are the machine's, and the functions the host approximates
    ([Math.exp], [Math.log], [Math.tanh], [Math.cos]) are a parameter
    [HostMath] constrained only where ECMAScript fixes their value.

    [Math.random] is an explicit oracle [rnd : nat -> number] read through a
    draw counter that the code threads in evaluation order. *)

From Stdlib Require Import ZArith QArith Qround Lqa Lia Floats Uint63.
From stdpp Require Import gmap strings list fin_maps pretty.

Set Default Proof Using "Type".
Set Warnings "-inexact-float".

(** ** A state monad for the draw counter of [Math.random] *)

Definition Rand (A : Type) : Type := nat -> A * nat.

Global Instance Rand_ret : MRet Rand := fun A a k => (a, k).

Global Instance Rand_bind : MBind Rand :=
  fun A B f m k => let (a, k') := m k in f a k'.

(** [Array.prototype.map] with an effectful callback, and a counted loop
    pushing one value per iteration: both run left to right. *)
Fixpoint mapR {A B} (f : A -> Rand B) (l : list A) : Rand (list B) :=
  match l with
  | [] => mret []
  | a :: l' => b ← f a; bs ← mapR f l'; mret (b :: bs)
  end.

Definition evalR {A} (m : Rand A) (k : nat) : A := fst (m k).

(** Two oracles return the same [n] values, the first read from draw [k1]
    on and the second from draw [k2] on. *)
Definition agree {R} (rnd1 rnd2 : nat -> R) (k1 k2 n : nat) : Prop :=
  forall j, (j < n)%nat -> rnd1 (k1 + j)%nat = rnd2 (k2 + j)%nat.

(** * The grid-network simulator *)

Module Network.

Local Open Scope Q_scope.

Inductive Signal := red | yellow | green.
Inductive Direction := north | east | south | west.
Inductive Strategy := fixed_time | rule_based | rl_based.

Global Instance Signal_eq_dec : EqDecision Signal.
Proof. solve_decision. Defined.

Record IntersectionState := mkIntersection {
  id : string;
  name : string;
  x : nat;
  y : nat;
  northFlow : Q;
  eastFlow : Q;
  southFlow : Q;
  westFlow : Q;
  northQueue : Q;
  eastQueue : Q;
  southQueue : Q;
  westQueue : Q;
  northSignal : Signal;
  eastSignal : Signal;
  southSignal : Signal;
  westSignal : Signal;
  totalWaitingTime : Q;
  totalThroughput : Q;
  efficiency : Q
}.

Record NetworkConnection := mkConnection {
  from : string;
  to : string;
  direction : Direction;
  flowInfluence : Q
}.

Record NetworkState := mkNetwork {
  intersections : list IntersectionState;
  connections : list NetworkConnection;
  time : nat;
  totalVehicles : Q;
  networkEfficiency : Q;
  averageWaitingTime : Q
}.

Record SimulationConfig := mkConfig {
  gridSize : nat;
  simulationTime : nat;
  strategy : Strategy;
  trafficIntensity : Q;
  incidentEnabled : bool;
  incidentLocation : option string
}.

(** Field updates of the spread-and-assign idiom [{ ...i }; i.f = v]. *)
Definition set_flows (i : IntersectionState) (n e s w : Q) :=
  mkIntersection (id i) (name i) (x i) (y i) n e s w
    (northQueue i) (eastQueue i) (southQueue i) (westQueue i)
    (northSignal i) (eastSignal i) (southSignal i) (westSignal i)
    (totalWaitingTime i) (totalThroughput i) (efficiency i).

Definition set_queues (i : IntersectionState) (n e s w : Q) :=
  mkIntersection (id i) (name i) (x i) (y i)
    (northFlow i) (eastFlow i) (southFlow i) (westFlow i) n e s w
    (northSignal i) (eastSignal i) (southSignal i) (westSignal i)
    (totalWaitingTime i) (totalThroughput i) (efficiency i).

Definition set_signals (i : IntersectionState) (n e s w : Signal) :=
  mkIntersection (id i) (name i) (x i) (y i)
    (northFlow i) (eastFlow i) (southFlow i) (westFlow i)
    (northQueue i) (eastQueue i) (southQueue i) (westQueue i) n e s w
    (totalWaitingTime i) (totalThroughput i) (efficiency i).

Definition set_totalWaitingTime (i : IntersectionState) (v : Q) :=
  mkIntersection (id i) (name i) (x i) (y i)
    (northFlow i) (eastFlow i) (southFlow i) (westFlow i)
    (northQueue i) (eastQueue i) (southQueue i) (westQueue i)
    (northSignal i) (eastSignal i) (southSignal i) (westSignal i)
    v (totalThroughput i) (efficiency i).

Definition set_totalThroughput (i : IntersectionState) (v : Q) :=
  mkIntersection (id i) (name i) (x i) (y i)
    (northFlow i) (eastFlow i) (southFlow i) (westFlow i)
    (northQueue i) (eastQueue i) (southQueue i) (westQueue i)
    (northSignal i) (eastSignal i) (southSignal i) (westSignal i)
    (totalWaitingTime i) v (efficiency i).

Definition set_efficiency (i : IntersectionState) (v : Q) :=
  mkIntersection (id i) (name i) (x i) (y i)
    (northFlow i) (eastFlow i) (southFlow i) (westFlow i)
    (northQueue i) (eastQueue i) (southQueue i) (westQueue i)
    (northSignal i) (eastSignal i) (southSignal i) (westSignal i)
    (totalWaitingTime i) (totalThroughput i) v.

(** [Math.min], [Math.max] and [Math.floor] on exact numbers. *)
Definition Math_min (a b : Q) : Q := if Qle_bool a b then a else b.
Definition Math_max (a b : Q) : Q := if Qle_bool a b then b else a.
Definition Math_floor (a : Q) : Z := Qfloor a.
Definition Qltb (a b : Q) : bool := negb (Qle_bool b a).

(** The template literal [`intersection_${x}_${y}`]. *)
Definition intersectionId (x y : nat) : string :=
  String.append "intersection_"
    (String.append (pretty x) (String.append "_" (pretty y))).

Definition intersectionName (x y : nat) : string :=
  String.append "Intersection ("
    (String.append (pretty (x + 1)%nat)
       (String.append ", " (String.append (pretty (y + 1)%nat) ")"))).

(** [createNetworkConnections]: for every cell, in the order the two loops
    visit them, the edges to its north, east, south and west neighbours that
    exist on the grid. *)
Definition cellConnections (gridSize x y : nat) : list NetworkConnection :=
  let fromId := intersectionId x y in
  (if bool_decide (0 < y)%nat
   then [mkConnection fromId (intersectionId x (y - 1)) north 0.3] else []) ++
  (if bool_decide (x < gridSize - 1)%nat
   then [mkConnection fromId (intersectionId (x + 1) y) east 0.3] else []) ++
  (if bool_decide (y < gridSize - 1)%nat
   then [mkConnection fromId (intersectionId x (y + 1)) south 0.3] else []) ++
  (if bool_decide (0 < x)%nat
   then [mkConnection fromId (intersectionId (x - 1) y) west 0.3] else []).

Definition createNetworkConnections (gridSize : nat) : list NetworkConnection :=
  flat_map (fun x => flat_map (fun y => cellConnections gridSize x y)
                              (seq 0 gridSize))
           (seq 0 gridSize).

Definition ns_green (i : IntersectionState) : IntersectionState :=
  set_signals i green red green red.

Definition ew_green (i : IntersectionState) : IntersectionState :=
  set_signals i red green red green.

(** [updateSignalStrategy], on the three strategies a [SimulationConfig]
    can name.  The arguments of [set_signals] are in the order north, east,
    south, west.  The sums, the ratio and the comparisons are exact
    here. *)
Definition updateSignalStrategy (intersection : IntersectionState)
    (strategy : Strategy) (nsQueue ewQueue : Q) : IntersectionState :=
  let updated := intersection in
  match strategy with
  | fixed_time =>
      let cycle := Z.rem (Math_floor (totalWaitingTime intersection / 30)) 2 in
      if (cycle =? 0)%Z then ns_green updated else ew_green updated
  | rule_based =>
      if Qltb ewQueue nsQueue then ns_green updated else ew_green updated
  | rl_based =>
      let totalQueue :=
        northQueue updated + eastQueue updated + southQueue updated
        + westQueue updated in
      let nsRatio := nsQueue / (totalQueue + 1) in
      if Qltb 0.5 nsRatio then ns_green updated else ew_green updated
  end.

(** [applyNetworkFlowInfluence].  The source copies every intersection and
    indexes the copies by id in a [Map]; the callback then writes through
    the map into those shared copies.  Here the copies are the list [st], the
    map sends an id to the position of its copy (a later duplicate id
    replaces an earlier one, as in the [Map] constructor), and a write is an
    update of the list at that position, so a connection sees what earlier
    connections of the same pass have written. *)
Definition intersectionMap (updated : list IntersectionState)
    : gmap string nat :=
  foldl (fun m p => <[id p.2 := p.1]> m) ∅
        (zip (seq 0 (length updated)) updated).

Definition add_northQueue (v : Q) (i : IntersectionState) :=
  set_queues i (northQueue i + v) (eastQueue i) (southQueue i) (westQueue i).
Definition add_eastQueue (v : Q) (i : IntersectionState) :=
  set_queues i (northQueue i) (eastQueue i + v) (southQueue i) (westQueue i).
Definition add_southQueue (v : Q) (i : IntersectionState) :=
  set_queues i (northQueue i) (eastQueue i) (southQueue i + v) (westQueue i).
Definition add_westQueue (v : Q) (i : IntersectionState) :=
  set_queues i (northQueue i) (eastQueue i) (southQueue i) (westQueue i + v).

(** The signal and the queue of the source that a connection reads, and the
    queue of the destination it writes. *)
Definition sourceSignal (d : Direction) (i : IntersectionState) : Signal :=
  match d with
  | north => northSignal i | east => eastSignal i
  | south => southSignal i | west => westSignal i
  end.

Definition sourceQueue (d : Direction) (i : IntersectionState) : Q :=
  match d with
  | north => northQueue i | east => eastQueue i
  | south => southQueue i | west => westQueue i
  end.

Definition addOpposite (d : Direction) (v : Q) (i : IntersectionState) :=
  match d with
  | north => add_southQueue v i | east => add_westQueue v i
  | south => add_northQueue v i | west => add_eastQueue v i
  end.

Definition flowAmountOf (connection : NetworkConnection)
    (fromIntersection : IntersectionState) : Q :=
  Math_min (sourceQueue (direction connection) fromIntersection
            * flowInfluence connection) 5.

(** The body of the [forEach] callback. *)
Definition propagate (m : gmap string nat) (st : list IntersectionState)
    (connection : NetworkConnection) : list IntersectionState :=
  match m !! from connection, m !! to connection with
  | Some i, Some j =>
      match st !! i with
      | Some fromIntersection =>
          if bool_decide
               (sourceSignal (direction connection) fromIntersection = green)
          then alter (addOpposite (direction connection)
                        (flowAmountOf connection fromIntersection)) j st
          else st
      | None => st
      end
  | _, _ => st
  end.

Definition applyNetworkFlowInfluence (intersections : list IntersectionState)
    (connections : list NetworkConnection) : list IntersectionState :=
  let updated := intersections in
  foldl (propagate (intersectionMap updated)) updated connections.

Definition queueTotal (i : IntersectionState) : Q :=
  northQueue i + eastQueue i + southQueue i + westQueue i.

Section WithRandom.

(** The values [Math.random()] returns, in the order they are drawn. *)
Variable rnd : nat -> Q.

Definition Math_random : Rand Q := fun k => (rnd k, S k).

Definition newIntersection (x y : nat) : Rand IntersectionState :=
  nf ← Math_random;
  ef ← Math_random;
  sf ← Math_random;
  wf ← Math_random;
  mret (mkIntersection (intersectionId x y) (intersectionName x y) x y
         (nf * 20) (ef * 20) (sf * 20) (wf * 20)
         0 0 0 0
         red green red green
         0 0 0).

Definition initializeNetwork (gridSize : nat) : Rand (list IntersectionState) :=
  rows ← mapR (fun x => mapR (fun y => newIntersection x y) (seq 0 gridSize))
              (seq 0 gridSize);
  mret (concat rows).

(** [simulateIntersectionStep].  [allIntersections] and [connections] are
    parameters the source never reads. *)
Definition simulateIntersectionStep (intersection : IntersectionState)
    (config : SimulationConfig) (allIntersections : list IntersectionState)
    (connections : list NetworkConnection) : Rand IntersectionState :=
  r1 ← Math_random;
  r2 ← Math_random;
  r3 ← Math_random;
  r4 ← Math_random;
  let updated := intersection in
  let updated :=
    set_flows updated
      (northFlow updated + r1 * trafficIntensity config * 5)
      (eastFlow updated + r2 * trafficIntensity config * 5)
      (southFlow updated + r3 * trafficIntensity config * 5)
      (westFlow updated + r4 * trafficIntensity config * 5) in
  let northCapacity := if bool_decide (northSignal updated = green) then 8 else 0 in
  let eastCapacity := if bool_decide (eastSignal updated = green) then 8 else 0 in
  let southCapacity := if bool_decide (southSignal updated = green) then 8 else 0 in
  let westCapacity := if bool_decide (westSignal updated = green) then 8 else 0 in
  let northThrough := Math_min (northQueue updated) northCapacity in
  let eastThrough := Math_min (eastQueue updated) eastCapacity in
  let southThrough := Math_min (southQueue updated) southCapacity in
  let westThrough := Math_min (westQueue updated) westCapacity in
  let updated :=
    set_queues updated
      (Math_max 0 (northQueue updated - northThrough))
      (Math_max 0 (eastQueue updated - eastThrough))
      (Math_max 0 (southQueue updated - southThrough))
      (Math_max 0 (westQueue updated - westThrough)) in
  let updated :=
    set_totalThroughput updated
      (totalThroughput updated
       + (northThrough + eastThrough + southThrough + westThrough)) in
  let updated :=
    set_queues updated
      (northQueue updated + northFlow updated)
      (eastQueue updated + eastFlow updated)
      (southQueue updated + southFlow updated)
      (westQueue updated + westFlow updated) in
  let updated :=
    set_totalWaitingTime updated
      (totalWaitingTime updated
       + (northQueue updated + eastQueue updated + southQueue updated
          + westQueue updated)) in
  let nsQueue := northQueue updated + southQueue updated in
  let ewQueue := eastQueue updated + westQueue updated in
  let updated := updateSignalStrategy updated (strategy config) nsQueue ewQueue in
  let totalQueue :=
    northQueue updated + eastQueue updated + southQueue updated
    + westQueue updated in
  mret (set_efficiency updated (totalThroughput updated / (totalQueue + 1))).

Definition simulateNetworkStep (state : NetworkState)
    (config : SimulationConfig) (connections : list NetworkConnection)
    : Rand NetworkState :=
  stepped ← mapR (fun intersection =>
                    simulateIntersectionStep intersection config
                      (intersections state) connections)
                 (intersections state);
  let newIntersections := applyNetworkFlowInfluence stepped connections in
  let totalWaitingTime :=
    foldl (fun sum i => sum + totalWaitingTime i) 0 newIntersections in
  let totalThroughput :=
    foldl (fun sum i => sum + totalThroughput i) 0 newIntersections in
  let totalVehicles :=
    foldl (fun sum i =>
             sum + northQueue i + eastQueue i + southQueue i + westQueue i)
          0 newIntersections in
  mret (mkNetwork newIntersections (Network.connections state)
          (time state + 1) totalVehicles
          (if Qltb 0 totalVehicles then totalThroughput / totalVehicles else 0)
          (if bool_decide (0 < length newIntersections)%nat
           then totalWaitingTime / inject_Z (Z.of_nat (length newIntersections))
           else 0)).

(** The loop of [runNetworkSimulation]: the states pushed after the
    initial one. *)
Fixpoint simulateLoop (n : nat) (state : NetworkState)
    (config : SimulationConfig) (connections : list NetworkConnection)
    : Rand (list NetworkState) :=
  match n with
  | O => mret []
  | S n' =>
      state' ← simulateNetworkStep state config connections;
      rest ← simulateLoop n' state' config connections;
      mret (state' :: rest)
  end.

Definition runNetworkSimulation (config : SimulationConfig)
    : Rand (list NetworkState) :=
  intersections ← initializeNetwork (gridSize config);
  let connections := createNetworkConnections (gridSize config) in
  let state := mkNetwork intersections connections 0 0 0 0 in
  history ← simulateLoop (simulationTime config) state config connections;
  mret (state :: history).

End WithRandom.

(** ** Vocabulary of the properties *)

Definition b2n (b : bool) : nat := if b then 1%nat else 0%nat.

Definition endpoints (c : NetworkConnection) : string * string :=
  (from c, to c).

(** The four adjacent pairs of the 2 x 2 grid. *)
Definition adjacentPairs2 : list (string * string) :=
  [ (intersectionId 0 0, intersectionId 1 0);
    (intersectionId 0 0, intersectionId 0 1);
    (intersectionId 0 1, intersectionId 1 1);
    (intersectionId 1 0, intersectionId 1 1) ].

Definition queues_nonneg (i : IntersectionState) : Prop :=
  0 <= northQueue i /\ 0 <= eastQueue i
  /\ 0 <= southQueue i /\ 0 <= westQueue i.

Definition flows_nonneg (i : IntersectionState) : Prop :=
  0 <= northFlow i /\ 0 <= eastFlow i
  /\ 0 <= southFlow i /\ 0 <= westFlow i.

Definition well_formed (i : IntersectionState) : Prop :=
  flows_nonneg i /\ queues_nonneg i.

(** Every field the pass is not meant to touch. *)
Definition same_frame (a b : IntersectionState) : Prop :=
  id a = id b /\ name a = name b /\ x a = x b /\ y a = y b
  /\ northFlow a = northFlow b /\ eastFlow a = eastFlow b
  /\ southFlow a = southFlow b /\ westFlow a = westFlow b
  /\ northSignal a = northSignal b /\ eastSignal a = eastSignal b
  /\ southSignal a = southSignal b /\ westSignal a = westSignal b
  /\ totalWaitingTime a = totalWaitingTime b
  /\ totalThroughput a = totalThroughput b
  /\ efficiency a = efficiency b.

Definition queues_le (a b : IntersectionState) : Prop :=
  northQueue a <= northQueue b /\ eastQueue a <= eastQueue b
  /\ southQueue a <= southQueue b /\ westQueue a <= westQueue b.

(** Vehicles queued in the whole network. *)
Definition networkQueued (st : list IntersectionState) : Q :=
  foldr (fun i acc => queueTotal i + acc) 0 st.

(** The amount a connection moves when it is processed in the working
    copies [st]: zero unless both ends are known and the source shows green
    in the connection's direction. *)
Definition propagated (m : gmap string nat) (st : list IntersectionState)
    (c : NetworkConnection) : Q :=
  match m !! from c, m !! to c with
  | Some i, Some j =>
      match st !! i with
      | Some src =>
          if bool_decide (sourceSignal (direction c) src = green)
          then if bool_decide (j < length st)%nat then flowAmountOf c src
               else 0
          else 0
      | None => 0
      end
  | _, _ => 0
  end.

(** The sum of what the connections [cs] move, each one read in the copies
    as the connections before it have left them. *)
Fixpoint propagatedTotal (m : gmap string nat) (st : list IntersectionState)
    (cs : list NetworkConnection) : Q :=
  match cs with
  | [] => 0
  | c :: cs' => propagated m st c + propagatedTotal m (propagate m st c) cs'
  end.

(** The states of a run that the theorems speak about. *)
Definition state_ok (s : NetworkState) : Prop :=
  Forall well_formed (intersections s) /\ 0 <= totalVehicles s.

(** A connection is live in the copies [st] when both its ends are known
    to the map, as the copies at positions [i] and [j], and the source [src]
    shows green in the connection's direction. *)
Definition live (m : gmap string nat) (st : list IntersectionState)
    (c : NetworkConnection) (i j : nat) (src : IntersectionState) : Prop :=
  m !! from c = Some i /\ m !! to c = Some j /\ st !! i = Some src
  /\ sourceSignal (direction c) src = green.

(** A source with a negative queue, showing green towards its neighbour. *)
Definition negativeSource : IntersectionState :=
  mkIntersection "a" "A" 0 0  0 0 0 0  (-10) 0 0 0
    green red green red  0 0 0.

Definition quietNeighbour : IntersectionState :=
  mkIntersection "b" "B" 0 1  0 0 0 0  0 0 0 0
    red green red green  0 0 0.

Definition negativeLink : NetworkConnection := mkConnection "a" "b" north 0.3.

(** A run of the viewer's default network: a 2 x 2 grid at traffic
    intensity 0.5, here with every [Math.random()] draw equal to 0.5. *)
Definition halfDraws : nat -> Q := fun _ => 1 # 2.

Definition fixedTimeRun : SimulationConfig :=
  mkConfig 2 8 fixed_time (1 # 2) false None.

(** The axis an intersection shows green. *)
Inductive Axis := NorthSouth | EastWest | Neither.

Definition greenAxis (i : IntersectionState) : Axis :=
  match northSignal i, southSignal i, eastSignal i, westSignal i with
  | green, green, red, red => NorthSouth
  | red, red, green, green => EastWest
  | _, _, _, _ => Neither
  end.

(** A 2 x 2 network as the per-intersection step of a first tick leaves it
    when every flow is 10: each queue holds 10 vehicles and east-west is
    green. *)
Definition tenQueued (x y : nat) : IntersectionState :=
  mkIntersection (intersectionId x y) (intersectionName x y) x y
    10 10 10 10  10 10 10 10  red green red green  40 0 0.

Definition tenQueuedGrid : list IntersectionState :=
  [tenQueued 0 0; tenQueued 0 1; tenQueued 1 0; tenQueued 1 1].

Definition zeroDraws : nat -> Q := fun _ => 0.

(** [halfDraws] for the first 16 draws, 0 afterwards. *)
Definition halfThenZeroDraws : nat -> Q :=
  fun k => if (k <? 16)%nat then 1 # 2 else 0.

Definition tenQueuedNetwork : NetworkState :=
  mkNetwork tenQueuedGrid (createNetworkConnections 2) 0 0 0 0.

(** ** [calculateNetworkStats]

    Its results are averages and extrema of the exact values of a history.
    On an empty history JavaScript evaluates [0 / 0], [Math.max()] and
    [Math.min()], which are [NaN], [-Infinity] and [Infinity]; a [Summary]
    is an exact value or one of those three. *)

Inductive Summary :=
  | Finite (q : Q)
  | PosInfinity
  | NegInfinity
  | NotANumber.

Record NetworkStats := mkNetworkStats {
  avgEfficiency : Summary;
  maxEfficiency : Summary;
  minEfficiency : Summary;
  avgWaitingTime : Summary;
  maxWaitingTime : Summary;
  avgVehicles : Summary
}.

(** [xs.reduce((a, b) => a + b, 0) / xs.length]; the mean of a non-empty
    list is exact here, and no property below is about its value. *)
Definition average (xs : list Q) : Summary :=
  if bool_decide (length xs = 0%nat) then NotANumber
  else Finite (foldl (fun a b => a + b) 0 xs
               / inject_Z (Z.of_nat (length xs))).

(** [Math.max(...xs)] and [Math.min(...xs)] *)
Definition maximum (xs : list Q) : Summary :=
  match xs with
  | [] => NegInfinity
  | x :: xs' => Finite (foldl Math_max x xs')
  end.

Definition minimum (xs : list Q) : Summary :=
  match xs with
  | [] => PosInfinity
  | x :: xs' => Finite (foldl Math_min x xs')
  end.

Definition calculateNetworkStats (history : list NetworkState) : NetworkStats :=
  let efficiencies := map networkEfficiency history in
  let waitingTimes := map averageWaitingTime history in
  let vehicleCounts := map totalVehicles history in
  mkNetworkStats (average efficiencies) (maximum efficiencies)
    (minimum efficiencies) (average waitingTimes) (maximum waitingTimes)
    (average vehicleCounts).

(** ** Vocabulary of the further properties *)

(** [a <= b] on two finite results. *)
Definition finite_le (a b : Summary) : Prop :=
  match a, b with
  | Finite p, Finite q => p <= q
  | _, _ => False
  end.

Definition opposite (d : Direction) : Direction :=
  match d with
  | north => south | east => west | south => north | west => east
  end.

(** The cell [(x', y')] is the neighbour of [(x, y)] in direction [d]; north
    is towards smaller [y], as in [createNetworkConnections]. *)
Definition towards (d : Direction) (x y x' y' : nat) : Prop :=
  match d with
  | north => x' = x /\ S y' = y
  | east => x' = S x /\ y' = y
  | south => x' = x /\ y' = S y
  | west => S x' = x /\ y' = y
  end.

(** The identifiers of the [g] x [g] grid, in the order the two loops of
    [initializeNetwork] visit the cells. *)
Definition gridIds (gridSize : nat) : list string :=
  flat_map (fun x => map (intersectionId x) (seq 0 gridSize)) (seq 0 gridSize).

(** A string without the separator of the identifiers. *)
Definition underscoreFree (s : string) : Prop :=
  forall a b, s <> a +:+ "_" +:+ b.

(** The vehicles a direction lets through in a tick. *)
Definition capacity (s : Signal) : Q := if bool_decide (s = green) then 8 else 0.

Definition same_place (a b : IntersectionState) : Prop :=
  id a = id b /\ name a = name b /\ x a = x b /\ y a = y b.

(** The flow rate of a direction. *)
Definition flowRate (d : Direction) (i : IntersectionState) : Q :=
  match d with
  | north => northFlow i | east => eastFlow i
  | south => southFlow i | west => westFlow i
  end.

(** North and south green with east and west red, or the reverse. *)
Definition complementary (i : IntersectionState) : Prop :=
  greenAxis i = NorthSouth \/ greenAxis i = EastWest.

Definition counters_nonneg (i : IntersectionState) : Prop :=
  0 <= totalWaitingTime i /\ 0 <= totalThroughput i /\ 0 <= efficiency i.

(** Nothing that accumulates has gone down from [a] to [b]. *)
Definition accumulated (a b : IntersectionState) : Prop :=
  northFlow a <= northFlow b /\ eastFlow a <= eastFlow b
  /\ southFlow a <= southFlow b /\ westFlow a <= westFlow b
  /\ totalThroughput a <= totalThroughput b
  /\ totalWaitingTime a <= totalWaitingTime b.

(** A connection that cannot move anything in the intersections [st]: one
    of its ends is no intersection's id, or no intersection carrying its
    source id shows green in its direction. *)
Definition idle (st : list IntersectionState) (c : NetworkConnection) : Prop :=
  from c ∉ map id st \/ to c ∉ map id st
  \/ (forall i, i ∈ st -> id i = from c ->
        sourceSignal (direction c) i <> green).

End Network.

(** * JavaScript numbers and the host's [Math] object *)

Module JS.

Local Open Scope float_scope.

Definition NaN : float := nan.
Definition isNaN (x : float) : bool := negb (x =? x).

(** Integers to numbers; exact below 2^53. *)
Definition ofZ (z : Z) : float :=
  match z with
  | Z0 => 0
  | Zpos _ => of_uint63 (Uint63.of_Z z)
  | Zneg p => - of_uint63 (Uint63.of_Z (Zpos p))
  end.

Definition ofNat (n : nat) : float := ofZ (Z.of_nat n).

(** The integer a number denotes, when it denotes one. *)
Definition toInteger (x : float) : option Z :=
  match Prim2SF x with
  | S754_zero _ => Some 0%Z
  | S754_finite s m e =>
      if (0 <=? e)%Z then Some (cond_Zopp s (Zpos m * 2 ^ e))
      else if (Zpos m mod 2 ^ (- e) =? 0)%Z
           then Some (cond_Zopp s (Zpos m / 2 ^ (- e)))
           else None
  | _ => None
  end.

(** [Math.floor], [Math.ceil] and [Math.round], computed exactly from the
    binary expansion. *)
Definition Math_floor (x : float) : float :=
  match Prim2SF x with
  | S754_finite s m e =>
      if (0 <=? e)%Z then x
      else
        let q := (Zpos m / 2 ^ (- e))%Z in
        if s then
          (if (Zpos m mod 2 ^ (- e) =? 0)%Z then - ofZ q else - ofZ (q + 1))
        else ofZ q
  | _ => x
  end.

Definition Math_ceil (x : float) : float := - Math_floor (- x).

Definition Math_round (x : float) : float :=
  match Prim2SF x with
  | S754_finite s m e =>
      if (0 <=? e)%Z then x
      else
        let z := ((2 * cond_Zopp s (Zpos m) + 2 ^ (- e)) / 2 ^ (- e + 1))%Z in
        if (z =? 0)%Z && s then neg_zero else ofZ z
  | _ => x
  end.

Definition isNegZero (x : float) : bool :=
  match Prim2SF x with S754_zero true => true | _ => false end.

Definition Math_max (a b : float) : float :=
  if isNaN a || isNaN b then NaN
  else if a <? b then b
  else if b <? a then a
  else if isNegZero a then b else a.

Definition Math_min (a b : float) : float :=
  if isNaN a || isNaN b then NaN
  else if a <? b then a
  else if b <? a then b
  else if isNegZero a then a else b.

Definition Math_abs (x : float) : float := PrimFloat.abs x.
Definition Math_sqrt (x : float) : float := PrimFloat.sqrt x.
Definition Math_PI : float := 3.141592653589793.

(** [Math.pow] at the exponents 2, 3 and 4 the code uses: repeated
    multiplication (the host's result may differ in the last place for 3
    and 4; at exponent 2 it is [x * x]). *)
Fixpoint Math_pow (x : float) (n : nat) : float :=
  match n with
  | O => 1
  | S O => x
  | S n' => x * Math_pow x n'
  end.

(** [x % 1] *)
Definition mod1 (x : float) : float :=
  if x <? 0 then x - Math_ceil x else x - Math_floor x.

(** Reading an array at a number: [undefined], hence [NaN] in arithmetic,
    off the array or at a non-integer. *)
Definition at_ (l : list float) (ix : float) : float :=
  match toInteger ix with
  | Some (Zneg _) | None => NaN
  | Some z => default NaN (l !! Z.to_nat z)
  end.

(** The functions the host computes by approximation.  ECMAScript fixes
    their values at the special arguments only. *)
Class HostMath := {
  Math_exp : float -> float;
  Math_log : float -> float;
  Math_tanh : float -> float;
  Math_cos : float -> float
}.

Record Ecma (H : HostMath) : Prop := {
  log_one : Math_log 1 = 0;
  log_zero : Math_log 0 = neg_infinity;
  log_nan : Math_log nan = nan;
  exp_neg_infinity : Math_exp neg_infinity = 0;
  exp_zero : Math_exp 0 = 1;
  exp_neg_zero : Math_exp neg_zero = 1;
  exp_nan : Math_exp nan = nan;
  tanh_zero : Math_tanh 0 = 0;
  tanh_neg_zero : Math_tanh neg_zero = neg_zero;
  tanh_nan : Math_tanh nan = nan;
  cos_zero : Math_cos 0 = 1
}.

(** A number that is [+0], [-0] or [NaN]. *)
Definition zeroOrNaN (v : float) : Prop :=
  v = 0 \/ v = neg_zero \/ v = nan.

(** A reference host: argument reduction and a truncated series, right to
    about fifteen digits and exact at the special arguments. *)
Definition LN2 : float := 0.6931471805599453.

Fixpoint expSeries (n : nat) (k r : float) : float :=
  match n with
  | O => 1
  | S n' => 1 + r / k * expSeries n' (k + 1) r
  end.

Definition ref_exp (x : float) : float :=
  if isNaN x then NaN
  else if x =? infinity then infinity
  else if x =? neg_infinity then 0
  else if 709.782712893384 <? x then infinity
  else if x <? -745.1332191019412 then 0
  else
    let k := Math_round (x / LN2) in
    let r := x - k * LN2 in
    Z.ldexp (expSeries 20 1 r) (default 0%Z (toInteger k)).

Fixpoint atanhSeries (n : nat) (k t2 : float) : float :=
  match n with
  | O => 1 / k
  | S n' => 1 / k + t2 * atanhSeries n' (k + 2) t2
  end.

Definition ref_log (x : float) : float :=
  if isNaN x || (x <? 0) then NaN
  else if x =? 0 then neg_infinity
  else if x =? infinity then infinity
  else
    let (m, e) := Z.frexp x in
    let (m, e) :=
      if m <? 0.7071067811865476 then (2 * m, (e - 1)%Z) else (m, e) in
    let t := (m - 1) / (m + 1) in
    ofZ e * LN2 + 2 * t * atanhSeries 14 1 (t * t).

Definition ref_tanh (x : float) : float :=
  if isNaN x then NaN
  else if x =? 0 then x
  else
    let e := ref_exp (-2 * PrimFloat.abs x) in
    let v := (1 - e) / (1 + e) in
    if x <? 0 then - v else v.

Fixpoint cosSeries (n : nat) (k r2 : float) : float :=
  match n with
  | O => 1
  | S n' => 1 - r2 / (k * (k + 1)) * cosSeries n' (k + 2) r2
  end.

Definition ref_cos (x : float) : float :=
  if isNaN x || (PrimFloat.abs x =? infinity) then NaN
  else
    let y := PrimFloat.abs x in
    let r := y - Math_floor (y / (2 * Math_PI)) * (2 * Math_PI) in
    let r := if Math_PI <? r then 2 * Math_PI - r else r in
    if Math_PI / 2 <? r
    then - cosSeries 14 1 ((Math_PI - r) * (Math_PI - r))
    else cosSeries 14 1 (r * r).

Definition referenceHost : HostMath :=
  {| Math_exp := ref_exp; Math_log := ref_log;
     Math_tanh := ref_tanh; Math_cos := ref_cos |}.

End JS.

(** * The flow write in the code's own arithmetic *)

Module NetworkBinary64.

Import JS.
Local Open Scope float_scope.

(** The two statements of a live connection in [applyNetworkFlowInfluence],
    [flowAmount = Math.min(fromIntersection.queue * connection.flowInfluence,
    5)] and [toIntersection.queue += flowAmount], on binary64 numbers. *)
Definition flowAmount (sourceQueue flowInfluence : float) : float :=
  Math_min (sourceQueue * flowInfluence) 5.

Definition receive (destinationQueue sourceQueue flowInfluence : float)
    : float :=
  destinationQueue + flowAmount sourceQueue flowInfluence.

End NetworkBinary64.

(** * [statisticalAnalysis.ts] *)

Module Stats.

Import JS.
Local Open Scope float_scope.

Record StatisticalResult := mkStats {
  mean : float;
  median : float;
  stdDev : float;
  variance : float;
  min : float;
  max : float;
  q1 : float;
  q3 : float;
  iqr : float;
  skewness : float;
  kurtosis : float
}.

Record ConfidenceInterval := mkCI {
  ci_mean : float;
  lowerBound : float;
  upperBound : float;
  ci_confidenceLevel : float;
  marginOfError : float
}.

Record HypothesisTestResult := mkTest {
  testName : string;
  testStatistic : float;
  pValue : float;
  isSignificant : bool;
  conclusion : string;
  confidenceLevel : float
}.

(** [data.reduce((a, b) => a + b, 0)] *)
Definition sum (data : list float) : float :=
  foldl (fun a b => a + b) 0 data.

(** [data.reduce((sum, val) => sum + Math.pow(val - mean, k), 0)] *)
Definition sumPow (data : list float) (mean : float) (k : nat) : float :=
  foldl (fun sum val => sum + Math_pow (val - mean) k) 0 data.

(** [[...data].sort((a, b) => a - b)]: a stable sort; an element goes
    before the first element the comparator ranks above it.  (Where the
    comparator returns [NaN] the order a host produces is its own.) *)
Fixpoint insertSorted (x : float) (l : list float) : list float :=
  match l with
  | [] => [x]
  | y :: l' => if 0 <? y - x then x :: y :: l' else y :: insertSorted x l'
  end.

Definition sortAscending (data : list float) : list float :=
  foldl (fun acc x => insertSorted x acc) [] data.

Definition calculatePercentile (sortedData : list float) (percentile : float)
    : float :=
  let index := (percentile / 100) * (ofNat (length sortedData) - 1) in
  let lower := Math_floor index in
  let upper := Math_ceil index in
  let weight := mod1 index in
  if lower =? upper then at_ sortedData lower
  else at_ sortedData lower * (1 - weight) + at_ sortedData upper * weight.

Definition calculateBasicStats (data : list float) : StatisticalResult :=
  if bool_decide (length data = 0%nat) then
    mkStats 0 0 0 0 0 0 0 0 0 0 0
  else
    let sorted := sortAscending data in
    let n := length data in
    let mean := sum data / ofNat n in
    let median :=
      if Nat.even n
      then (at_ sorted (ofNat n / 2 - 1) + at_ sorted (ofNat n / 2)) / 2
      else at_ sorted (Math_floor (ofNat n / 2)) in
    let variance := sumPow data mean 2 / ofNat n in
    let stdDev := Math_sqrt variance in
    let min := at_ sorted 0 in
    let max := at_ sorted (ofNat n - 1) in
    let q1 := calculatePercentile sorted 25 in
    let q3 := calculatePercentile sorted 75 in
    let iqr := q3 - q1 in
    let skewness := sumPow data mean 3 / (ofNat n * Math_pow stdDev 3) in
    let kurtosis := sumPow data mean 4 / (ofNat n * Math_pow stdDev 4) - 3 in
    mkStats mean median stdDev variance min max q1 q3 iqr skewness kurtosis.

(** [zScores[confidenceLevel] || 1.96]: the object has the keys 0.9, 0.95
    and 0.99. *)
Definition getZScore (confidenceLevel : float) : float :=
  if confidenceLevel =? 0.9 then 1.645
  else if confidenceLevel =? 0.95 then 1.96
  else if confidenceLevel =? 0.99 then 2.576
  else 1.96.

(** [calculateConfidenceInterval]; a caller that leaves the level out
    gets 0.95. *)
Definition calculateConfidenceInterval (data : list float)
    (confidenceLevel : float) : ConfidenceInterval :=
  let stats := calculateBasicStats data in
  let n := length data in
  let se := stdDev stats / Math_sqrt (ofNat n) in
  let zScore := getZScore confidenceLevel in
  let marginOfError := zScore * se in
  mkCI (mean stats) (mean stats - marginOfError) (mean stats + marginOfError)
       confidenceLevel marginOfError.

Section Host.

Context {H : HostMath}.

(** The loop of [incompleteBeta]; [i] runs from 0 and the loop stops at 100
    at the latest, so a fuel of 100 never runs out. *)
Fixpoint incompleteBetaLoop (fuel : nat) (x a b f d : float) (i : nat)
    : float :=
  match fuel with
  | O => f
  | S fuel' =>
      if (1e-10 <? Math_abs (f - d)) && bool_decide (i < 100)%nat then
        let d := f in
        let m := ofNat i / 2 in
        let numerator := (m * (b - m) * x) / ((a + 2 * m) * (a + 2 * m + 1)) in
        let f := 1 + numerator / f in
        let numerator :=
          - ((a + m) * (a + b + m) * x) / ((a + 2 * m + 1) * (a + 2 * m + 2)) in
        let f := 1 + numerator / f in
        incompleteBetaLoop fuel' x a b f d (S i)
      else f
  end.

Definition incompleteBeta (x a b : float) : float :=
  if (x <? 0) || (1 <? x) then (if x <? 0 then 0 else 1)
  else
    let front := Math_exp (a * Math_log x + b * Math_log (1 - x)) in
    let f := incompleteBetaLoop 100 x a b 1 0 0 in
    front / a / f.

Definition tCDF (t df : float) : float :=
  let x := df / (df + t * t) in
  incompleteBeta x (df / 2) 0.5 / 2.

Definition fCDF (f df1 df2 : float) : float :=
  let x := (df1 * f) / (df1 * f + df2) in
  incompleteBeta x (df1 / 2) (df2 / 2).

Definition chiSquareCDF (x df : float) : float :=
  incompleteBeta (x / 2) (df / 2) 0.5.

Definition independentTTest (data1 data2 : list float)
    (confidenceLevel : float) : HypothesisTestResult :=
  let stats1 := calculateBasicStats data1 in
  let stats2 := calculateBasicStats data2 in
  let n1 := ofNat (length data1) in
  let n2 := ofNat (length data2) in
  let se := Math_sqrt (variance stats1 / n1 + variance stats2 / n2) in
  let tStatistic := (mean stats1 - mean stats2) / se in
  let df :=
    Math_pow (variance stats1 / n1 + variance stats2 / n2) 2
    / (Math_pow (variance stats1 / n1) 2 / (n1 - 1)
       + Math_pow (variance stats2 / n2) 2 / (n2 - 1)) in
  let pValue := 2 * (1 - tCDF (Math_abs tStatistic) df) in
  let isSignificant := pValue <? 1 - confidenceLevel in
  mkTest "Independent T-Test" tStatistic pValue isSignificant
    (if isSignificant
     then "The difference between strategies is statistically significant"
     else "No significant difference between strategies")
    confidenceLevel.

End Host.

(** ** Vocabulary of the properties *)

(** The 40 samples 0, 1, ..., 39. *)
Definition fortySamples : list float := map ofNat (seq 0 40).

(** [lowerBound <= mean && mean <= upperBound] *)
Definition encloses (r : ConfidenceInterval) : bool :=
  (lowerBound r <=? ci_mean r) && (ci_mean r <=? upperBound r).

(** ** Correlations

    The functions below are the rest of the module; the properties stated
    about them come last in this file. *)

Record StrategyMetrics := mkMetrics {
  strategy : string;
  waitingTimes : list float;
  queueLengths : list float;
  rewards : list float;
  throughputs : list float
}.

(** The body of the loop of [pearsonCorrelation]; the accumulator holds
    [numerator], [denominator1] and [denominator2]. *)
Definition pearsonStep (data1 data2 : list float) (mean1 mean2 : float)
    (acc : float * float * float) (i : nat) : float * float * float :=
  let '(numerator, denominator1, denominator2) := acc in
  let diff1 := default NaN (data1 !! i) - mean1 in
  let diff2 := default NaN (data2 !! i) - mean2 in
  (numerator + diff1 * diff2,
   denominator1 + Math_pow diff1 2,
   denominator2 + Math_pow diff2 2).

Definition pearsonCorrelation (data1 data2 : list float) : float :=
  let n := Nat.min (length data1) (length data2) in
  let mean1 := sum (take n data1) / ofNat n in
  let mean2 := sum (take n data2) / ofNat n in
  let '(numerator, denominator1, denominator2) :=
    foldl (pearsonStep data1 data2 mean1 mean2) (0, 0, 0) (seq 0 n) in
  numerator / Math_sqrt (denominator1 * denominator2).

(** The object [datasets], as its keys in insertion order with their
    values. *)
Definition datasets (metrics : StrategyMetrics) : list (string * list float) :=
  [ ("waitingTimes", waitingTimes metrics);
    ("queueLengths", queueLengths metrics);
    ("rewards", rewards metrics);
    ("throughputs", throughputs metrics) ].

(** A [CorrelationMatrix] is an object of objects.  The outer loop of
    [calculateCorrelationMatrix] creates the row [correlations[keys[i]]] and
    the inner loop fills it, one key after the other. *)
Definition CorrelationMatrix := gmap string (gmap string float).

Definition calculateCorrelationMatrix (metrics : StrategyMetrics)
    : CorrelationMatrix :=
  let datasets := datasets metrics in
  let keys := zip (seq 0 (length datasets)) datasets in
  foldl (fun correlations '(i, (ki, di)) =>
           <[ki :=
               foldl (fun row '(j, (kj, dj)) =>
                        <[kj := if (i =? j)%nat then 1
                                else pearsonCorrelation di dj]> row)
                     ∅ keys]> correlations)
        ∅ keys.

(** [correlations[a][b]] *)
Definition entry (m : CorrelationMatrix) (a b : string) : option float :=
  row ← m !! a; row !! b.

(** ** Analysis of variance *)

Section Anova.

Context {H : HostMath}.

(** [anovaTest]; a caller that leaves the level out gets 0.95.  The
    [forEach] callbacks read [groupStats[i]] at the index of the group. *)
Definition anovaTest (groups : list (list float)) (confidenceLevel : float)
    : HypothesisTestResult :=
  let groupStats := map calculateBasicStats groups in
  let k := ofNat (length groups) in
  let N := foldl (fun total g => total + ofNat (length g)) 0 groups in
  let grandMean := foldl (fun total g => total + sum g) 0 groups / N in
  let ssb :=
    foldl (fun ssb '(group, stats) =>
             let groupMean := mean stats in
             ssb + ofNat (length group) * Math_pow (groupMean - grandMean) 2)
          0 (zip groups groupStats) in
  let ssw :=
    foldl (fun ssw '(group, stats) =>
             let groupMean := mean stats in
             foldl (fun ssw value => ssw + Math_pow (value - groupMean) 2)
                   ssw group)
          0 (zip groups groupStats) in
  let msb := ssb / (k - 1) in
  let msw := ssw / (N - k) in
  let fStatistic := msb / msw in
  let pValue := 1 - fCDF fStatistic (k - 1) (N - k) in
  let isSignificant := pValue <? 1 - confidenceLevel in
  mkTest "ANOVA Test" fStatistic pValue isSignificant
    (if isSignificant
     then "Significant differences exist between strategies"
     else "No significant differences between strategies")
    confidenceLevel.

End Anova.

End Stats.

(** * The helpers of [HypothesisTests.tsx] and [StatisticalAnalysis.tsx] *)

Module HypothesisTests.

Import JS.
Local Open Scope float_scope.

Inductive StrategyType := Fixed_time | Rule_based | RL_based.

(** The fields of [CustomScenario] the generators read. *)
Record CustomScenario := mkScenario {
  northFlow : float;
  eastFlow : float;
  southFlow : float;
  westFlow : float;
  incidentActive : bool;
  incidentSeverity : float;
  peakHourActive : bool;
  peakHourIntensity : float
}.

Record TTestResult := mkTTest {
  t_statistic : float;
  p_value : float;
  degrees_freedom : float;
  significant : bool;
  effect_size : float
}.

(** [baseValues[strategy][metric]] on the keys of the table, [None] for
    [undefined].  The callers pass the four metrics of the table, and the
    properties below are stated for those: a name that the object inherits
    from [Object.prototype] ([toString], [constructor], ...) is found by the
    lookup of the code as well, and is outside this table. *)
Definition baseValues (strategy : StrategyType) (metric : string)
    : option float :=
  match strategy with
  | Fixed_time =>
      if String.eqb metric "waitingTime" then Some 47.5
      else if String.eqb metric "queueLength" then Some 15.25
      else if String.eqb metric "throughput" then Some 60
      else if String.eqb metric "efficiency" then Some 35
      else None
  | Rule_based =>
      if String.eqb metric "waitingTime" then Some 25.25
      else if String.eqb metric "queueLength" then Some 0.5
      else if String.eqb metric "throughput" then Some 85
      else if String.eqb metric "efficiency" then Some 75
      else None
  | RL_based =>
      if String.eqb metric "waitingTime" then Some 21.5
      else if String.eqb metric "queueLength" then Some 0.2
      else if String.eqb metric "throughput" then Some 95.5
      else if String.eqb metric "efficiency" then Some 95
      else None
  end.

Definition varianceMultiplier (strategy : StrategyType) : float :=
  match strategy with
  | Fixed_time => 0.25
  | Rule_based => 0.15
  | RL_based => 0.08
  end.

(** The first half of the generators: [baseValues[strategy][metric] || 50],
    then the scenario multiplier when a scenario is supplied.  This is the
    value the samples are centred on. *)
Definition sampleBaseValue (strategy : StrategyType) (metric : string)
    (scenario : option CustomScenario) : float :=
  let baseValue := default 50 (baseValues strategy metric) in
  match scenario with
  | Some scenario =>
      let avgFlow :=
        (northFlow scenario + eastFlow scenario + southFlow scenario
         + westFlow scenario) / 4 in
      let flowMultiplier := 0.5 + (avgFlow / 100) * 1.5 in
      let incidentMultiplier :=
        if incidentActive scenario
        then 1 + incidentSeverity scenario / 200 else 1 in
      let peakMultiplier :=
        if peakHourActive scenario
        then 1 + peakHourIntensity scenario / 200 else 1 in
      if String.eqb metric "waitingTime" || String.eqb metric "queueLength"
      then baseValue * (flowMultiplier * incidentMultiplier * peakMultiplier)
      else baseValue / (flowMultiplier * incidentMultiplier * peakMultiplier)
  | None => baseValue
  end.

Section Host.

Context {H : HostMath}.

(** The values [Math.random()] returns, in the order they are drawn. *)
Variable rnd : nat -> float.

Definition Math_random : Rand float := fun k => (rnd k, S k).

(** One turn of the sampling loop: a Box-Muller variate [z] from two
    draws, and the sample pushed. *)
Definition drawSample (baseValue variance : float) : Rand float :=
  u1 ← Math_random;
  u2 ← Math_random;
  let z := Math_sqrt (-2 * Math_log u1) * Math_cos (2 * Math_PI * u2) in
  mret (Math_max 0 (baseValue + z * variance)).

(** [generateSampleData]; a caller that leaves [samples] out gets 100. *)
Definition generateSampleData (strategy : StrategyType) (metric : string)
    (scenario : option CustomScenario) (samples : nat) : Rand (list float) :=
  let baseValue := sampleBaseValue strategy metric scenario in
  let variance := baseValue * varianceMultiplier strategy in
  mapR (fun _ => drawSample baseValue variance) (seq 0 samples).

(** [generateDistributionData] of [StatisticalAnalysis.tsx]: the same
    tables and the same code, with the sample count fixed at 100. *)
Definition generateDistributionData (strategy : StrategyType)
    (metric : string) (scenario : option CustomScenario) : Rand (list float) :=
  let baseValue := sampleBaseValue strategy metric scenario in
  let variance := baseValue * varianceMultiplier strategy in
  mapR (fun _ => drawSample baseValue variance) (seq 0 100).

Definition mean (data : list float) : float :=
  foldl (fun a b => a + b) 0 data / ofNat (length data).

Definition variance (data : list float) : float :=
  let m := mean data in
  foldl (fun sum val => sum + Math_pow (val - m) 2) 0 data
  / (ofNat (length data) - 1).

Definition erf (x : float) : float :=
  let a1 := 0.254829592 in
  let a2 := -0.284496736 in
  let a3 := 1.421413741 in
  let a4 := -1.453152027 in
  let a5 := 1.061405429 in
  let p := 0.3275911 in
  let sign := if x <? 0 then -1 else 1 in
  let x := Math_abs x in
  let t := 1.0 / (1.0 + p * x) in
  let y :=
    1.0 - ((((a5 * t + a4) * t + a3) * t + a2) * t + a1) * t
          * Math_exp (- x * x) in
  sign * y.

Definition tDistributionCDF (t df : float) : float :=
  let absT := Math_abs t in
  if 30 <? df then 0.5 * (1 + erf (absT / Math_sqrt 2))
  else 0.5 + 0.5 * Math_tanh (absT / Math_sqrt (df + 1)).

(** [performTTest]; the [interpretation] text of the result is left out. *)
Definition performTTest (sample1 sample2 : list float) : TTestResult :=
  let n1 := ofNat (length sample1) in
  let n2 := ofNat (length sample2) in
  let m1 := mean sample1 in
  let m2 := mean sample2 in
  let v1 := variance sample1 in
  let v2 := variance sample2 in
  let se := Math_sqrt ((v1 / n1) + (v2 / n2)) in
  let t_statistic := (m1 - m2) / se in
  let df :=
    Math_pow (v1 / n1 + v2 / n2) 2
    / (Math_pow (v1 / n1) 2 / (n1 - 1) + Math_pow (v2 / n2) 2 / (n2 - 1)) in
  let p_value := 2 * (1 - tDistributionCDF (Math_abs t_statistic) df) in
  let pooled_std :=
    Math_sqrt (((n1 - 1) * v1 + (n2 - 1) * v2) / (n1 + n2 - 2)) in
  let effect_size := Math_abs ((m1 - m2) / pooled_std) in
  let significant := p_value <? 0.05 in
  mkTTest (Math_round (t_statistic * 1000) / 1000)
          (Math_round (p_value * 10000) / 10000)
          (Math_round df)
          significant
          (Math_round (effect_size * 1000) / 1000).

End Host.

(** ** Vocabulary of the properties *)

(** A scenario with no traffic, no incident and no peak hour. *)
Definition quiet (scenario : CustomScenario) : Prop :=
  northFlow scenario = 0 /\ eastFlow scenario = 0
  /\ southFlow scenario = 0 /\ westFlow scenario = 0
  /\ incidentActive scenario = false /\ peakHourActive scenario = false.

Definition quietScenario : CustomScenario :=
  mkScenario 0 0 0 0 false 50 false 50.

(** The keys of the table [baseValues], which are the metrics the callers
    pass. *)
Definition tableMetrics : list string :=
  ["waitingTime"; "queueLength"; "throughput"; "efficiency"].

(** The metrics the scenario multiplier scales up with the traffic; it
    scales every other metric down. *)
Definition growsWithTraffic (metric : string) : bool :=
  String.eqb metric "waitingTime" || String.eqb metric "queueLength".

Definition quarterUniform : nat -> float := fun _ => 0.25.
Definition halfUniform : nat -> float := fun _ => 0.5.

(** ** The one-way analysis of variance of [HypothesisTests.tsx] *)

Record ANOVAResult := mkANOVA {
  f_statistic : float;
  anova_p_value : float;
  df_between : float;
  df_within : float;
  anova_significant : bool
}.

Section Anova.

Context {H : HostMath}.

Definition fDistributionCDF (f df1 df2 : float) : float :=
  if f <? 0 then 0
  else if f =? 0 then 0
  else 1 - Math_exp (- f * df1 / (df1 + df2)).

(** [performANOVA]; the [interpretation] text of the result is left out,
    and the fields [p_value] and [significant] are [anova_p_value] and
    [anova_significant] here. *)
Definition performANOVA (sample1 sample2 sample3 : list float) : ANOVAResult :=
  let samples := [sample1; sample2; sample3] in
  let n :=
    ofNat (length sample1) + ofNat (length sample2) + ofNat (length sample3) in
  let k := 3 in
  let allData := sample1 ++ sample2 ++ sample3 in
  let grandMean := mean allData in
  let ss_between :=
    foldl (fun sum sample =>
             let m := mean sample in
             sum + ofNat (length sample) * Math_pow (m - grandMean) 2)
          0 samples in
  let ss_within :=
    foldl (fun sum sample =>
             let m := mean sample in
             sum + foldl (fun s val => s + Math_pow (val - m) 2) 0 sample)
          0 samples in
  let df_between := k - 1 in
  let df_within := n - k in
  let ms_between := ss_between / df_between in
  let ms_within := ss_within / df_within in
  let f_statistic := ms_between / ms_within in
  let p_value := 1 - fDistributionCDF f_statistic df_between df_within in
  let significant := p_value <? 0.05 in
  mkANOVA (Math_round (f_statistic * 1000) / 1000)
          (Math_round (p_value * 10000) / 10000)
          df_between df_within significant.

End Anova.

(** ** [calculatePerformanceMetrics], of the scenario-impact view in
    [StatisticalAnalysis.tsx] *)

Record PerformanceMetrics := mkPerformance {
  waitingTime : float;
  queueLength : float;
  throughput : float;
  efficiency : float
}.

Record StrategyPerformance := mkStrategyPerformance {
  fixedTime : PerformanceMetrics;
  ruleBased : PerformanceMetrics;
  rlBased : PerformanceMetrics
}.

Definition calculatePerformanceMetrics (scenario : option CustomScenario)
    : StrategyPerformance :=
  match scenario with
  | None =>
      mkStrategyPerformance
        (mkPerformance 47.5 15.25 60 35)
        (mkPerformance 25.25 0 85 75)
        (mkPerformance 21.5 0 95.5 95)
  | Some scenario =>
      let avgFlow :=
        (northFlow scenario + eastFlow scenario + southFlow scenario
         + westFlow scenario) / 4 in
      let flowMultiplier := 0.5 + (avgFlow / 100) * 1.5 in
      let incidentMultiplier :=
        if incidentActive scenario
        then 1 + incidentSeverity scenario / 200 else 1 in
      let peakMultiplier :=
        if peakHourActive scenario
        then 1 + peakHourIntensity scenario / 200 else 1 in
      let totalMultiplier :=
        flowMultiplier * incidentMultiplier * peakMultiplier in
      mkStrategyPerformance
        (mkPerformance
           (Math_round (47.5 * totalMultiplier * 10) / 10)
           (Math_round (15.25 * totalMultiplier * 10) / 10)
           (Math_max 10 (Math_round (60 / totalMultiplier * 10) / 10))
           (Math_max 5 (Math_round (35 / totalMultiplier * 10) / 10)))
        (mkPerformance
           (Math_round (25.25 * (totalMultiplier * 0.7) * 10) / 10)
           (Math_round (0.5 * totalMultiplier * 10) / 10)
           (Math_max 30 (Math_round (85 / (totalMultiplier * 0.6) * 10) / 10))
           (Math_max 40 (Math_round (75 / (totalMultiplier * 0.5) * 10) / 10)))
        (mkPerformance
           (Math_round (21.5 * (totalMultiplier * 0.5) * 10) / 10)
           (Math_round (0.2 * totalMultiplier * 10) / 10)
           (Math_max 50 (Math_round (95.5 / (totalMultiplier * 0.4) * 10) / 10))
           (Math_max 70 (Math_round (95 / (totalMultiplier * 0.3) * 10) / 10)))
  end.

(** ** Vocabulary of the further properties *)

(** What [Math.max(c, ...)] guarantees of its result [v]: it is [NaN], or
    it is a number [v >= c]. *)
Definition floored (c v : float) : Prop :=
  isNaN v = true \/ (c <=? v) = true.

(** The table [calculatePerformanceMetrics] returns for a scenario without
    traffic, incident or peak hour. *)
Definition quietPerformance : StrategyPerformance :=
  mkStrategyPerformance
    (mkPerformance 23.8 7.6 120 70)
    (mkPerformance 8.8 0.3 283.3 300)
    (mkPerformance 5.4 0.1 477.5 633.3).

End HypothesisTests.

(** * Properties of the grid-network simulator *)

Module NetworkProps.

Import Network.
Local Open Scope Q_scope.

(** ** Counting the connections *)

Lemma cellConnections_length g x y :
  length (cellConnections g x y) =
  (b2n (bool_decide (0 < y)%nat) + b2n (bool_decide (x < g - 1)%nat)
   + b2n (bool_decide (y < g - 1)%nat) + b2n (bool_decide (0 < x)%nat))%nat.
Proof.
  unfold cellConnections.
  repeat case_bool_decide; reflexivity.
Qed.

Lemma flat_map_length_sum {A B} (f : A -> list B) (l : list A) :
  length (flat_map f l) = list_sum (map (fun a => length (f a)) l).
Proof.
  induction l as [|a l IH]; simpl; [reflexivity|].
  rewrite length_app, IH. reflexivity.
Qed.

Lemma list_sum_map_add {A} (f h : A -> nat) (l : list A) :
  list_sum (map (fun a => (f a + h a)%nat) l)
  = (list_sum (map f l) + list_sum (map h l))%nat.
Proof. induction l as [|a l IH]; simpl; lia. Qed.

Lemma list_sum_map_const {A} (c : nat) (l : list A) :
  list_sum (map (fun _ => c) l) = (c * length l)%nat.
Proof. induction l as [|a l IH]; simpl; lia. Qed.

Lemma list_sum_map_ext {A} (f h : A -> nat) (l : list A) :
  (forall a, f a = h a) ->
  list_sum (map f l) = list_sum (map h l).
Proof. intros E. induction l as [|a l IH]; simpl; [reflexivity|]. rewrite E, IH. reflexivity. Qed.

(** Among the indices [0 .. n-1], [min n m] are below [m], and [n - 1] are
    positive. *)
Lemma count_below (m n : nat) :
  list_sum (map (fun i => b2n (bool_decide (i < m)%nat)) (seq 0 n))
  = Nat.min n m.
Proof.
  induction n as [|n IH]; [reflexivity|].
  rewrite seq_S, map_app, list_sum_app, IH.
  cbn -[Nat.min Nat.sub bool_decide].
  case_bool_decide; cbn -[Nat.min Nat.sub]; lia.
Qed.

Lemma count_positive (n : nat) :
  list_sum (map (fun i => b2n (bool_decide (0 < i)%nat)) (seq 0 n))
  = (n - 1)%nat.
Proof.
  induction n as [|n IH]; [reflexivity|].
  rewrite seq_S, map_app, list_sum_app, IH.
  cbn -[Nat.min Nat.sub bool_decide].
  case_bool_decide; cbn -[Nat.min Nat.sub]; lia.
Qed.

Lemma row_length (g x : nat) :
  length (flat_map (fun y => cellConnections g x y) (seq 0 g))
  = (2 * (g - 1)
     + g * (b2n (bool_decide (x < g - 1)%nat) + b2n (bool_decide (0 < x)%nat)))%nat.
Proof.
  rewrite flat_map_length_sum.
  rewrite (list_sum_map_ext _
             (fun y => ((b2n (bool_decide (0 < y)%nat)
                         + b2n (bool_decide (y < g - 1)%nat))
                        + (b2n (bool_decide (x < g - 1)%nat)
                           + b2n (bool_decide (0 < x)%nat)))%nat)).
  2:{ intros y. rewrite cellConnections_length. lia. }
  rewrite list_sum_map_add, list_sum_map_add, list_sum_map_const.
  rewrite count_positive, count_below, length_seq. lia.
Qed.

Lemma createNetworkConnections_length (g : nat) :
  length (createNetworkConnections g) = (4 * g * (g - 1))%nat.
Proof.
  unfold createNetworkConnections.
  rewrite flat_map_length_sum.
  rewrite (list_sum_map_ext _
             (fun x => (2 * (g - 1)
                        + (g * b2n (bool_decide (x < g - 1)%nat)
                           + g * b2n (bool_decide (0 < x)%nat)))%nat)).
  2:{ intros x. rewrite row_length. lia. }
  rewrite list_sum_map_add, list_sum_map_add, list_sum_map_const, length_seq.
  assert (Hmul : forall (f : nat -> nat) l,
             list_sum (map (fun x => (g * f x)%nat) l)
             = (g * list_sum (map f l))%nat).
  { intros f l. induction l as [|a l IH]; simpl; lia. }
  rewrite (Hmul (fun x => b2n (bool_decide (x < g - 1)%nat))).
  rewrite (Hmul (fun x => b2n (bool_decide (0 < x)%nat))).
  rewrite count_positive, count_below.
  destruct g as [|g]; [reflexivity|].
  replace (S g - 1)%nat with g by lia.
  rewrite Nat.min_r by lia. lia.
Qed.

(** C6: for every grid size [g >= 2], [createNetworkConnections g] returns
    exactly [2 * g * (g - 1) * 2] directed connections.  For [g = 2] these
    are 8 pairwise distinct directed edges between the ids of the four
    intersections [initializeNetwork 2] creates: each of the 4 adjacent
    pairs once in either direction. *)
Theorem createNetworkConnections_count (g : nat) :
  (2 <= g)%nat ->
  length (createNetworkConnections g) = (2 * g * (g - 1) * 2)%nat
  /\ (g = 2%nat ->
      length (createNetworkConnections g) = 8%nat
      /\ NoDup (map endpoints (createNetworkConnections g))
      /\ map endpoints (createNetworkConnections g)
         ≡ₚ adjacentPairs2 ++ map (fun p => (p.2, p.1)) adjacentPairs2
      /\ length adjacentPairs2 = 4%nat
      /\ (forall rnd k,
            map id (evalR (initializeNetwork rnd g) k)
            = [intersectionId 0 0; intersectionId 0 1;
               intersectionId 1 0; intersectionId 1 1])).
Proof.
  intros Hg. split.
  - rewrite createNetworkConnections_length. lia.
  - intros ->. split; [reflexivity|]. split; [|split; [|split]].
    + apply (bool_decide_unpack _). vm_compute. exact I.
    + apply (bool_decide_unpack _). vm_compute. exact I.
    + reflexivity.
    + intros rnd k. reflexivity.
Qed.

Lemma createNetworkConnections_count_witness :
  (2 <= 2)%nat
  /\ length (createNetworkConnections 2) = (2 * 2 * (2 - 1) * 2)%nat
  /\ length (createNetworkConnections 2) = 8%nat.
Proof.
  split; [lia|].
  destruct (createNetworkConnections_count 2) as [Hn H2]; [lia|].
  split; [exact Hn|]. apply H2. reflexivity.
Defined.

(** ** Queues stay non-negative *)

Lemma Math_max_zero_nonneg (v : Q) : 0 <= Math_max 0 v.
Proof.
  unfold Math_max. destruct (Qle_bool 0 v) eqn:E.
  - apply Qle_bool_iff. exact E.
  - apply Qle_refl.
Qed.

Lemma Math_min_nonneg (a b : Q) : 0 <= a -> 0 <= b -> 0 <= Math_min a b.
Proof. intros Ha Hb. unfold Math_min. destruct (Qle_bool a b); assumption. Qed.

(** [updateSignalStrategy] writes the four signals and nothing else. *)
Lemma updateSignalStrategy_frame i s ns ew :
  exists n e so w, updateSignalStrategy i s ns ew = set_signals i n e so w.
Proof.
  unfold updateSignalStrategy, ns_green, ew_green.
  destruct s; match goal with |- context [if ?b then _ else _] => destruct b end;
    eauto.
Qed.

Lemma newIntersection_well_formed rnd x y k :
  (forall n, 0 <= rnd n) ->
  well_formed (newIntersection rnd x y k).1.
Proof.
  intros Hr. unfold well_formed, flows_nonneg, queues_nonneg.
  unfold newIntersection, Math_random, mbind, Rand_bind, mret, Rand_ret. cbn.
  pose proof (Hr k). pose proof (Hr (S k)).
  pose proof (Hr (S (S k))). pose proof (Hr (S (S (S k)))).
  repeat split; lra.
Qed.

Lemma mapR_Forall {A B} (P : B -> Prop) (f : A -> Rand B) (l : list A) :
  (forall a k, a ∈ l -> P (f a k).1) ->
  forall k, Forall P (mapR f l k).1.
Proof.
  induction l as [|a l IH]; intros Hf k; cbn; [constructor|].
  unfold mbind, Rand_bind.
  pose proof (Hf a k (list_elem_of_here _ _)) as Ha.
  destruct (f a k) as [b k1]. 
  specialize (IH (fun a' k' H' => Hf a' k' (list_elem_of_further _ _ _ H')) k1).
  destruct (mapR f l k1) as [bs k2]. cbn in *.
  constructor; assumption.
Qed.

Lemma initializeNetwork_well_formed rnd g k :
  (forall n, 0 <= rnd n) ->
  Forall well_formed (evalR (initializeNetwork rnd g) k).
Proof.
  intros Hr. unfold evalR, initializeNetwork, mbind, Rand_bind.
  pose proof (mapR_Forall (Forall well_formed)
    (fun x => mapR (fun y => newIntersection rnd x y) (seq 0 g)) (seq 0 g)) as H.
  specialize (H (fun x k' _ =>
    mapR_Forall well_formed (fun y => newIntersection rnd x y) (seq 0 g)
      (fun y k'' _ => newIntersection_well_formed rnd x y k'' Hr) k') k).
  destruct (mapR _ (seq 0 g) k) as [rows k']. cbn in *.
  apply Forall_concat. exact H.
Qed.

Lemma simulateIntersectionStep_well_formed rnd i config all cs k :
  (forall n, 0 <= rnd n) ->
  0 <= trafficIntensity config ->
  well_formed i ->
  well_formed (simulateIntersectionStep rnd i config all cs k).1.
Proof.
  intros Hr Ht Hwf.
  destruct i as [iid iname ix iy nf ef sf wf nq eq sq wq ns es ss ws tw tt ie].
  destruct Hwf as [(Hf1 & Hf2 & Hf3 & Hf4) _]. cbn in Hf1, Hf2, Hf3, Hf4.
  cbv beta iota zeta delta
    [simulateIntersectionStep Math_random mbind Rand_bind mret Rand_ret fst
     set_flows set_queues set_totalThroughput set_totalWaitingTime
     set_efficiency id name x y northFlow eastFlow southFlow westFlow
     northQueue eastQueue southQueue westQueue northSignal eastSignal
     southSignal westSignal totalWaitingTime totalThroughput efficiency].
  match goal with |- context [updateSignalStrategy ?a ?b ?c ?d] =>
    destruct (updateSignalStrategy_frame a b c d) as (n & e & so & w & ->) end.
  unfold well_formed, flows_nonneg, queues_nonneg. cbn.
  assert (Hm : forall r, 0 <= r -> 0 <= r * trafficIntensity config * 5).
  { intros r0 Hr0. apply Qmult_le_0_compat; [|lra].
    apply Qmult_le_0_compat; assumption. }
  pose proof (Hm _ (Hr k)). pose proof (Hm _ (Hr (S k))).
  pose proof (Hm _ (Hr (S (S k)))). pose proof (Hm _ (Hr (S (S (S k))))).
  repeat match goal with
         | |- context [Math_max 0 ?v] =>
             pose proof (Math_max_zero_nonneg v);
             generalize dependent (Math_max 0 v); intros
         end.
  repeat split; lra.
Qed.

(** ** What the flow-propagation pass reads and writes *)

Lemma same_frame_refl a : same_frame a a.
Proof. unfold same_frame. repeat split. Qed.

Lemma same_frame_trans a b c : same_frame a b -> same_frame b c -> same_frame a c.
Proof. unfold same_frame. intros H1 H2. intuition congruence. Qed.

Lemma queues_le_refl a : queues_le a a.
Proof. unfold queues_le. repeat split; apply Qle_refl. Qed.

Lemma queues_le_trans a b c : queues_le a b -> queues_le b c -> queues_le a c.
Proof. unfold queues_le. intros H1 H2. repeat split; lra. Qed.

Lemma addOpposite_frame d v i : same_frame i (addOpposite d v i).
Proof. destruct d; unfold same_frame; cbn; repeat split. Qed.

Lemma addOpposite_le d v i : 0 <= v -> queues_le i (addOpposite d v i).
Proof. intros Hv. destruct d; unfold queues_le; cbn; repeat split; lra. Qed.

Lemma addOpposite_nonneg d v i :
  0 <= v -> queues_nonneg i -> queues_nonneg (addOpposite d v i).
Proof.
  intros Hv (? & ? & ? & ?).
  destruct d; unfold queues_nonneg; cbn; repeat split; lra.
Qed.

Lemma addOpposite_total d v i :
  queueTotal (addOpposite d v i) == queueTotal i + v.
Proof. destruct d; unfold queueTotal; cbn; lra. Qed.

Lemma networkQueued_alter d v j st :
  (j < length st)%nat ->
  networkQueued (alter (addOpposite d v) j st) == networkQueued st + v.
Proof.
  revert j. induction st as [|a st IH]; intros j Hj; cbn in Hj; [lia|].
  destruct j as [|j]; cbn.
  - rewrite addOpposite_total. fold (networkQueued st). lra.
  - fold (networkQueued st).
    fold (networkQueued (alter (addOpposite d v) j st)).
    rewrite IH by lia. lra.
Qed.

Lemma alter_out_of_range {A} (f : A -> A) (j : nat) (l : list A) :
  (length l <= j)%nat -> alter f j l = l.
Proof.
  revert j. induction l as [|a l IH]; intros j Hj; [reflexivity|].
  destruct j as [|j]; cbn in *; [lia|]. f_equal. apply IH. lia.
Qed.

Lemma sourceQueue_nonneg d i : queues_nonneg i -> 0 <= sourceQueue d i.
Proof. intros (? & ? & ? & ?). destruct d; assumption. Qed.

Lemma flowAmountOf_nonneg c i :
  0 <= flowInfluence c -> queues_nonneg i -> 0 <= flowAmountOf c i.
Proof.
  intros Hc Hq. unfold flowAmountOf. apply Math_min_nonneg; [|lra].
  apply Qmult_le_0_compat; [apply sourceQueue_nonneg|]; assumption.
Qed.

Lemma propagate_step m st c :
  0 <= flowInfluence c ->
  Forall queues_nonneg st ->
  Forall queues_nonneg (propagate m st c)
  /\ Forall2 queues_le st (propagate m st c)
  /\ 0 <= propagated m st c
  /\ networkQueued (propagate m st c) == networkQueued st + propagated m st c.
Proof.
  intros Hc Hwf.
  assert (Hid : Forall queues_nonneg st /\ Forall2 queues_le st st
                /\ 0 <= 0 /\ networkQueued st == networkQueued st + 0).
  { repeat split; [assumption| |lra|lra].
    apply Forall_Forall2_diag, Forall_forall. intros. apply queues_le_refl. }
  unfold propagate, propagated.
  destruct (m !! from c) as [i|]; [|exact Hid].
  destruct (m !! to c) as [j|]; [|exact Hid].
  destruct (st !! i) as [src|] eqn:Hi; [|exact Hid].
  case_bool_decide; [|exact Hid].
  pose proof (Forall_lookup_1 _ _ _ _ Hwf Hi) as Hsrc.
  pose proof (flowAmountOf_nonneg c src Hc Hsrc) as Hv.
  split; [|split; [|split]].
  - apply Forall_alter; [assumption|].
    intros a _ Ha. apply addOpposite_nonneg; assumption.
  - apply Forall2_alter_r.
    + apply Forall_Forall2_diag, Forall_forall. intros. apply queues_le_refl.
    + intros a b Ha Hb _. assert (a = b) as -> by congruence.
      apply addOpposite_le. assumption.
  - case_bool_decide; [assumption|lra].
  - case_bool_decide as Hj.
    + apply networkQueued_alter. assumption.
    + rewrite alter_out_of_range by lia. lra.
Qed.

Lemma propagate_frame m st c : Forall2 same_frame st (propagate m st c).
Proof.
  assert (Hid : Forall2 same_frame st st).
  { apply Forall_Forall2_diag, Forall_forall. intros. apply same_frame_refl. }
  unfold propagate.
  destruct (m !! from c) as [i|]; [|exact Hid].
  destruct (m !! to c) as [j|]; [|exact Hid].
  destruct (st !! i) as [src|]; [|exact Hid].
  case_bool_decide; [|exact Hid].
  apply Forall2_alter_r; [exact Hid|].
  intros a b Ha Hb _. assert (a = b) as -> by congruence.
  apply addOpposite_frame.
Qed.

Lemma Forall2_rel_trans {A} (R : A -> A -> Prop) (l1 l2 l3 : list A) :
  (forall a b c, R a b -> R b c -> R a c) ->
  Forall2 R l1 l2 -> Forall2 R l2 l3 -> Forall2 R l1 l3.
Proof.
  intros HR H12. revert l3.
  induction H12; intros l3 H23; inversion H23; subst; constructor; eauto.
Qed.

Lemma foldl_propagate m cs :
  Forall (fun c => 0 <= flowInfluence c) cs ->
  forall st,
  Forall queues_nonneg st ->
  Forall queues_nonneg (foldl (propagate m) st cs)
  /\ Forall2 queues_le st (foldl (propagate m) st cs)
  /\ 0 <= propagatedTotal m st cs
  /\ networkQueued (foldl (propagate m) st cs)
     == networkQueued st + propagatedTotal m st cs.
Proof.
  induction 1 as [|c cs Hc Hcs IH]; intros st Hwf;
    cbn [foldl propagatedTotal].
  - split; [assumption|]. split; [|split; lra].
    apply Forall_Forall2_diag, Forall_forall. intros. apply queues_le_refl.
  - destruct (propagate_step m st c Hc Hwf) as (Hwf1 & Hle1 & Hp1 & Ht1).
    destruct (IH _ Hwf1) as (Hwf2 & Hle2 & Hp2 & Ht2).
    split; [assumption|]. split; [|split; lra].
    eapply Forall2_rel_trans; [apply queues_le_trans| |]; eassumption.
Qed.

Lemma foldl_propagate_frame m cs st :
  Forall2 same_frame st (foldl (propagate m) st cs).
Proof.
  revert st. induction cs as [|c cs IH]; intros st; cbn [foldl].
  - apply Forall_Forall2_diag, Forall_forall. intros. apply same_frame_refl.
  - eapply Forall2_rel_trans; [apply same_frame_trans| |apply IH].
    apply propagate_frame.
Qed.

Lemma createNetworkConnections_flowInfluence g :
  Forall (fun c => flowInfluence c = 0.3) (createNetworkConnections g).
Proof.
  apply Forall_forall. intros c Hc. apply list_elem_of_In in Hc.
  unfold createNetworkConnections in Hc.
  apply in_flat_map in Hc as (x & _ & Hc).
  apply in_flat_map in Hc as (y & _ & Hc).
  unfold cellConnections in Hc.
  repeat case_bool_decide; cbn in Hc; intuition subst; reflexivity.
Qed.

Lemma networkQueued_nonneg st : Forall queues_nonneg st -> 0 <= networkQueued st.
Proof.
  induction 1 as [|a st (? & ? & ? & ?) _ IH]; cbn; [lra|].
  fold (networkQueued st). unfold queueTotal. lra.
Qed.

(** The [reduce] that computes [totalVehicles] adds up the same queues. *)
Lemma totalVehicles_fold st acc :
  foldl (fun sum i =>
           sum + northQueue i + eastQueue i + southQueue i + westQueue i)
        acc st
  == acc + networkQueued st.
Proof.
  revert acc. induction st as [|a st IH]; intros acc; cbn; [lra|].
  rewrite IH. fold (networkQueued st). unfold queueTotal. lra.
Qed.

Lemma simulateNetworkStep_ok rnd state config conns k :
  (forall n, 0 <= rnd n) ->
  0 <= trafficIntensity config ->
  Forall (fun c => 0 <= flowInfluence c) conns ->
  Forall well_formed (intersections state) ->
  state_ok (simulateNetworkStep rnd state config conns k).1.
Proof.
  intros Hr Ht Hc Hwf.
  unfold simulateNetworkStep, mbind, Rand_bind, mret, Rand_ret.
  pose proof (mapR_Forall well_formed
                (fun i => simulateIntersectionStep rnd i config
                            (intersections state) conns)
                (intersections state)) as Hstep.
  specialize (Hstep (fun a k' Ha =>
    simulateIntersectionStep_well_formed rnd a config _ conns k' Hr Ht
      (proj1 (Forall_forall _ _) Hwf a Ha)) k).
  destruct (mapR _ (intersections state) k) as [stepped k']. cbn [fst] in *.
  assert (Hq : Forall queues_nonneg stepped).
  { eapply Forall_impl; [exact Hstep|]. intros i [_ H]. exact H. }
  destruct (foldl_propagate (intersectionMap stepped) conns Hc stepped Hq)
    as (Hq' & _ & _ & _).
  pose proof (foldl_propagate_frame (intersectionMap stepped) conns stepped)
    as Hfr.
  split; cbn.
  - unfold applyNetworkFlowInfluence.
    apply Forall_lookup_2. intros n i' Hn.
    destruct (Forall2_lookup_r _ _ _ _ _ Hfr Hn) as (i & Hi & Hsame).
    split; [|exact (Forall_lookup_1 _ _ _ _ Hq' Hn)].
    destruct (Forall_lookup_1 _ _ _ _ Hstep Hi) as [(? & ? & ? & ?) _].
    unfold same_frame in Hsame. unfold flows_nonneg.
    destruct Hsame as (_ & _ & _ & _ & <- & <- & <- & <- & _).
    repeat split; assumption.
  - rewrite totalVehicles_fold.
    pose proof (networkQueued_nonneg _ Hq').
    unfold applyNetworkFlowInfluence. lra.
Qed.

Lemma simulateLoop_ok rnd config conns n :
  (forall n, 0 <= rnd n) ->
  0 <= trafficIntensity config ->
  Forall (fun c => 0 <= flowInfluence c) conns ->
  forall state k,
  Forall well_formed (intersections state) ->
  Forall state_ok (simulateLoop rnd n state config conns k).1.
Proof.
  intros Hr Ht Hc.
  induction n as [|n IH]; intros state k Hwf; cbn; [constructor|].
  unfold mbind, Rand_bind, mret, Rand_ret.
  pose proof (simulateNetworkStep_ok rnd state config conns k Hr Ht Hc Hwf)
    as Hok.
  destruct (simulateNetworkStep rnd state config conns k) as [state' k'].
  specialize (IH state' k' (proj1 Hok)).
  destruct (simulateLoop rnd n state' config conns k') as [rest k''].
  cbn in *. constructor; assumption.
Qed.

(** C2: in the grid-network simulator, for every grid size (so for 2, 3
    and 4), every traffic intensity in [[0,1]], every strategy and every
    number of ticks, with [Math.random] returning values in [[0,1)], each of
    the four directional queue lengths of every intersection is non-negative
    in every state of the run (the initialised network and every state
    [simulateNetworkStep] produces from it), and [totalVehicles] is never
    negative. *)
Theorem queues_never_negative (rnd : nat -> Q) (config : SimulationConfig)
    (k : nat) (s : NetworkState) :
  (forall n, 0 <= rnd n /\ rnd n < 1) ->
  0 <= trafficIntensity config /\ trafficIntensity config <= 1 ->
  s ∈ evalR (runNetworkSimulation rnd config) k ->
  Forall queues_nonneg (intersections s) /\ 0 <= totalVehicles s.
Proof.
  intros Hr [Ht _] Hs.
  assert (Hr0 : forall n, 0 <= rnd n) by (intros n; apply Hr).
  assert (Hok : Forall state_ok (evalR (runNetworkSimulation rnd config) k)).
  { unfold evalR, runNetworkSimulation, mbind, Rand_bind, mret, Rand_ret.
    pose proof (initializeNetwork_well_formed rnd (gridSize config) k Hr0)
      as Hinit.
    unfold evalR in Hinit.
    destruct (initializeNetwork rnd (gridSize config) k) as [init k0].
    cbn [fst] in Hinit.
    pose proof (simulateLoop_ok rnd config
                  (createNetworkConnections (gridSize config))
                  (simulationTime config) Hr0 Ht) as Hloop.
    assert (Hinfl : Forall (fun c => 0 <= flowInfluence c)
                      (createNetworkConnections (gridSize config))).
    { eapply Forall_impl; [apply createNetworkConnections_flowInfluence|].
      intros c Hc. cbn beta in Hc. rewrite Hc. lra. }
    specialize (Hloop Hinfl).
    specialize (Hloop (mkNetwork init
                         (createNetworkConnections (gridSize config)) 0 0 0 0)
                      k0 Hinit).
    destruct (simulateLoop _ _ _ _ _ k0) as [history k1]. cbn [fst] in *.
    constructor; [|exact Hloop].
    split; [exact Hinit|]. cbn. lra. }
  destruct (proj1 (Forall_forall _ _) Hok s Hs) as [Hwf Hv].
  split; [|exact Hv].
  eapply Forall_impl; [exact Hwf|]. intros i [_ Hq]. exact Hq.
Qed.

Lemma queues_never_negative_witness :
  let s0 := mkNetwork (evalR (initializeNetwork halfDraws 2) 0)
              (createNetworkConnections 2) 0 0 0 0 in
  let s1 := evalR (simulateNetworkStep halfDraws s0 fixedTimeRun
                     (createNetworkConnections 2)) 16 in
  Forall queues_nonneg (intersections s1) /\ 0 <= totalVehicles s1.
Proof.
  intros s0 s1.
  apply (queues_never_negative halfDraws fixedTimeRun 0 s1).
  - intros n. unfold halfDraws. split; lra.
  - cbn. split; lra.
  - vm_compute. apply list_elem_of_further, list_elem_of_here.
Defined.

Lemma sourceSignal_frame d a b :
  same_frame a b -> sourceSignal d a = sourceSignal d b.
Proof.
  unfold same_frame. intros H. destruct d; cbn; intuition congruence.
Qed.

(** C10, as the code has it: on intersections whose queues are
    non-negative and connections whose coefficient is 0.3 (what
    [createNetworkConnections] builds), the flow-propagation pass processes
    the connections in order; a connection that is live when its turn comes
    adds [min (0.3 * q, 5)] to the opposite-direction queue of its
    destination, [q] being the source's queue in the connection's direction
    as the earlier connections of the pass have left it, and a connection
    that is not live changes nothing.  Nothing is subtracted from a source:
    no queue of any intersection decreases, and identifiers, positions,
    flow rates, signals, [totalWaitingTime], [totalThroughput] and
    [efficiency] are unchanged.  The pass does not conserve vehicles: what
    a destination receives stays in the source as well, so the number of
    queued vehicles never decreases. *)
Theorem applyNetworkFlowInfluence_only_adds
    (st : list IntersectionState) (cs : list NetworkConnection) :
  Forall queues_nonneg st ->
  Forall (fun c => flowInfluence c = 0.3) cs ->
  let m := intersectionMap st in
  let st' := applyNetworkFlowInfluence st cs in
  st' = foldl (propagate m) st cs
  /\ (forall cur c i j src,
        c ∈ cs -> live m cur c i j src ->
        propagate m cur c
        = alter (addOpposite (direction c)
                   (Math_min (sourceQueue (direction c) src * 0.3) 5)) j cur)
  /\ (forall cur c,
        (forall i j src, ~ live m cur c i j src) -> propagate m cur c = cur)
  /\ Forall2 same_frame st st'
  /\ Forall2 queues_le st st'
  /\ networkQueued st <= networkQueued st'.
Proof.
  intros Hnn Hcs m st'.
  assert (Hcs0 : Forall (fun c => 0 <= flowInfluence c) cs).
  { eapply Forall_impl; [exact Hcs|]. intros c Hc. cbn beta in Hc.
    rewrite Hc. lra. }
  destruct (foldl_propagate m cs Hcs0 st Hnn) as (_ & Hle & Hp & Ht).
  split; [reflexivity|]. split; [|split; [|split; [|split]]].
  - intros cur c i j src Hin (Hfrom & Hto & Hsrc & Hgreen).
    unfold propagate. rewrite Hfrom, Hto, Hsrc, Hgreen.
    rewrite bool_decide_eq_true_2 by reflexivity.
    unfold flowAmountOf.
    rewrite (proj1 (Forall_forall _ _) Hcs c Hin). reflexivity.
  - intros cur c Hdead. unfold propagate.
    destruct (m !! from c) as [i|] eqn:Hfrom; [|reflexivity].
    destruct (m !! to c) as [j|] eqn:Hto; [|reflexivity].
    destruct (cur !! i) as [src|] eqn:Hsrc; [|reflexivity].
    case_bool_decide as Hgreen; [|reflexivity].
    exfalso. apply (Hdead i j src). repeat split; assumption.
  - apply foldl_propagate_frame.
  - exact Hle.
  - unfold st', applyNetworkFlowInfluence. fold m. lra.
Qed.

Lemma applyNetworkFlowInfluence_only_adds_witness :
  Forall2 queues_le tenQueuedGrid
    (applyNetworkFlowInfluence tenQueuedGrid (createNetworkConnections 2))
  /\ networkQueued tenQueuedGrid
     <= networkQueued
          (applyNetworkFlowInfluence tenQueuedGrid
             (createNetworkConnections 2)).
Proof.
  destruct (applyNetworkFlowInfluence_only_adds tenQueuedGrid
              (createNetworkConnections 2))
    as (_ & _ & _ & _ & Hle & Htotal).
  - repeat (constructor;
            [unfold queues_nonneg; cbn; repeat split; lra|]).
    constructor.
  - apply createNetworkConnections_flowInfluence.
  - split; assumption.
Defined.

(** C10, as stated, fails.  On an intersection list with a negative queue
    the pass lowers the neighbour's queue, here from 0 to -3.  On the
    network [tenQueuedGrid], where every queue holds 10, the east queue of
    intersection (0,0) receives 3.9 = 0.3 * 13 from the west queue of
    (1,0), which the pass has raised to 13 before it reads it, not
    3 = 0.3 * 10.  And the increase is not strict in the code's binary64
    arithmetic: from a green source queue of 20 * 2^-53 the amount is
    positive, but a destination queue of 10 that receives it is still
    10. *)
Lemma flow_influence_lowers_a_queue :
  (map southQueue [negativeSource; quietNeighbour] = [0; 0]
   /\ Forall (fun q => q == -3)
        (map southQueue
           (drop 1 (applyNetworkFlowInfluence
                      [negativeSource; quietNeighbour] [negativeLink])))
   /\ ~ Forall2 queues_le [negativeSource; quietNeighbour]
          (applyNetworkFlowInfluence [negativeSource; quietNeighbour]
             [negativeLink]))
  /\ (map eastQueue tenQueuedGrid = [10; 10; 10; 10]
      /\ map westQueue tenQueuedGrid = [10; 10; 10; 10]
      /\ Forall2 Qeq
           (map eastQueue
              (applyNetworkFlowInfluence tenQueuedGrid
                 (createNetworkConnections 2)))
           [13.9; 13.9; 10; 10])
  /\ (PrimFloat.ltb 0 0x1.4p-49 = true
      /\ PrimFloat.ltb 0 (NetworkBinary64.flowAmount 0x1.4p-49 0.3) = true
      /\ NetworkBinary64.receive 10 0x1.4p-49 0.3 = 10%float).
Proof.
  split; [split; [reflexivity|split]|split].
  - vm_compute. repeat constructor.
  - intros H. apply Forall2_cons_1 in H as [_ H].
    apply Forall2_cons_1 in H as [(_ & _ & H & _) _].
    vm_compute in H. apply H. reflexivity.
  - split; [reflexivity|]. split; [reflexivity|].
    vm_compute. repeat constructor.
  - split; [reflexivity|]. split; [reflexivity|]. reflexivity.
Qed.

(** C4: what the code does under "fixed-time".  The green axis is computed
    from the intersection's accumulated [totalWaitingTime]
    ([floor (totalWaitingTime / 30)] even: north-south, odd: east-west);
    the tick count is not an input of [updateSignalStrategy].  In the run
    [fixedTimeRun] the first intersection turns to north-south at tick 2
    and back to east-west at tick 6, and at ticks 5 and 7 intersections of
    the same network show different axes. *)
Theorem fixed_time_follows_waiting_time :
  (forall i ns ew,
      updateSignalStrategy i fixed_time ns ew
      = if (Z.rem (Math_floor (totalWaitingTime i / 30)) 2 =? 0)%Z
        then ns_green i else ew_green i)
  /\ (forall i,
       greenAxis (updateSignalStrategy (set_totalWaitingTime i 0)
                    fixed_time 0 0) = NorthSouth
       /\ greenAxis (updateSignalStrategy (set_totalWaitingTime i 30)
                       fixed_time 0 0) = EastWest)
  /\ map (fun s => (time s, map greenAxis (intersections s)))
         (evalR (runNetworkSimulation halfDraws fixedTimeRun) 0)
     = [ (0, [EastWest; EastWest; EastWest; EastWest]);
         (1, [EastWest; EastWest; EastWest; EastWest]);
         (2, [NorthSouth; NorthSouth; NorthSouth; NorthSouth]);
         (3, [NorthSouth; NorthSouth; NorthSouth; NorthSouth]);
         (4, [NorthSouth; NorthSouth; NorthSouth; NorthSouth]);
         (5, [NorthSouth; NorthSouth; EastWest; EastWest]);
         (6, [EastWest; EastWest; EastWest; EastWest]);
         (7, [EastWest; EastWest; NorthSouth; NorthSouth]);
         (8, [EastWest; EastWest; EastWest; EastWest]) ]%nat.
Proof.
  split; [|split].
  - intros i ns ew. reflexivity.
  - intros i. split; reflexivity.
  - vm_compute. reflexivity.
Qed.

End NetworkProps.

(** * Binary64 arithmetic at the special values *)

Module FloatFacts.

Import JS.
Local Open Scope float_scope.

Lemma Prim2SF_inj x y : Prim2SF x = Prim2SF y -> x = y.
Proof.
  intros E. rewrite <- (SF2Prim_Prim2SF x), <- (SF2Prim_Prim2SF y), E.
  reflexivity.
Qed.

(** [zeroOrNaN] read on the specification side. *)
Lemma zeroOrNaN_spec v :
  zeroOrNaN v <->
  match Prim2SF v with S754_zero _ | S754_nan => True | _ => False end.
Proof.
  split.
  - intros [->|[->| ->]]; exact I.
  - destruct (Prim2SF v) as [[|]| | |] eqn:E; intros Hv; try contradiction.
    + right; left. apply Prim2SF_inj. rewrite E. reflexivity.
    + left. apply Prim2SF_inj. rewrite E. reflexivity.
    + right; right. apply Prim2SF_inj. rewrite E. reflexivity.
Qed.

Lemma sub_self x : x - x = 0 \/ x - x = nan.
Proof.
  assert (H : Prim2SF (x - x) = S754_zero false \/ Prim2SF (x - x) = S754_nan).
  { rewrite FloatAxioms.sub_spec. unfold SF64sub, SFsub.
    destruct (Prim2SF x) as [[|]|[|]| |s m e]; auto.
    left. rewrite Z.sub_diag. reflexivity. }
  destruct H as [H|H]; [left|right]; apply Prim2SF_inj; rewrite H; reflexivity.
Qed.

Lemma div_zeroOrNaN u y : zeroOrNaN u -> zeroOrNaN (u / y).
Proof.
  intros Hu. apply zeroOrNaN_spec. apply zeroOrNaN_spec in Hu.
  rewrite FloatAxioms.div_spec. unfold SF64div, SFdiv.
  destruct (Prim2SF u) as [su|su| |su mu eu]; try contradiction;
    destruct (Prim2SF y) as [sy|sy| |sy my ey]; exact I.
Qed.

Lemma abs_zeroOrNaN u : zeroOrNaN u -> abs u = 0 \/ abs u = nan.
Proof. intros [->|[->| ->]]; auto. Qed.

Lemma mul_zero_r a : zeroOrNaN (a * 0).
Proof.
  apply zeroOrNaN_spec. rewrite FloatAxioms.mul_spec. unfold SF64mul, SFmul.
  change (Prim2SF 0) with (S754_zero false).
  destruct (Prim2SF a) as [s|s| |s m e]; exact I.
Qed.

Lemma mul_nan_r a : a * nan = nan.
Proof.
  apply Prim2SF_inj. rewrite FloatAxioms.mul_spec. unfold SF64mul, SFmul.
  change (Prim2SF nan) with S754_nan.
  destruct (Prim2SF a) as [s|s| |s m e]; reflexivity.
Qed.

Lemma add_nan_r a : a + nan = nan.
Proof.
  apply Prim2SF_inj. rewrite FloatAxioms.add_spec. unfold SF64add, SFadd.
  change (Prim2SF nan) with S754_nan.
  destruct (Prim2SF a) as [s|s| |s m e]; reflexivity.
Qed.

Lemma div_nan_r a : a / nan = nan.
Proof.
  apply Prim2SF_inj. rewrite FloatAxioms.div_spec. unfold SF64div, SFdiv.
  change (Prim2SF nan) with S754_nan.
  destruct (Prim2SF a) as [s|s| |s m e]; reflexivity.
Qed.

Lemma div_nan_l a : nan / a = nan.
Proof.
  apply Prim2SF_inj. rewrite FloatAxioms.div_spec. unfold SF64div, SFdiv.
  change (Prim2SF nan) with S754_nan. reflexivity.
Qed.

Lemma mul_pos_neg_infinity b :
  (0 <? b) = true -> b * neg_infinity = neg_infinity.
Proof.
  intros Hb. rewrite FloatAxioms.ltb_spec in Hb. unfold SFltb, SFcompare in Hb.
  change (Prim2SF 0) with (S754_zero false) in Hb.
  apply Prim2SF_inj. rewrite FloatAxioms.mul_spec. unfold SF64mul, SFmul.
  change (Prim2SF neg_infinity) with (S754_infinity true).
  destruct (Prim2SF b) as [s|[|]| |[|] m e]; try discriminate; reflexivity.
Qed.

Lemma add_neg_infinity u :
  zeroOrNaN u -> u + neg_infinity = neg_infinity \/ u + neg_infinity = nan.
Proof. intros [->|[->| ->]]; auto. Qed.

Lemma div_eucl_shift (m : positive) :
  Z.div_eucl (Z.shiftl (Zpos m) 53) (Zpos m) = (2 ^ 53, 0)%Z.
Proof.
  rewrite Z.shiftl_mul_pow2 by lia.
  destruct (Z.div_eucl (Zpos m * 2 ^ 53) (Zpos m)) as [q r] eqn:E.
  assert (Hq : q = (Zpos m * 2 ^ 53 / Zpos m)%Z)
    by (unfold Z.div; rewrite E; reflexivity).
  assert (Hr : r = ((Zpos m * 2 ^ 53) mod Zpos m)%Z)
    by (unfold Z.modulo; rewrite E; reflexivity).
  rewrite Z.mul_comm in Hq, Hr.
  rewrite Z.div_mul in Hq by lia. rewrite Z.mod_mul in Hr by lia.
  subst. reflexivity.
Qed.

(** A finite number that is not zero divided by itself is exactly 1. *)
Lemma div_self_finite x s m e : Prim2SF x = S754_finite s m e -> x / x = 1.
Proof.
  intros E. apply Prim2SF_inj. rewrite FloatAxioms.div_spec, E.
  unfold SF64div, SFdiv, SFdiv_core_binary.
  rewrite !Z.sub_diag.
  change (Z.min (fexp prec emax 0) 0) with (-53)%Z.
  change (0 - -53)%Z with 53%Z. cbv iota beta.
  rewrite div_eucl_shift.
  assert (Hloc : new_location (Zpos m) 0 = loc_Exact).
  { unfold new_location. destruct (Z.even (Zpos m)); reflexivity. }
  rewrite Hloc. destruct s; vm_compute; reflexivity.
Qed.

(** The argument [x = df / (df + t * t)] of [tCDF] at [t = 0]: 1 when
    [df] is finite and not zero, [NaN] otherwise. *)
Lemma ratio_at_zero d : d / (d + 0) = 1 \/ d / (d + 0) = nan.
Proof.
  destruct (Prim2SF d) as [s|s| |s m e] eqn:E.
  - right. apply Prim2SF_inj.
    rewrite FloatAxioms.div_spec, FloatAxioms.add_spec, E.
    destruct s; reflexivity.
  - right. apply Prim2SF_inj.
    rewrite FloatAxioms.div_spec, FloatAxioms.add_spec, E.
    destruct s; reflexivity.
  - right. apply Prim2SF_inj.
    rewrite FloatAxioms.div_spec, FloatAxioms.add_spec, E. reflexivity.
  - left. assert (Hd : d + 0 = d).
    { apply Prim2SF_inj. rewrite FloatAxioms.add_spec, E. reflexivity. }
    rewrite Hd. exact (div_self_finite d s m e E).
Qed.

Lemma neg_infinity_add w :
  zeroOrNaN w -> neg_infinity + w = neg_infinity \/ neg_infinity + w = nan.
Proof. intros [->|[->| ->]]; auto. Qed.

End FloatFacts.

(** * Properties of the statistics code *)

Module StatsProps.

Import JS FloatFacts.
Local Open Scope float_scope.

(** Evaluate the closed argument(s) of [f] in the goal. *)
Ltac eval_arg f :=
  match goal with
  | |- context [f ?a] =>
      let a' := eval vm_compute in a in change (f a) with (f a')
  end.

Ltac eval_args f :=
  match goal with
  | |- context [f ?a ?b] =>
      let a' := eval vm_compute in a in
      let b' := eval vm_compute in b in
      change (f a b) with (f a' b')
  end.

Lemma referenceHost_Ecma : Ecma referenceHost.
Proof. split; vm_compute; reflexivity. Qed.

(** ** The two Welch tests on identical samples *)

Section Host.

Context (H : HostMath) (E : Ecma H).

Lemma incompleteBeta_nan a b : Stats.incompleteBeta nan a b = nan.
Proof using E.
  unfold Stats.incompleteBeta.
  change ((nan <? 0) || (1 <? nan)) with false. cbv iota zeta.
  change (1 - nan) with nan.
  rewrite (log_nan _ E), !mul_nan_r. change (nan + nan) with nan.
  rewrite (exp_nan _ E), !div_nan_l. reflexivity.
Qed.

Lemma incompleteBeta_one a b :
  (0 <? b) = true -> zeroOrNaN (Stats.incompleteBeta 1 a b).
Proof using E.
  intros Hb. unfold Stats.incompleteBeta.
  change ((1 <? 0) || (1 <? 1)) with false. cbv iota zeta.
  change (1 - 1) with 0.
  rewrite (log_one _ E), (log_zero _ E), (mul_pos_neg_infinity b Hb).
  apply div_zeroOrNaN, div_zeroOrNaN.
  destruct (add_neg_infinity _ (mul_zero_r a)) as [-> | ->].
  - left. exact (exp_neg_infinity _ E).
  - right; right. exact (exp_nan _ E).
Qed.

Lemma incompleteBeta_zero a b :
  (0 <? a) = true -> zeroOrNaN (Stats.incompleteBeta 0 a b).
Proof using E.
  intros Ha. unfold Stats.incompleteBeta.
  change ((0 <? 0) || (1 <? 0)) with false. cbv iota zeta.
  change (1 - 0) with 1.
  rewrite (log_one _ E), (log_zero _ E), (mul_pos_neg_infinity a Ha).
  apply div_zeroOrNaN, div_zeroOrNaN.
  destruct (neg_infinity_add _ (mul_zero_r b)) as [-> | ->].
  - left. exact (exp_neg_infinity _ E).
  - right; right. exact (exp_nan _ E).
Qed.

Lemma tCDF_at_zero df : zeroOrNaN (Stats.tCDF 0 df).
Proof using E.
  unfold Stats.tCDF. cbv zeta. change (0 * 0) with 0.
  apply div_zeroOrNaN.
  destruct (ratio_at_zero df) as [-> | ->].
  - apply incompleteBeta_one. reflexivity.
  - rewrite incompleteBeta_nan. right; right. reflexivity.
Qed.

Lemma tCDF_at_nan df : Stats.tCDF nan df = nan.
Proof using E.
  unfold Stats.tCDF. cbv zeta. change (nan * nan) with nan.
  rewrite add_nan_r, div_nan_r, incompleteBeta_nan. reflexivity.
Qed.

Lemma two_tailed v : zeroOrNaN v -> 2 * (1 - v) = 2 \/ 2 * (1 - v) = nan.
Proof. intros [->|[->| ->]]; auto. Qed.

(** Whatever the sample, the Welch test of [statisticalAnalysis.ts] on two
    copies of it returns a statistic that is zero or [NaN] and a p-value
    that is 2 or [NaN]. *)
Lemma independentTTest_identical data confidenceLevel :
  let r := Stats.independentTTest data data confidenceLevel in
  zeroOrNaN (Stats.testStatistic r)
  /\ (Stats.pValue r = 2 \/ Stats.pValue r = nan).
Proof using E.
  unfold Stats.independentTTest. cbv zeta.
  cbn [Stats.testStatistic Stats.pValue].
  match goal with
  | |- context [Stats.tCDF (Math_abs ((?m - ?m) / ?se)) ?D] =>
      generalize se; generalize D; generalize m
  end.
  intros m D se.
  assert (Ht : zeroOrNaN ((m - m) / se)).
  { apply div_zeroOrNaN. destruct (sub_self m) as [-> | ->].
    - left; reflexivity.
    - right; right; reflexivity. }
  split; [exact Ht|].
  unfold Math_abs. destruct (abs_zeroOrNaN _ Ht) as [-> | ->].
  - apply two_tailed, tCDF_at_zero.
  - rewrite tCDF_at_nan. right. reflexivity.
Qed.

Lemma tanh_zeroOrNaN w : zeroOrNaN w -> zeroOrNaN (Math_tanh w).
Proof using E.
  intros [->|[->| ->]].
  - left. exact (tanh_zero _ E).
  - right; left. exact (tanh_neg_zero _ E).
  - right; right. exact (tanh_nan _ E).
Qed.

Lemma erf_zero : HypothesisTests.erf 0 = 0x1.12e0bep-30.
Proof using E.
  unfold HypothesisTests.erf. cbv zeta.
  change (- Math_abs 0 * Math_abs 0) with neg_zero.
  rewrite (exp_neg_zero _ E). reflexivity.
Qed.

Lemma erf_nan : HypothesisTests.erf nan = nan.
Proof using E.
  unfold HypothesisTests.erf. cbv zeta.
  change (- Math_abs nan * Math_abs nan) with nan.
  rewrite (exp_nan _ E). reflexivity.
Qed.

(** The rounded p-value [Math.round (p * 10000) / 10000] that
    [performTTest] reports when the statistic [t] is zero or [NaN]. *)
Lemma tDistribution_p_value t df :
  t = 0 \/ t = nan ->
  let p := 2 * (1 - HypothesisTests.tDistributionCDF t df) in
  Math_round (p * 10000) / 10000 = 1 \/ Math_round (p * 10000) / 10000 = nan.
Proof using E.
  intros Ht. cbv zeta. unfold HypothesisTests.tDistributionCDF. cbv zeta.
  destruct (30 <? df).
  - destruct Ht as [-> | ->].
    + change (Math_abs 0 / Math_sqrt 2) with 0. rewrite erf_zero.
      left. vm_compute. reflexivity.
    + change (Math_abs nan / Math_sqrt 2) with nan. rewrite erf_nan.
      right. vm_compute. reflexivity.
  - assert (Hw : zeroOrNaN (Math_tanh (Math_abs t / Math_sqrt (df + 1)))).
    { apply tanh_zeroOrNaN, div_zeroOrNaN.
      destruct Ht as [-> | ->]; [left|right; right]; reflexivity. }
    destruct Hw as [-> |[-> | ->]]; [left|left|right]; vm_compute; reflexivity.
Qed.

(** Whatever the sample, the Welch test of [HypothesisTests.tsx] on two
    copies of it reports a statistic that is zero or [NaN] and a p-value
    that is 1 or [NaN]. *)
Lemma performTTest_identical data :
  let r := HypothesisTests.performTTest data data in
  zeroOrNaN (HypothesisTests.t_statistic r)
  /\ (HypothesisTests.p_value r = 1 \/ HypothesisTests.p_value r = nan).
Proof using E.
  unfold HypothesisTests.performTTest. cbv zeta.
  cbn [HypothesisTests.t_statistic HypothesisTests.p_value].
  match goal with
  | |- context [HypothesisTests.tDistributionCDF
                  (Math_abs ((?m - ?m) / ?se)) ?D] =>
      generalize se; generalize D; generalize m
  end.
  intros m D se.
  assert (Ht : zeroOrNaN ((m - m) / se)).
  { apply div_zeroOrNaN. destruct (sub_self m) as [-> | ->].
    - left; reflexivity.
    - right; right; reflexivity. }
  split.
  - destruct Ht as [-> |[-> | ->]]; [left|right; left|right; right];
      vm_compute; reflexivity.
  - apply tDistribution_p_value. unfold Math_abs.
    exact (abs_zeroOrNaN _ Ht).
Qed.

End Host.

(** C8: [calculateBasicStats] applied to the empty list returns the record
    whose eleven fields (mean, median, stdDev, variance, min, max, q1, q3,
    iqr, skewness, kurtosis) are all zero; the function is total, so nothing
    is raised. *)
Theorem calculateBasicStats_empty :
  let r := Stats.calculateBasicStats [] in
  Stats.mean r = 0 /\ Stats.median r = 0 /\ Stats.stdDev r = 0
  /\ Stats.variance r = 0 /\ Stats.min r = 0 /\ Stats.max r = 0
  /\ Stats.q1 r = 0 /\ Stats.q3 r = 0 /\ Stats.iqr r = 0
  /\ Stats.skewness r = 0 /\ Stats.kurtosis r = 0.
Proof. cbv zeta. repeat split; reflexivity. Qed.

(** C9 at the empty sample: for every confidence level,
    [calculateConfidenceInterval []] returns the mean 0 with a margin of
    error and both bounds [NaN] (0 / sqrt 0), so neither
    [lowerBound <= mean] nor [mean <= upperBound] holds.  On samples that
    are not empty, here 1, 2, 3 and the constant 5, 5, the bounds enclose
    the mean at the three listed levels and at an unlisted one. *)
Theorem calculateConfidenceInterval_empty (confidenceLevel : float) :
  (let r := Stats.calculateConfidenceInterval [] confidenceLevel in
   Stats.ci_mean r = 0
   /\ Stats.marginOfError r = NaN
   /\ Stats.lowerBound r = NaN
   /\ Stats.upperBound r = NaN
   /\ (Stats.lowerBound r <=? Stats.ci_mean r) = false
   /\ (Stats.ci_mean r <=? Stats.upperBound r) = false)
  /\ Forall (fun level =>
               Stats.encloses (Stats.calculateConfidenceInterval [1; 2; 3] level)
               = true
               /\ Stats.encloses (Stats.calculateConfidenceInterval [5; 5] level)
                  = true)
       [0.9; 0.95; 0.99; 0.5].
Proof.
  split.
  - cbv zeta.
    unfold Stats.calculateConfidenceInterval, Stats.getZScore.
    destruct (confidenceLevel =? 0.9);
      [|destruct (confidenceLevel =? 0.95);
        [|destruct (confidenceLevel =? 0.99)]];
      vm_compute; repeat split; reflexivity.
  - repeat constructor; vm_compute; reflexivity.
Qed.

(** The two tests on a sample that meets no [NaN]. *)
Lemma independentTTest_evaluated (H : HostMath) (confidenceLevel : float) :
  Ecma H ->
  Forall (fun sample =>
            let r := Stats.independentTTest sample sample confidenceLevel in
            Stats.testStatistic r = 0 /\ Stats.pValue r = 2)
    [[1; 2]; Stats.fortySamples].
Proof.
  intros E. destruct H as [hexp hlog htanh hcos].
  pose proof (log_one _ E) as L1. pose proof (log_zero _ E) as L0.
  pose proof (exp_neg_infinity _ E) as EN.
  vm_compute in L1, L0, EN.
  constructor; [|constructor; [|constructor]]; cbv zeta.
  - split; [vm_compute; reflexivity|].
    vm_compute. rewrite L1, L0. vm_compute. rewrite EN. vm_compute. reflexivity.
  - split; [vm_compute; reflexivity|].
    vm_compute. rewrite L1, L0. vm_compute. rewrite EN. vm_compute. reflexivity.
Qed.

Lemma performTTest_evaluated (H : HostMath) :
  Ecma H ->
  Forall (fun sample =>
            let r := HypothesisTests.performTTest sample sample in
            HypothesisTests.t_statistic r = 0
            /\ HypothesisTests.p_value r = 1)
    [[1; 2]; Stats.fortySamples].
Proof.
  intros E.
  pose proof (tanh_zero _ E) as T0. pose proof (exp_neg_zero _ E) as ENZ.
  constructor; [|constructor; [|constructor]]; cbv zeta.
  - split; [vm_compute; reflexivity|].
    unfold HypothesisTests.performTTest. cbv zeta.
    cbn [HypothesisTests.p_value].
    eval_args (@HypothesisTests.tDistributionCDF H).
    unfold HypothesisTests.tDistributionCDF. cbv zeta.
    replace (30 <? 2) with false by reflexivity.
    eval_arg (@Math_tanh H). rewrite T0. vm_compute. reflexivity.
  - split; [vm_compute; reflexivity|].
    unfold HypothesisTests.performTTest. cbv zeta.
    cbn [HypothesisTests.p_value].
    eval_args (@HypothesisTests.tDistributionCDF H).
    unfold HypothesisTests.tDistributionCDF, HypothesisTests.erf. cbv zeta.
    replace (30 <? 78) with true by reflexivity.
    eval_arg (@Math_exp H). unfold neg_zero in ENZ. rewrite ENZ.
    vm_compute. reflexivity.
Qed.

(** C1 on identical samples, for every host that meets ECMAScript's
    requirements at the special arguments and every sample vector [data].
    [independentTTest data data] returns a statistic that is zero (or
    [NaN]) and the p-value 2 (or [NaN]), never a p-value near 1: with
    [t = 0] its [tCDF] evaluates [incompleteBeta 1 (df / 2) 0.5], whose
    leading factor is [exp (a * log 1 + 0.5 * log 0) = exp (-oo) = 0].
    [performTTest data data] reports a statistic that is zero (or [NaN])
    and the p-value 1 (or [NaN]).  On the samples 1, 2 and 0, ..., 39 no
    [NaN] arises: the first test returns 0 and 2, the second 0 and 1. *)
Theorem welch_identical_samples (H : HostMath) (data : list float)
    (confidenceLevel : float) :
  Ecma H ->
  (let r := Stats.independentTTest data data confidenceLevel in
   zeroOrNaN (Stats.testStatistic r)
   /\ (Stats.pValue r = 2 \/ Stats.pValue r = NaN))
  /\ (let r := HypothesisTests.performTTest data data in
      zeroOrNaN (HypothesisTests.t_statistic r)
      /\ (HypothesisTests.p_value r = 1 \/ HypothesisTests.p_value r = NaN))
  /\ Forall (fun sample =>
               let r := Stats.independentTTest sample sample
                          confidenceLevel in
               Stats.testStatistic r = 0 /\ Stats.pValue r = 2)
       [[1; 2]; Stats.fortySamples]
  /\ Forall (fun sample =>
               let r := HypothesisTests.performTTest sample sample in
               HypothesisTests.t_statistic r = 0
               /\ HypothesisTests.p_value r = 1)
       [[1; 2]; Stats.fortySamples].
Proof.
  intros E.
  split; [exact (independentTTest_identical H E data confidenceLevel)|].
  split; [exact (performTTest_identical H E data)|].
  split; [exact (independentTTest_evaluated H confidenceLevel E)|].
  exact (performTTest_evaluated H E).
Qed.

Lemma welch_identical_samples_witness :
  let r := Stats.independentTTest (H := referenceHost) [3; 1; 4] [3; 1; 4]
             0.95 in
  Stats.pValue r = 2 \/ Stats.pValue r = NaN.
Proof.
  exact (proj2 (proj1 (welch_identical_samples referenceHost [3; 1; 4] 0.95
                         referenceHost_Ecma))).
Defined.

(** C5 on the code.  On every host that meets ECMAScript's requirements
    at the special arguments and for all positive shape parameters [a] and
    [b], [incompleteBeta] returns zero (or [NaN]) at both ends of [[0,1]],
    and it returns 1 above 1.  With the reference host and the shape
    parameters of [tCDF] at two degrees of freedom it returns about 0.4041
    at 0.5, 0.4615 at 0.75 and 0.3672 at 0.9, and exactly 0 at 1; with those
    of [fCDF] at 2 and 6 degrees of freedom it falls between 0.25 and 0.5:
    it is not monotone. *)
Theorem incompleteBeta_not_monotone (H : HostMath) (a b : float) :
  Ecma H ->
  (0 <? a) = true ->
  (0 <? b) = true ->
  zeroOrNaN (Stats.incompleteBeta 0 a b)
  /\ zeroOrNaN (Stats.incompleteBeta 1 a b)
  /\ Stats.incompleteBeta 1.5 a b = 1
  /\ Stats.incompleteBeta (H := referenceHost) 1 1 0.5 = 0
  /\ (0 <? Stats.incompleteBeta (H := referenceHost) 0.5 1 0.5) = true
  /\ (Stats.incompleteBeta (H := referenceHost) 0.9 1 0.5
      <? Stats.incompleteBeta (H := referenceHost) 0.75 1 0.5) = true
  /\ (Stats.incompleteBeta (H := referenceHost) 0.5 1 3
      <? Stats.incompleteBeta (H := referenceHost) 0.25 1 3) = true.
Proof.
  intros E Ha Hb.
  split; [exact (incompleteBeta_zero H E a b Ha)|].
  split; [exact (incompleteBeta_one H E a b Hb)|].
  repeat split; vm_compute; reflexivity.
Qed.

Lemma incompleteBeta_not_monotone_witness :
  zeroOrNaN (Stats.incompleteBeta (H := referenceHost) 1 2 0.5)
  /\ (0 <? Stats.incompleteBeta (H := referenceHost) 0.5 1 0.5) = true.
Proof.
  destruct (incompleteBeta_not_monotone referenceHost 2 0.5
              referenceHost_Ecma eq_refl eq_refl)
    as (_ & H1 & _ & _ & H2 & _).
  split; assumption.
Defined.

(** ** The synthetic sample generators *)

Import HypothesisTests.

(** Both generators return one sample per turn of the loop, every one
    drawn around [sampleBaseValue]. *)
Lemma generators_centred (H : HostMath) (rnd : nat -> float)
    strategy metric scenario samples :
  generateSampleData rnd strategy metric scenario samples
  = mapR (fun _ =>
            drawSample rnd (sampleBaseValue strategy metric scenario)
              (sampleBaseValue strategy metric scenario
               * varianceMultiplier strategy))
         (seq 0 samples)
  /\ generateDistributionData rnd strategy metric scenario
     = generateSampleData rnd strategy metric scenario 100.
Proof. split; reflexivity. Qed.

(** C3, as the code has it: for every strategy and each of the four
    metrics of the table, with a scenario whose four flows are 0 and whose
    incident and peak-hour flags are off, the incident and peak-hour
    multipliers are 1 and the flow multiplier is 0.5, so both generators
    draw their samples around half the baseline for [waitingTime] and
    [queueLength], and around the baseline divided by 0.5 (twice the
    baseline) for [throughput] and [efficiency]; the baseline is the value
    of the table, which is used when no scenario is supplied. *)
Theorem quiet_scenario_scales_baseline (H : HostMath) (rnd : nat -> float)
    (strategy : StrategyType) (metric : string) (scenario : CustomScenario)
    (samples : nat) :
  metric ∈ tableMetrics ->
  quiet scenario ->
  let baseline := sampleBaseValue strategy metric None in
  let centre :=
    if growsWithTraffic metric then baseline * 0.5 else baseline / 0.5 in
  sampleBaseValue strategy metric (Some scenario) = centre
  /\ generateSampleData rnd strategy metric (Some scenario) samples
     = mapR (fun _ => drawSample rnd centre
                        (centre * varianceMultiplier strategy))
            (seq 0 samples)
  /\ generateDistributionData rnd strategy metric (Some scenario)
     = mapR (fun _ => drawSample rnd centre
                        (centre * varianceMultiplier strategy))
            (seq 0 100)
  /\ baseValues strategy metric = Some baseline
  /\ growsWithTraffic metric
     = bool_decide (metric = "waitingTime" \/ metric = "queueLength").
Proof.
  intros Hm (Hn & He & Hs & Hw & Hi & Hp) baseline centre.
  assert (Hc : sampleBaseValue strategy metric (Some scenario) = centre).
  { unfold centre, baseline, sampleBaseValue, growsWithTraffic.
    rewrite Hn, He, Hs, Hw, Hi, Hp.
    destruct (String.eqb metric "waitingTime" || String.eqb metric "queueLength");
      f_equal. }
  split; [exact Hc|].
  unfold generateSampleData, generateDistributionData.
  rewrite Hc. split; [reflexivity|]. split; [reflexivity|].
  unfold baseline, tableMetrics in *.
  repeat (apply elem_of_cons in Hm as [->|Hm]);
    [| | | |apply elem_of_nil in Hm; contradiction];
    (split; [destruct strategy; reflexivity|reflexivity]).
Qed.

Lemma quiet_scenario_scales_baseline_witness :
  sampleBaseValue Fixed_time "waitingTime" (Some quietScenario) = 23.75
  /\ sampleBaseValue Fixed_time "throughput" (Some quietScenario) = 120.
Proof.
  assert (Hq : quiet quietScenario) by (repeat split).
  split.
  - refine (proj1 (quiet_scenario_scales_baseline referenceHost (fun _ => 0.5)
                     Fixed_time "waitingTime" quietScenario 100 _ Hq)).
    apply (bool_decide_unpack _). vm_compute. exact I.
  - refine (proj1 (quiet_scenario_scales_baseline referenceHost (fun _ => 0.5)
                     Fixed_time "throughput" quietScenario 100 _ Hq)).
    apply (bool_decide_unpack _). vm_compute. exact I.
Defined.

(** C3, as stated, fails: with the quiet scenario the fixed-time waiting
    time is drawn around 23.75, not around the baseline 47.5, and so for
    every strategy and each of the four metrics. *)
Lemma quiet_scenario_changes_baseline :
  quiet quietScenario
  /\ sampleBaseValue Fixed_time "waitingTime" None = 47.5
  /\ sampleBaseValue Fixed_time "waitingTime" (Some quietScenario) = 23.75
  /\ Forall (fun sm : StrategyType * string =>
               (sampleBaseValue sm.1 sm.2 (Some quietScenario)
                =? sampleBaseValue sm.1 sm.2 None) = false)
       (s ← [Fixed_time; Rule_based; RL_based];
        m ← ["waitingTime"; "queueLength"; "throughput"; "efficiency"]%string;
        [(s, m)]).
Proof.
  split; [repeat split|]. split; [reflexivity|]. split; [reflexivity|].
  vm_compute. repeat constructor.
Qed.

End StatsProps.

(** * Randomness is the only hidden input *)

Module CoreProps.

Section Draws.

Context {R A B : Type}.
Variable F : (nat -> R) -> A -> Rand B.
Variable c : nat.

Hypothesis F_local :
  forall rnd1 rnd2 a k1 k2,
    agree rnd1 rnd2 k1 k2 c -> (F rnd1 a k1).1 = (F rnd2 a k2).1.

Hypothesis F_count : forall rnd a k, (F rnd a k).2 = (k + c)%nat.

Lemma mapR_count rnd l k : (mapR (F rnd) l k).2 = (k + c * length l)%nat.
Proof using F_count.
  revert k. induction l as [|a l IH]; intros k; cbn; [lia|].
  unfold mbind, Rand_bind, mret, Rand_ret.
  pose proof (F_count rnd a k) as Hc.
  destruct (F rnd a k) as [b k']. cbn in Hc. subst k'.
  specialize (IH (k + c)%nat).
  destruct (mapR (F rnd) l (k + c)) as [bs k'']. cbn in *. lia.
Qed.

Lemma mapR_local rnd1 rnd2 l k1 k2 :
  agree rnd1 rnd2 k1 k2 (c * length l) ->
  (mapR (F rnd1) l k1).1 = (mapR (F rnd2) l k2).1.
Proof using F_local F_count.
  revert k1 k2. induction l as [|a l IH]; intros k1 k2 Hag; cbn; [reflexivity|].
  unfold mbind, Rand_bind, mret, Rand_ret.
  assert (Hhead : agree rnd1 rnd2 k1 k2 c).
  { intros j Hj. apply Hag. cbn. lia. }
  pose proof (F_local rnd1 rnd2 a k1 k2 Hhead) as Hb.
  pose proof (F_count rnd1 a k1) as Hc1.
  pose proof (F_count rnd2 a k2) as Hc2.
  destruct (F rnd1 a k1) as [b1 k1'], (F rnd2 a k2) as [b2 k2'].
  cbn in Hb, Hc1, Hc2. subst b2 k1' k2'.
  assert (Htail : agree rnd1 rnd2 (k1 + c) (k2 + c) (c * length l)).
  { intros j Hj. rewrite <- !Nat.add_assoc. apply Hag. cbn. lia. }
  specialize (IH _ _ Htail).
  destruct (mapR (F rnd1) l (k1 + c)) as [bs1 k1''],
           (mapR (F rnd2) l (k2 + c)) as [bs2 k2''].
  cbn in *. congruence.
Qed.

End Draws.

Lemma agree_four {R} (rnd1 rnd2 : nat -> R) k1 k2 :
  agree rnd1 rnd2 k1 k2 4 ->
  rnd1 k1 = rnd2 k2 /\ rnd1 (S k1) = rnd2 (S k2)
  /\ rnd1 (S (S k1)) = rnd2 (S (S k2))
  /\ rnd1 (S (S (S k1))) = rnd2 (S (S (S k2))).
Proof.
  intros Hag.
  pose proof (Hag 0%nat ltac:(lia)) as H0.
  pose proof (Hag 1%nat ltac:(lia)) as H1.
  pose proof (Hag 2%nat ltac:(lia)) as H2.
  pose proof (Hag 3%nat ltac:(lia)) as H3.
  rewrite !Nat.add_0_r in H0.
  replace (k1 + 1)%nat with (S k1) in H1 by lia.
  replace (k2 + 1)%nat with (S k2) in H1 by lia.
  replace (k1 + 2)%nat with (S (S k1)) in H2 by lia.
  replace (k2 + 2)%nat with (S (S k2)) in H2 by lia.
  replace (k1 + 3)%nat with (S (S (S k1))) in H3 by lia.
  replace (k2 + 3)%nat with (S (S (S k2))) in H3 by lia.
  auto.
Qed.

Lemma simulateIntersectionStep_local config all conns rnd1 rnd2 i k1 k2 :
  agree rnd1 rnd2 k1 k2 4 ->
  (Network.simulateIntersectionStep rnd1 i config all conns k1).1
  = (Network.simulateIntersectionStep rnd2 i config all conns k2).1.
Proof.
  intros Hag. destruct (agree_four _ _ _ _ Hag) as (E0 & E1 & E2 & E3).
  cbv beta iota delta [Network.simulateIntersectionStep Network.Math_random
                         mbind Rand_bind mret Rand_ret fst].
  rewrite E0, E1, E2, E3. reflexivity.
Qed.

Lemma simulateIntersectionStep_count config all conns rnd i k :
  (Network.simulateIntersectionStep rnd i config all conns k).2 = (k + 4)%nat.
Proof.
  lazy beta iota zeta delta
    [Network.simulateIntersectionStep Network.Math_random
     mbind Rand_bind mret Rand_ret snd].
  lia.
Qed.

Lemma drawSample_local (H : JS.HostMath) b v rnd1 rnd2 (a : nat) k1 k2 :
  agree rnd1 rnd2 k1 k2 2 ->
  (HypothesisTests.drawSample rnd1 b v k1).1
  = (HypothesisTests.drawSample rnd2 b v k2).1.
Proof.
  intros Hag.
  pose proof (Hag 0%nat ltac:(lia)) as H0.
  pose proof (Hag 1%nat ltac:(lia)) as H1.
  rewrite !Nat.add_0_r in H0.
  replace (k1 + 1)%nat with (S k1) in H1 by lia.
  replace (k2 + 1)%nat with (S k2) in H1 by lia.
  unfold HypothesisTests.drawSample, HypothesisTests.Math_random,
    mbind, Rand_bind, mret, Rand_ret.
  cbn [fst]. rewrite H0, H1. reflexivity.
Qed.

Lemma drawSample_count (H : JS.HostMath) b v rnd (a : nat) k :
  (HypothesisTests.drawSample rnd b v k).2 = (k + 2)%nat.
Proof.
  unfold HypothesisTests.drawSample, HypothesisTests.Math_random,
    mbind, Rand_bind, mret, Rand_ret.
  cbn [snd]. lia.
Qed.

(** C7, as the code has it: [simulateNetworkStep] and the sample
    generators (called, as they are, with a metric of the table) read
    [Math.random]; their results are functions of their arguments and of
    the draws they read.  Two evaluations on equal arguments that see equal
    draws return equal results, and an evaluation reads exactly four draws
    per intersection in a step, two per sample in [generateSampleData] and
    200 in [generateDistributionData], whatever the arguments and the draws
    are. *)
Theorem deterministic_given_draws :
  (forall (rnd1 rnd2 : nat -> Q) state config connections k1 k2,
      agree rnd1 rnd2 k1 k2 (4 * length (Network.intersections state)) ->
      evalR (Network.simulateNetworkStep rnd1 state config connections) k1
      = evalR (Network.simulateNetworkStep rnd2 state config connections) k2)
  /\ (forall (H : JS.HostMath) (rnd1 rnd2 : nat -> float)
             strategy metric scenario samples k1 k2,
         metric ∈ HypothesisTests.tableMetrics ->
         agree rnd1 rnd2 k1 k2 (2 * samples) ->
         evalR (HypothesisTests.generateSampleData rnd1 strategy metric
                  scenario samples) k1
         = evalR (HypothesisTests.generateSampleData rnd2 strategy metric
                    scenario samples) k2)
  /\ (forall (H : JS.HostMath) (rnd1 rnd2 : nat -> float)
             strategy metric scenario k1 k2,
         metric ∈ HypothesisTests.tableMetrics ->
         agree rnd1 rnd2 k1 k2 200 ->
         evalR (HypothesisTests.generateDistributionData rnd1 strategy metric
                  scenario) k1
         = evalR (HypothesisTests.generateDistributionData rnd2 strategy
                    metric scenario) k2)
  /\ (forall (rnd : nat -> Q) state config connections k,
         (Network.simulateNetworkStep rnd state config connections k).2
         = (k + 4 * length (Network.intersections state))%nat)
  /\ (forall (H : JS.HostMath) (rnd : nat -> float)
             strategy metric scenario samples k,
         metric ∈ HypothesisTests.tableMetrics ->
         (HypothesisTests.generateSampleData rnd strategy metric scenario
            samples k).2 = (k + 2 * samples)%nat)
  /\ (forall (H : JS.HostMath) (rnd : nat -> float)
             strategy metric scenario k,
         metric ∈ HypothesisTests.tableMetrics ->
         (HypothesisTests.generateDistributionData rnd strategy metric
            scenario k).2 = (k + 200)%nat).
Proof.
  split; [|split; [|split; [|split; [|split]]]].
  - intros rnd1 rnd2 state config connections k1 k2 Hag.
    unfold evalR, Network.simulateNetworkStep, mbind, Rand_bind, mret, Rand_ret.
    pose proof (mapR_local
                  (fun rnd i =>
                     Network.simulateIntersectionStep rnd i config
                       (Network.intersections state) connections)
                  4
                  (simulateIntersectionStep_local config _ connections)
                  (simulateIntersectionStep_count config _ connections)
                  rnd1 rnd2 (Network.intersections state) k1 k2 Hag) as Hm.
    destruct (mapR _ (Network.intersections state) k1) as [st1 k1'].
    destruct (mapR _ (Network.intersections state) k2) as [st2 k2'].
    cbn in Hm. subst st2. reflexivity.
  - intros H rnd1 rnd2 strategy metric scenario samples k1 k2 _ Hag.
    unfold evalR, HypothesisTests.generateSampleData.
    apply (mapR_local (fun rnd (_ : nat) => HypothesisTests.drawSample rnd _ _)
             2 (drawSample_local H _ _) (drawSample_count H _ _)).
    rewrite length_seq. exact Hag.
  - intros H rnd1 rnd2 strategy metric scenario k1 k2 _ Hag.
    unfold evalR, HypothesisTests.generateDistributionData.
    apply (mapR_local (fun rnd (_ : nat) => HypothesisTests.drawSample rnd _ _)
             2 (drawSample_local H _ _) (drawSample_count H _ _)).
    rewrite length_seq. exact Hag.
  - intros rnd state config connections k.
    unfold Network.simulateNetworkStep, mbind, Rand_bind, mret, Rand_ret.
    pose proof (mapR_count
                  (fun rnd i =>
                     Network.simulateIntersectionStep rnd i config
                       (Network.intersections state) connections)
                  4
                  (simulateIntersectionStep_count config _ connections)
                  rnd (Network.intersections state) k) as Hm.
    destruct (mapR _ (Network.intersections state) k) as [st k'].
    exact Hm.
  - intros H rnd strategy metric scenario samples k _.
    unfold HypothesisTests.generateSampleData.
    rewrite (mapR_count (fun rnd (_ : nat) => HypothesisTests.drawSample rnd _ _)
               2 (drawSample_count H _ _)).
    rewrite length_seq. reflexivity.
  - intros H rnd strategy metric scenario k _.
    unfold HypothesisTests.generateDistributionData.
    rewrite (mapR_count (fun rnd (_ : nat) => HypothesisTests.drawSample rnd _ _)
               2 (drawSample_count H _ _)).
    rewrite length_seq. reflexivity.
Qed.

Lemma deterministic_given_draws_witness :
  evalR (Network.simulateNetworkStep Network.halfDraws
           Network.tenQueuedNetwork Network.fixedTimeRun
           (Network.createNetworkConnections 2)) 0
  = evalR (Network.simulateNetworkStep Network.halfThenZeroDraws
             Network.tenQueuedNetwork Network.fixedTimeRun
             (Network.createNetworkConnections 2)) 0.
Proof.
  apply (proj1 deterministic_given_draws).
  intros j Hj. cbn in Hj. unfold Network.halfDraws, Network.halfThenZeroDraws.
  cbn [Nat.add]. destruct (Nat.ltb_spec j 16) as [_|Hge]; [reflexivity|lia].
Defined.

(** C7, as stated, fails: equal arguments do not determine the result.
    There are two evaluations of [simulateNetworkStep] on the same state,
    configuration and connections, one reading only draws of 0 and one only
    draws of 0.5, whose results differ; and two evaluations of the sample
    generator on the same strategy, metric, scenario and size whose samples
    differ.  (Different draws need not give different results: with
    [trafficIntensity] 0 a step ignores what it draws.) *)
Lemma equal_inputs_different_outputs :
  evalR (Network.simulateNetworkStep Network.zeroDraws
           Network.tenQueuedNetwork Network.fixedTimeRun
           (Network.createNetworkConnections 2)) 0
  <> evalR (Network.simulateNetworkStep Network.halfDraws
              Network.tenQueuedNetwork Network.fixedTimeRun
              (Network.createNetworkConnections 2)) 0
  /\ evalR (HypothesisTests.generateSampleData (H := JS.referenceHost)
              HypothesisTests.quarterUniform HypothesisTests.Fixed_time
              "waitingTime" None 100) 0
     <> evalR (HypothesisTests.generateSampleData (H := JS.referenceHost)
                 HypothesisTests.halfUniform HypothesisTests.Fixed_time
                 "waitingTime" None 100) 0.
Proof.
  split.
  - intros Heq.
    apply (f_equal (fun s => Qle_bool (Network.totalVehicles s) 280)) in Heq.
    vm_compute in Heq. discriminate.
  - intros Heq.
    apply (f_equal (fun l => (hd 0 l <? 40)%float)) in Heq.
    vm_compute in Heq. discriminate.
Qed.

End CoreProps.

(** * Further properties of the grid-network simulator *)

Module SimulatorProps.

Import Network NetworkProps CoreProps.
Local Open Scope Q_scope.

(** ** Identifiers of the grid *)

Lemma underscoreFree_nil : underscoreFree "".
Proof. intros [|c a] b H; discriminate. Qed.

Lemma underscoreFree_cons c s :
  String c "" <> "_" -> underscoreFree s -> underscoreFree (String c s).
Proof.
  intros Hc Hs [|c' a] b H; cbn in H.
  - injection H as H1 H2. congruence.
  - injection H as H1 H2. exact (Hs a b H2).
Qed.

Lemma underscoreFree_tail c s : underscoreFree (String c s) -> underscoreFree s.
Proof. intros H a b ->. exact (H (String c a) b eq_refl). Qed.

Lemma pretty_N_char_plain n : String (pretty_N_char n) "" <> "_".
Proof. unfold pretty_N_char. repeat case_match; discriminate. Qed.

Lemma pretty_N_go_plain n s : underscoreFree s -> underscoreFree (pretty_N_go n s).
Proof.
  revert s. induction (N.lt_wf_0 n) as [n _ IH]; intros s Hs.
  destruct (decide (n = 0)%N) as [->|Hn]; [rewrite pretty_N_go_0; exact Hs|].
  rewrite pretty_N_go_step by lia.
  apply IH; [apply N.div_lt; lia|].
  apply underscoreFree_cons; [apply pretty_N_char_plain|exact Hs].
Qed.

Lemma pretty_nat_plain (n : nat) : underscoreFree (pretty n).
Proof.
  unfold pretty, pretty_nat, pretty, pretty_N.
  case_decide.
  - apply underscoreFree_cons; [discriminate|apply underscoreFree_nil].
  - apply pretty_N_go_plain, underscoreFree_nil.
Qed.

Lemma split_at_underscore s1 : forall s2 t1 t2,
  underscoreFree s1 -> underscoreFree s2 ->
  s1 +:+ "_" +:+ t1 = s2 +:+ "_" +:+ t2 -> s1 = s2 /\ t1 = t2.
Proof.
  induction s1 as [|c s1 IH]; intros [|c2 s2] t1 t2 H1 H2 E; cbn in E.
  - injection E as E. auto.
  - injection E as E1 E2. subst c2. exfalso. exact (H2 "" s2 eq_refl).
  - injection E as E1 E2. subst c. exfalso. exact (H1 "" s1 eq_refl).
  - injection E as E1 E2. subst c2.
    destruct (IH s2 t1 t2 (underscoreFree_tail _ _ H1)
                (underscoreFree_tail _ _ H2) E2) as [-> ->].
    auto.
Qed.

Lemma intersectionId_inj x y x' y' :
  intersectionId x y = intersectionId x' y' -> x = x' /\ y = y'.
Proof.
  unfold intersectionId. intros E.
  cbn [String.append] in E.
  repeat injection E as E.
  apply split_at_underscore in E as [E1 E2];
    [|apply pretty_nat_plain|apply pretty_nat_plain].
  split; [exact (pretty_nat_inj _ _ E1)|exact (pretty_nat_inj _ _ E2)].
Qed.

(** ** Effectful maps that draw a fixed number of values per element *)

Lemma mapR_length {A B} (f : A -> Rand B) (l : list A) k :
  length (mapR f l k).1 = length l.
Proof.
  revert k. induction l as [|a l IH]; intros k; cbn; [reflexivity|].
  unfold mbind, Rand_bind. destruct (f a k) as [b k1].
  specialize (IH k1). destruct (mapR f l k1) as [bs k2]. cbn in *. lia.
Qed.

Lemma mapR_draws {A B} (f : A -> Rand B) (c : nat) (l : list A) k :
  (forall a k, (f a k).2 = (k + c)%nat) ->
  (mapR f l k).2 = (k + c * length l)%nat.
Proof.
  intros Hc. revert k. induction l as [|a l IH]; intros k; cbn; [lia|].
  unfold mbind, Rand_bind. pose proof (Hc a k) as Ha.
  destruct (f a k) as [b k1]. specialize (IH k1).
  destruct (mapR f l k1) as [bs k2]. cbn in *. lia.
Qed.

Lemma mapR_lookup {A B} (f : A -> Rand B) (c : nat) (l : list A) k j a :
  (forall a k, (f a k).2 = (k + c)%nat) ->
  l !! j = Some a ->
  (mapR f l k).1 !! j = Some (f a (k + c * j)%nat).1.
Proof.
  intros Hc. revert k j. induction l as [|a0 l IH]; intros k j Hj; [discriminate|].
  cbn. unfold mbind, Rand_bind. pose proof (Hc a0 k) as Ha.
  destruct (f a0 k) as [b k1] eqn:E. specialize (IH k1).
  destruct j as [|j]; cbn in Hj.
  - injection Hj as <-. destruct (mapR f l k1) as [bs k2]. cbn.
    replace (k + c * 0)%nat with k by lia. rewrite E. reflexivity.
  - specialize (IH j Hj). destruct (mapR f l k1) as [bs k2]. cbn in *.
    etransitivity; [exact IH|]. subst k1. do 3 f_equal. lia.
Qed.

Lemma mapR_Forall2 {A B} (R : A -> B -> Prop) (f : A -> Rand B) (l : list A) :
  (forall a k, a ∈ l -> R a (f a k).1) ->
  forall k, Forall2 R l (mapR f l k).1.
Proof.
  induction l as [|a l IH]; intros Hf k; cbn; [constructor|].
  unfold mbind, Rand_bind.
  pose proof (Hf a k (list_elem_of_here _ _)) as Ha.
  destruct (f a k) as [b k1].
  specialize (IH (fun a' k' H' => Hf a' k' (list_elem_of_further _ _ _ H')) k1).
  destruct (mapR f l k1) as [bs k2]. cbn in *.
  constructor; assumption.
Qed.

(** ** The initial network *)

Lemma newIntersection_draws rnd x y k :
  (newIntersection rnd x y k).2 = (k + 4)%nat.
Proof.
  unfold newIntersection, Math_random, mbind, Rand_bind, mret, Rand_ret. cbn. lia.
Qed.

Lemma concat_lookup {A} (n : nat) (rows : list (list A)) i j row :
  Forall (fun r => length r = n) rows ->
  rows !! i = Some row -> (j < n)%nat ->
  concat rows !! (i * n + j)%nat = row !! j.
Proof.
  intros Hn. revert i. induction Hn as [|r rows Hr Hrows IH]; intros i Hi Hj;
    [discriminate|].
  destruct i as [|i]; cbn in *.
  - injection Hi as ->. rewrite lookup_app_l by lia. reflexivity.
  - rewrite lookup_app_r by lia.
    replace (n + i * n + j - length r)%nat with (i * n + j)%nat by lia.
    apply IH; assumption.
Qed.

Lemma concat_length_const {A} (n : nat) (rows : list (list A)) :
  Forall (fun r => length r = n) rows ->
  length (concat rows) = (length rows * n)%nat.
Proof.
  induction 1 as [|r rows Hr _ IH]; cbn; [reflexivity|].
  rewrite length_app, IH, Hr. reflexivity.
Qed.

Lemma initializeNetwork_lookup rnd g k x y :
  (x < g)%nat -> (y < g)%nat ->
  (initializeNetwork rnd g k).1 !! (x * g + y)%nat
  = Some (newIntersection rnd x y (k + 4 * (x * g + y))%nat).1.
Proof.
  intros Hx Hy. unfold initializeNetwork, mbind, Rand_bind, mret, Rand_ret.
  set (row := fun x => mapR (fun y => newIntersection rnd x y) (seq 0 g)).
  assert (Hrow : forall a k, (row a k).2 = (k + 4 * g)%nat).
  { intros a k0. unfold row.
    rewrite (mapR_draws _ 4) by (intros; apply newIntersection_draws).
    rewrite length_seq. reflexivity. }
  pose proof (mapR_lookup row (4 * g) (seq 0 g) k x x Hrow) as Hl.
  rewrite lookup_seq_lt in Hl by assumption. specialize (Hl eq_refl).
  assert (Hlen : Forall (fun r => length r = g) (mapR row (seq 0 g) k).1).
  { apply mapR_Forall. intros a k0 _. unfold row.
    rewrite mapR_length, length_seq. reflexivity. }
  destruct (mapR row (seq 0 g) k) as [rows k']. cbn [fst] in *.
  rewrite (concat_lookup g rows x y _ Hlen Hl Hy).
  unfold row.
  rewrite (mapR_lookup _ 4 (seq 0 g) _ y y)
    by (first [intros; apply newIntersection_draws
              |rewrite lookup_seq_lt by assumption; reflexivity]).
  do 3 f_equal. lia.
Qed.

Lemma initializeNetwork_length rnd g k :
  length (initializeNetwork rnd g k).1 = (g * g)%nat.
Proof.
  unfold initializeNetwork, mbind, Rand_bind, mret, Rand_ret.
  set (row := fun x => mapR (fun y => newIntersection rnd x y) (seq 0 g)).
  assert (Hlen : Forall (fun r => length r = g) (mapR row (seq 0 g) k).1).
  { apply mapR_Forall. intros a k0 _. unfold row.
    rewrite mapR_length, length_seq. reflexivity. }
  pose proof (mapR_length row (seq 0 g) k) as Hn.
  destruct (mapR row (seq 0 g) k) as [rows k']. cbn [fst] in *.
  rewrite (concat_length_const g) by assumption.
  rewrite Hn, length_seq. reflexivity.
Qed.

Lemma initializeNetwork_draws rnd g k :
  (initializeNetwork rnd g k).2 = (k + 4 * (g * g))%nat.
Proof.
  unfold initializeNetwork, mbind, Rand_bind, mret, Rand_ret.
  set (row := fun x => mapR (fun y => newIntersection rnd x y) (seq 0 g)).
  assert (Hrow : forall a k, (row a k).2 = (k + 4 * g)%nat).
  { intros a k0. unfold row.
    rewrite (mapR_draws _ 4) by (intros; apply newIntersection_draws).
    rewrite length_seq. reflexivity. }
  pose proof (mapR_draws row (4 * g) (seq 0 g) k Hrow) as Hd.
  destruct (mapR row (seq 0 g) k) as [rows k']. cbn [snd] in *.
  rewrite Hd, length_seq. lia.
Qed.

Lemma gridIds_lookup g x y :
  (x < g)%nat -> (y < g)%nat ->
  gridIds g !! (x * g + y)%nat = Some (intersectionId x y).
Proof.
  intros Hx Hy. unfold gridIds. rewrite flat_map_concat_map.
  rewrite (concat_lookup g _ x y (map (intersectionId x) (seq 0 g))).
  - rewrite list_lookup_fmap, lookup_seq_lt by assumption. reflexivity.
  - apply Forall_fmap, Forall_forall. intros a _. cbn.
    rewrite length_map, length_seq. reflexivity.
  - rewrite list_lookup_fmap, lookup_seq_lt by assumption. reflexivity.
  - assumption.
Qed.

Lemma gridIds_length g : length (gridIds g) = (g * g)%nat.
Proof.
  unfold gridIds. rewrite flat_map_concat_map.
  rewrite (concat_length_const g).
  - rewrite length_map, length_seq. reflexivity.
  - apply Forall_fmap, Forall_forall. intros a _. cbn.
    rewrite length_map, length_seq. reflexivity.
Qed.

(** A position of the row-major list is of the form [x * g + y]. *)
Lemma grid_position g j :
  (j < g * g)%nat ->
  exists x y, (x < g)%nat /\ (y < g)%nat /\ j = (x * g + y)%nat.
Proof.
  intros Hj. assert (g <> 0%nat) by lia.
  exists (j / g)%nat, (j mod g)%nat. split; [|split].
  - apply Nat.Div0.div_lt_upper_bound. lia.
  - apply Nat.mod_upper_bound. assumption.
  - rewrite (Nat.div_mod_eq j g) at 1. lia.
Qed.

Lemma gridIds_NoDup g : NoDup (gridIds g).
Proof.
  apply NoDup_alt. intros i j s Hi Hj.
  pose proof (lookup_lt_Some _ _ _ Hi) as Li.
  pose proof (lookup_lt_Some _ _ _ Hj) as Lj.
  rewrite gridIds_length in Li, Lj.
  destruct (grid_position g i Li) as (x & y & Hx & Hy & ->).
  destruct (grid_position g j Lj) as (x' & y' & Hx' & Hy' & ->).
  rewrite gridIds_lookup in Hi, Hj by assumption.
  assert (E : intersectionId x y = intersectionId x' y') by congruence.
  apply intersectionId_inj in E as [-> ->]. reflexivity.
Qed.

Lemma initializeNetwork_ids rnd g k :
  map id (initializeNetwork rnd g k).1 = gridIds g.
Proof.
  apply list_eq_same_length with (g * g)%nat.
  - apply gridIds_length.
  - rewrite length_map. apply initializeNetwork_length.
  - intros j a b Hj Ha Hb.
    destruct (grid_position g j Hj) as (x & y & Hx & Hy & ->).
    rewrite list_lookup_fmap, initializeNetwork_lookup in Ha by assumption.
    rewrite gridIds_lookup in Hb by assumption.
    unfold newIntersection, Math_random, mbind, Rand_bind, mret, Rand_ret in Ha.
    cbn in Ha. congruence.
Qed.

(** X1: [initializeNetwork g] draws exactly [4 * g * g] random numbers and
    returns [g * g] intersections in row-major order, the cell [(x, y)] at
    position [x * g + y].  Its identifiers are those of the grid and are
    pairwise distinct; every queue, [totalWaitingTime], [totalThroughput]
    and [efficiency] start at 0, east-west starts green, and the four flow
    rates of cell [(x, y)] are 20 times the four draws numbered from
    [4 * (x * g + y)] on. *)
Theorem initializeNetwork_grid (rnd : nat -> Q) (g k : nat) :
  let st := (initializeNetwork rnd g k).1 in
  length st = (g * g)%nat
  /\ (initializeNetwork rnd g k).2 = (k + 4 * (g * g))%nat
  /\ map id st = gridIds g
  /\ NoDup (map id st)
  /\ (forall x y, (x < g)%nat -> (y < g)%nat ->
        let d := (k + 4 * (x * g + y))%nat in
        st !! (x * g + y)%nat
        = Some (mkIntersection (intersectionId x y) (intersectionName x y) x y
                  (rnd d * 20) (rnd (d + 1)%nat * 20)
                  (rnd (d + 2)%nat * 20) (rnd (d + 3)%nat * 20)
                  0 0 0 0  red green red green  0 0 0)).
Proof.
  intros st. split; [apply initializeNetwork_length|].
  split; [apply initializeNetwork_draws|].
  split; [apply initializeNetwork_ids|].
  split; [unfold st; rewrite initializeNetwork_ids; apply gridIds_NoDup|].
  intros x y Hx Hy d. unfold st.
  rewrite initializeNetwork_lookup by assumption. fold d.
  unfold newIntersection, Math_random, mbind, Rand_bind, mret, Rand_ret. cbn.
  replace (d + 1)%nat with (S d) by lia.
  replace (d + 2)%nat with (S (S d)) by lia.
  replace (d + 3)%nat with (S (S (S d))) by lia.
  reflexivity.
Qed.

Lemma intersectionMap_snoc st a :
  intersectionMap (st ++ [a]) = <[id a := length st]> (intersectionMap st).
Proof.
  unfold intersectionMap.
  rewrite length_app, Nat.add_1_r, seq_S. cbn [Nat.add].
  rewrite zip_with_app by (rewrite length_seq; reflexivity).
  rewrite foldl_app. reflexivity.
Qed.

Lemma intersectionMap_lookup st j i :
  NoDup (map id st) -> st !! j = Some i ->
  intersectionMap st !! id i = Some j.
Proof.
  revert j i. induction st as [|a st IH] using rev_ind; intros j i Hnd Hj;
    [discriminate|].
  rewrite intersectionMap_snoc.
  rewrite map_app in Hnd. apply NoDup_app in Hnd as (Hnd & Hdis & _).
  destruct (decide (j < length st)%nat) as [Hlt|Hge].
  - rewrite lookup_app_l in Hj by assumption.
    rewrite lookup_insert_ne.
    + apply IH; assumption.
    + intros E. apply (Hdis (id i)).
      * apply list_elem_of_fmap. exists i. split; [reflexivity|].
        eapply list_elem_of_lookup_2. exact Hj.
      * rewrite <- E. cbn. left.
  - pose proof (lookup_lt_Some _ _ _ Hj) as Hl.
    rewrite length_app in Hl. cbn in Hl.
    assert (j = length st) as -> by lia.
    rewrite list_lookup_middle in Hj by reflexivity. injection Hj as <-.
    rewrite lookup_insert. case_decide; [reflexivity|congruence].
Qed.

Lemma intersectionMap_unknown st k :
  k ∉ map id st -> intersectionMap st !! k = None.
Proof.
  induction st as [|a st IH] using rev_ind; intros Hk; [reflexivity|].
  rewrite intersectionMap_snoc. rewrite map_app in Hk.
  rewrite lookup_insert_ne.
  - apply IH. intros H. apply Hk. apply elem_of_app. left. exact H.
  - intros E. apply Hk. apply elem_of_app. right. rewrite <- E. cbn. left.
Qed.

(** X2: on any list of intersections that carries the identifiers of the
    [g] x [g] grid in order (the initial network, and every later state of a
    run), the [Map] that [applyNetworkFlowInfluence] builds sends the
    identifier of cell [(x, y)] to the intersection at position
    [x * g + y], which carries that identifier; every other key is absent
    from it. *)
Theorem intersectionMap_grid (st : list IntersectionState) (g : nat) :
  map id st = gridIds g ->
  (forall x y, (x < g)%nat -> (y < g)%nat ->
     intersectionMap st !! intersectionId x y = Some (x * g + y)%nat
     /\ exists i, st !! (x * g + y)%nat = Some i /\ id i = intersectionId x y)
  /\ (forall k, (forall x y, (x < g)%nat -> (y < g)%nat -> k <> intersectionId x y) ->
        intersectionMap st !! k = None).
Proof.
  intros Hids. split.
  - intros x y Hx Hy.
    pose proof (gridIds_lookup g x y Hx Hy) as Hl.
    rewrite <- Hids, list_lookup_fmap in Hl.
    destruct (st !! (x * g + y)%nat) as [i|] eqn:Hi; [|discriminate].
    cbn in Hl. injection Hl as Hl.
    split; [|exists i; auto].
    rewrite <- Hl. apply intersectionMap_lookup; [|exact Hi].
    rewrite Hids. apply gridIds_NoDup.
  - intros k Hk. apply intersectionMap_unknown. rewrite Hids.
    intros Hin. apply list_elem_of_lookup_1 in Hin as (j & Hj).
    pose proof (lookup_lt_Some _ _ _ Hj) as Lj. rewrite gridIds_length in Lj.
    destruct (grid_position g j Lj) as (x & y & Hx & Hy & ->).
    rewrite gridIds_lookup in Hj by assumption.
    apply (Hk x y Hx Hy). congruence.
Qed.

Lemma intersectionMap_grid_witness :
  intersectionMap tenQueuedGrid !! intersectionId 1 0 = Some 2%nat.
Proof.
  destruct (intersectionMap_grid tenQueuedGrid 2) as [H _]; [reflexivity|].
  destruct (H 1%nat 0%nat) as [H1 _]; [lia|lia|]. exact H1.
Defined.

Lemma elem_of_createNetworkConnections g c :
  c ∈ createNetworkConnections g <->
  exists x y, (x < g)%nat /\ (y < g)%nat /\ c ∈ cellConnections g x y.
Proof.
  unfold createNetworkConnections. rewrite list_elem_of_In, in_flat_map.
  split.
  - intros (x & Hx & Hc). apply in_flat_map in Hc as (y & Hy & Hc).
    apply in_seq in Hx, Hy. exists x, y.
    rewrite list_elem_of_In. repeat split; [lia|lia|assumption].
  - intros (x & y & Hx & Hy & Hc). exists x. split; [apply in_seq; lia|].
    apply in_flat_map. exists y. split; [apply in_seq; lia|].
    apply list_elem_of_In. assumption.
Qed.

Lemma elem_of_cellConnections g x y c :
  (x < g)%nat -> (y < g)%nat ->
  c ∈ cellConnections g x y <->
  exists d x' y', (x' < g)%nat /\ (y' < g)%nat /\ towards d x y x' y'
    /\ c = mkConnection (intersectionId x y) (intersectionId x' y') d 0.3.
Proof.
  intros Hx Hy. unfold cellConnections. rewrite !elem_of_app. split.
  - intros [H|[H|[H|H]]]; case_bool_decide;
      try (apply elem_of_nil in H; contradiction);
      apply list_elem_of_singleton in H; subst c.
    + exists north, x, (y - 1)%nat. cbn. repeat split; lia.
    + exists east, (x + 1)%nat, y. cbn. repeat split; lia.
    + exists south, x, (y + 1)%nat. cbn. repeat split; lia.
    + exists west, (x - 1)%nat, y. cbn. repeat split; lia.
  - intros (d & x' & y' & Hx' & Hy' & Ht & ->).
    destruct d; cbn in Ht; destruct Ht as [? ?]; subst.
    + left. rewrite bool_decide_eq_true_2 by lia.
      replace (S y' - 1)%nat with y' by lia. left.
    + right; left. rewrite bool_decide_eq_true_2 by lia.
      replace (x + 1)%nat with (S x) by lia. left.
    + right; right; left. rewrite bool_decide_eq_true_2 by lia.
      replace (y + 1)%nat with (S y) by lia. left.
    + right; right; right. rewrite bool_decide_eq_true_2 by lia.
      replace (S x' - 1)%nat with x' by lia. left.
Qed.

(** X3: the connections of [createNetworkConnections g] are exactly the
    records [{from, to, direction, 0.3}] where [from] and [to] identify two
    cells of the grid and [to] is the neighbour of [from] in [direction]
    (north towards smaller [y], east towards larger [x]). *)
Theorem createNetworkConnections_neighbours (g : nat) (c : NetworkConnection) :
  c ∈ createNetworkConnections g <->
  exists d x y x' y',
    (x < g)%nat /\ (y < g)%nat /\ (x' < g)%nat /\ (y' < g)%nat
    /\ towards d x y x' y'
    /\ c = mkConnection (intersectionId x y) (intersectionId x' y') d 0.3.
Proof.
  rewrite elem_of_createNetworkConnections. split.
  - intros (x & y & Hx & Hy & Hc).
    apply elem_of_cellConnections in Hc as (d & x' & y' & ? & ? & ? & ?);
      [|assumption|assumption].
    exists d, x, y, x', y'. auto 10.
  - intros (d & x & y & x' & y' & Hx & Hy & Hx' & Hy' & Ht & Hc).
    exists x, y. split; [assumption|]. split; [assumption|].
    apply elem_of_cellConnections; [assumption|assumption|].
    exists d, x', y'. auto.
Qed.

Lemma towards_opposite d x y x' y' :
  towards d x y x' y' -> towards (opposite d) x' y' x y.
Proof. destruct d; cbn; intros [? ?]; split; lia. Qed.

Lemma towards_distinct d x y x' y' :
  towards d x y x' y' -> intersectionId x y <> intersectionId x' y'.
Proof.
  intros Ht E. apply intersectionId_inj in E as [-> ->].
  destruct d; cbn in Ht; lia.
Qed.

(** X4: no connection of the grid joins an intersection to itself, and
    every connection has its reverse in the list: the connection from its
    destination back to its source, in the opposite direction and with the
    same coefficient. *)
Theorem createNetworkConnections_symmetric (g : nat) (c : NetworkConnection) :
  c ∈ createNetworkConnections g ->
  from c <> to c
  /\ mkConnection (to c) (from c) (opposite (direction c)) (flowInfluence c)
     ∈ createNetworkConnections g.
Proof.
  intros Hc.
  apply elem_of_createNetworkConnections in Hc as (x & y & Hx & Hy & Hc).
  apply elem_of_cellConnections in Hc as (d & x' & y' & Hx' & Hy' & Ht & ->);
    [|assumption|assumption].
  cbn. split; [exact (towards_distinct _ _ _ _ _ Ht)|].
  apply elem_of_createNetworkConnections.
  exists x', y'. split; [assumption|]. split; [assumption|].
  apply elem_of_cellConnections; [assumption|assumption|].
  exists (opposite d), x, y.
  split; [assumption|]. split; [assumption|].
  split; [apply towards_opposite; exact Ht|reflexivity].
Qed.

Lemma createNetworkConnections_symmetric_witness :
  mkConnection (intersectionId 1 0) (intersectionId 0 0) west 0.3
  ∈ createNetworkConnections 2.
Proof.
  apply (createNetworkConnections_symmetric 2
           (mkConnection (intersectionId 0 0) (intersectionId 1 0) east 0.3)).
  vm_compute. apply list_elem_of_here.
Defined.

(** ** One tick of one intersection *)

(** The state [simulateIntersectionStep] returns, written out: [nf .. wf]
    are the new flows, [nt .. wt] the departures and [nq .. wq] the new
    queues. *)
Lemma simulateIntersectionStep_shape rnd i config all cs k :
  let nf := northFlow i + rnd k * trafficIntensity config * 5 in
  let ef := eastFlow i + rnd (S k) * trafficIntensity config * 5 in
  let sf := southFlow i + rnd (S (S k)) * trafficIntensity config * 5 in
  let wf := westFlow i + rnd (S (S (S k))) * trafficIntensity config * 5 in
  let nt := Math_min (northQueue i) (capacity (northSignal i)) in
  let et := Math_min (eastQueue i) (capacity (eastSignal i)) in
  let st := Math_min (southQueue i) (capacity (southSignal i)) in
  let wt := Math_min (westQueue i) (capacity (westSignal i)) in
  let nq := Math_max 0 (northQueue i - nt) + nf in
  let eq := Math_max 0 (eastQueue i - et) + ef in
  let sq := Math_max 0 (southQueue i - st) + sf in
  let wq := Math_max 0 (westQueue i - wt) + wf in
  let tt := totalThroughput i + (nt + et + st + wt) in
  let tw := totalWaitingTime i + (nq + eq + sq + wq) in
  let pre :=
    mkIntersection (id i) (name i) (x i) (y i) nf ef sf wf nq eq sq wq
      (northSignal i) (eastSignal i) (southSignal i) (westSignal i)
      tw tt (efficiency i) in
  (simulateIntersectionStep rnd i config all cs k).1
  = set_efficiency
      (updateSignalStrategy pre (strategy config) (nq + sq) (eq + wq))
      (tt / (nq + eq + sq + wq + 1)).
Proof.
  destruct i as [iid iname ix iy nf0 ef0 sf0 wf0 nq0 eq0 sq0 wq0 ns es ss ws tw0 tt0 ie].
  cbv beta iota zeta delta
    [simulateIntersectionStep Math_random mbind Rand_bind mret Rand_ret fst
     set_flows set_queues set_totalThroughput set_totalWaitingTime capacity
     id name x y northFlow eastFlow southFlow westFlow
     northQueue eastQueue southQueue westQueue northSignal eastSignal
     southSignal westSignal totalWaitingTime totalThroughput efficiency].
  match goal with |- context [updateSignalStrategy ?a ?b ?c ?d] =>
    destruct (updateSignalStrategy_frame a b c d) as (n & e & so & w & ->) end.
  reflexivity.
Qed.

Lemma Math_min_le_l (a b : Q) : Math_min a b <= a.
Proof.
  unfold Math_min. destruct (Qle_bool a b) eqn:E; [lra|].
  destruct (Qlt_le_dec b a) as [H|H]; [lra|].
  apply Qle_bool_iff in H. congruence.
Qed.

Lemma Math_min_le_r (a b : Q) : Math_min a b <= b.
Proof.
  unfold Math_min. destruct (Qle_bool a b) eqn:E; [|lra].
  apply Qle_bool_iff. exact E.
Qed.

Lemma Math_max_ge_l a b : a <= Math_max a b.
Proof.
  unfold Math_max. destruct (Qle_bool a b) eqn:E; [|lra].
  apply Qle_bool_iff. exact E.
Qed.

Lemma Math_max_ge_r a b : b <= Math_max a b.
Proof.
  unfold Math_max. destruct (Qle_bool a b) eqn:E; [lra|].
  destruct (Qlt_le_dec b a) as [H|H]; [lra|].
  apply Qle_bool_iff in H. congruence.
Qed.

Lemma capacity_range s : 0 <= capacity s <= 8.
Proof. unfold capacity. case_bool_decide; lra. Qed.

(** A queue of at most 8 vehicles leaves as a whole under green. *)
Lemma served_whole (q : Q) : q <= 8 -> Math_max 0 (q - Math_min q 8) == 0.
Proof.
  intros Hq. unfold Math_min. apply Qle_bool_iff in Hq. rewrite Hq.
  unfold Math_max.
  destruct (Qle_bool 0 (q - q)) eqn:E; [lra|reflexivity].
Qed.

(** Nothing leaves a queue that is not served. *)
Lemma unserved_stays (q : Q) : q <= Math_max 0 (q - Math_min q 0).
Proof.
  pose proof (Math_max_ge_r 0 (q - Math_min q 0)).
  pose proof (Math_min_le_r q 0). lra.
Qed.

(** X5: one tick serves each direction of an intersection.  A green
    direction that holds at most 8 vehicles is emptied: its queue after the
    tick is the direction's new flow rate.  A direction that is not green
    lets nothing through: when its new flow rate is non-negative, its queue
    does not shrink.  In every case the queue after the tick is at least
    the direction's new flow rate, since [Math.max(0, ...)] keeps what
    remains of the queue non-negative.  Identifier, name and position are
    kept. *)
Theorem simulateIntersectionStep_serves (rnd : nat -> Q)
    (i : IntersectionState) (config : SimulationConfig)
    (all : list IntersectionState) (cs : list NetworkConnection) (k : nat) :
  let r := (simulateIntersectionStep rnd i config all cs k).1 in
  (forall d, flowRate d r <= sourceQueue d r)
  /\ (forall d, sourceSignal d i = green -> sourceQueue d i <= 8 ->
        sourceQueue d r == flowRate d r)
  /\ (forall d, sourceSignal d i <> green -> 0 <= flowRate d r ->
        sourceQueue d i <= sourceQueue d r)
  /\ same_place i r.
Proof.
  intros r. unfold r.
  rewrite simulateIntersectionStep_shape.
  match goal with |- context [updateSignalStrategy ?a ?b ?c ?d] =>
    destruct (updateSignalStrategy_frame a b c d) as (n & e & so & w & ->) end.
  split; [|split; [|split]].
  - intros d.
    pose proof (Math_max_zero_nonneg
                  (sourceQueue d i
                   - Math_min (sourceQueue d i) (capacity (sourceSignal d i)))).
    destruct d; cbn in *; lra.
  - intros d Hg Hq.
    pose proof (served_whole (sourceQueue d i) Hq) as Hs.
    destruct d; cbn in *; rewrite Hg; unfold capacity;
      rewrite bool_decide_eq_true_2 by reflexivity; lra.
  - intros d Hg Hf.
    pose proof (unserved_stays (sourceQueue d i)) as Hs.
    destruct d; cbn in *; unfold capacity;
      rewrite bool_decide_eq_false_2 by exact Hg; lra.
  - repeat split.
Qed.

Lemma Qltb_true a b : Qltb a b = true <-> a < b.
Proof.
  unfold Qltb. rewrite negb_true_iff. split.
  - intros E. destruct (Qlt_le_dec a b) as [H|H]; [exact H|].
    apply Qle_bool_iff in H. congruence.
  - intros H. destruct (Qle_bool b a) eqn:E; [|reflexivity].
    apply Qle_bool_iff in E. lra.
Qed.

Lemma updateSignalStrategy_axis i s ns ew :
  greenAxis (updateSignalStrategy i s ns ew) = NorthSouth
  \/ greenAxis (updateSignalStrategy i s ns ew) = EastWest.
Proof.
  unfold updateSignalStrategy.
  destruct s; match goal with |- context [if ?b then _ else _] => destruct b end;
    auto.
Qed.

(** ** One tick of the network, and a run *)

Lemma same_frame_place a b : same_frame a b -> same_place a b.
Proof. unfold same_frame, same_place. intuition. Qed.

Lemma same_place_trans a b c : same_place a b -> same_place b c -> same_place a c.
Proof. unfold same_place. intuition congruence. Qed.

Lemma same_frame_axis a b : same_frame a b -> greenAxis a = greenAxis b.
Proof.
  unfold same_frame, greenAxis.
  intros (_ & _ & _ & _ & _ & _ & _ & _ & -> & -> & -> & -> & _). reflexivity.
Qed.

Lemma simulateIntersectionStep_place rnd i config all cs k :
  same_place i (simulateIntersectionStep rnd i config all cs k).1.
Proof.
  rewrite simulateIntersectionStep_shape.
  match goal with |- context [updateSignalStrategy ?a ?b ?c ?d] =>
    destruct (updateSignalStrategy_frame a b c d) as (n & e & so & w & ->) end.
  repeat split.
Qed.

Lemma simulateIntersectionStep_complementary rnd i config all cs k :
  complementary (simulateIntersectionStep rnd i config all cs k).1.
Proof.
  rewrite simulateIntersectionStep_shape.
  match goal with |- context [updateSignalStrategy ?a ?b ?c ?d] =>
    pose proof (updateSignalStrategy_axis a b c d) as Hax;
    destruct (updateSignalStrategy_frame a b c d) as (n & e & so & w & E) end.
  rewrite E in Hax |- *. exact Hax.
Qed.

Lemma simulateNetworkStep_counts rnd state config conns k :
  let r := simulateNetworkStep rnd state config conns k in
  time r.1 = (time state + 1)%nat
  /\ connections r.1 = connections state
  /\ r.2 = (k + 4 * length (intersections state))%nat.
Proof.
  cbv zeta. unfold simulateNetworkStep, mbind, Rand_bind, mret, Rand_ret.
  set (f := fun i => simulateIntersectionStep rnd i config
                       (intersections state) conns).
  pose proof (mapR_draws f 4 (intersections state) k
                (fun a k' => simulateIntersectionStep_count config _ conns rnd a k'))
    as Hd.
  destruct (mapR f (intersections state) k) as [stepped k']. cbn [fst snd] in *.
  split; [reflexivity|]. split; [reflexivity|exact Hd].
Qed.

Lemma simulateNetworkStep_places rnd state config conns k :
  Forall2 same_place (intersections state)
    (intersections (simulateNetworkStep rnd state config conns k).1).
Proof.
  unfold simulateNetworkStep, mbind, Rand_bind, mret, Rand_ret.
  set (f := fun i => simulateIntersectionStep rnd i config
                       (intersections state) conns).
  pose proof (mapR_Forall2 same_place f (intersections state)
                (fun a k' _ => simulateIntersectionStep_place rnd a config _ conns k')
                k) as Hpl.
  destruct (mapR f (intersections state) k) as [stepped k']. cbn [fst snd] in *.
  pose proof (foldl_propagate_frame (intersectionMap stepped) conns stepped)
    as Hfr.
  unfold applyNetworkFlowInfluence.
  eapply Forall2_trans; [|exact Hpl|exact Hfr].
  intros a b c Hab Hbc. eapply same_place_trans; [exact Hab|].
  apply same_frame_place. exact Hbc.
Qed.

Lemma simulateNetworkStep_complementary rnd state config conns k :
  Forall complementary
    (intersections (simulateNetworkStep rnd state config conns k).1).
Proof.
  unfold simulateNetworkStep, mbind, Rand_bind, mret, Rand_ret.
  set (f := fun i => simulateIntersectionStep rnd i config
                       (intersections state) conns).
  pose proof (mapR_Forall complementary f (intersections state)
                (fun a k' _ =>
                   simulateIntersectionStep_complementary rnd a config _ conns k')
                k) as Hax.
  destruct (mapR f (intersections state) k) as [stepped k']. cbn [fst snd] in *.
  pose proof (foldl_propagate_frame (intersectionMap stepped) conns stepped)
    as Hfr.
  unfold applyNetworkFlowInfluence.
  apply Forall_lookup_2. intros n i' Hn.
  destruct (Forall2_lookup_r _ _ _ _ _ Hfr Hn) as (i & Hi & Hsame).
  pose proof (Forall_lookup_1 _ _ _ _ Hax Hi) as Hc.
  unfold complementary in *. rewrite <- (same_frame_axis _ _ Hsame). exact Hc.
Qed.

(** X8: [simulateNetworkStep] advances [time] by one, keeps the
    [connections] field of the state it is given, draws four random numbers
    per intersection, and returns as many intersections as it was given,
    each with the identifier, name and grid position of the one at the same
    index.  Whatever the signals were before, afterwards every intersection
    shows a complementary pair: north and south green with east and west
    red, or the reverse. *)
Theorem simulateNetworkStep_frame (rnd : nat -> Q) (state : NetworkState)
    (config : SimulationConfig) (conns : list NetworkConnection) (k : nat) :
  let r := simulateNetworkStep rnd state config conns k in
  time r.1 = (time state + 1)%nat
  /\ connections r.1 = connections state
  /\ r.2 = (k + 4 * length (intersections state))%nat
  /\ Forall2 same_place (intersections state) (intersections r.1)
  /\ Forall complementary (intersections r.1).
Proof.
  intros r.
  destruct (simulateNetworkStep_counts rnd state config conns k)
    as (Ht & Hc & Hd).
  split; [exact Ht|]. split; [exact Hc|]. split; [exact Hd|]. split.
  - apply simulateNetworkStep_places.
  - apply simulateNetworkStep_complementary.
Qed.

Lemma same_place_ids l1 l2 : Forall2 same_place l1 l2 -> map id l1 = map id l2.
Proof.
  induction 1 as [|a b l1 l2 (E & _) _ IH]; cbn; [reflexivity|].
  rewrite E, IH. reflexivity.
Qed.

Lemma simulateLoop_keeps rnd config conns n : forall state k,
  let r := simulateLoop rnd n state config conns k in
  map time r.1 = seq (time state + 1) n
  /\ r.2 = (k + 4 * length (intersections state) * n)%nat
  /\ Forall (fun s => connections s = connections state
                      /\ map id (intersections s) = map id (intersections state)
                      /\ Forall complementary (intersections s)) r.1.
Proof.
  induction n as [|n IH]; intros state k; cbn.
  { split; [reflexivity|]. split; [lia|constructor]. }
  unfold mbind, Rand_bind, mret, Rand_ret.
  destruct (simulateNetworkStep_counts rnd state config conns k)
    as (Ht & Hc & Hd).
  pose proof (simulateNetworkStep_places rnd state config conns k) as Hp.
  pose proof (simulateNetworkStep_complementary rnd state config conns k)
    as Hx.
  destruct (simulateNetworkStep rnd state config conns k) as [state' k'].
  cbn [fst snd] in *.
  specialize (IH state' k'). cbv zeta in IH.
  destruct (simulateLoop rnd n state' config conns k') as [rest k''].
  cbn [fst snd] in *. destruct IH as (IH1 & IH2 & IH3).
  pose proof (same_place_ids _ _ Hp) as Hids.
  pose proof (Forall2_length _ _ _ Hp) as Hlen.
  split; [|split].
  - cbn. rewrite IH1, Ht. repeat (f_equal; try lia).
  - rewrite IH2, Hd, <- Hlen. lia.
  - constructor; [auto|].
    eapply Forall_impl; [exact IH3|]. cbn beta.
    intros s (E1 & E2 & E3). rewrite E1, E2, Hc, Hids. auto.
Qed.

Lemma newIntersection_complementary rnd x y k :
  complementary (newIntersection rnd x y k).1.
Proof. right. reflexivity. Qed.

Lemma initializeNetwork_complementary rnd g k :
  Forall complementary (initializeNetwork rnd g k).1.
Proof.
  unfold initializeNetwork, mbind, Rand_bind, mret, Rand_ret.
  pose proof (mapR_Forall (Forall complementary)
    (fun x => mapR (fun y => newIntersection rnd x y) (seq 0 g)) (seq 0 g)) as H.
  specialize (H (fun x k' _ =>
    mapR_Forall complementary (fun y => newIntersection rnd x y) (seq 0 g)
      (fun y k'' _ => newIntersection_complementary rnd x y k'') k') k).
  destruct (mapR _ (seq 0 g) k) as [rows k']. cbn in *.
  apply Forall_concat. exact H.
Qed.

(** X9: [runNetworkSimulation] returns [simulationTime + 1] states whose
    [time] fields are 0, 1, ..., [simulationTime], and draws
    [4 * g * g * (simulationTime + 1)] random numbers.  Every state carries
    the connections of [createNetworkConnections g] and the identifiers of
    the grid in the initial order, and in every state every intersection
    shows a complementary pair of signals. *)
Theorem runNetworkSimulation_history (rnd : nat -> Q)
    (config : SimulationConfig) (k : nat) :
  let g := gridSize config in
  let r := runNetworkSimulation rnd config k in
  map time r.1 = seq 0 (simulationTime config + 1)
  /\ r.2 = (k + 4 * (g * g) * (simulationTime config + 1))%nat
  /\ Forall (fun s => connections s = createNetworkConnections g
                      /\ map id (intersections s) = gridIds g
                      /\ Forall complementary (intersections s)) r.1.
Proof.
  cbv zeta. unfold runNetworkSimulation, mbind, Rand_bind, mret, Rand_ret.
  pose proof (initializeNetwork_ids rnd (gridSize config) k) as Hids.
  pose proof (initializeNetwork_length rnd (gridSize config) k) as Hlen.
  pose proof (initializeNetwork_draws rnd (gridSize config) k) as Hd.
  pose proof (initializeNetwork_complementary rnd (gridSize config) k) as Hx.
  destruct (initializeNetwork rnd (gridSize config) k) as [init k0].
  cbn [fst snd] in *.
  destruct (simulateLoop_keeps rnd config
              (createNetworkConnections (gridSize config))
              (simulationTime config)
              (mkNetwork init (createNetworkConnections (gridSize config))
                 0 0 0 0) k0) as (H1 & H2 & H3).
  destruct (simulateLoop _ _ _ _ _ k0) as [history k1]. cbn [fst snd] in *.
  cbn in H1, H2, H3.
  split; [|split].
  - cbn. rewrite H1, Nat.add_1_r. reflexivity.
  - rewrite H2, Hd, Hlen. lia.
  - constructor; [cbn; auto|].
    eapply Forall_impl; [exact H3|]. cbn beta.
    intros s (E1 & E2 & E3). rewrite E1, E2, Hids. auto.
Qed.

(** ** What accumulates *)

Lemma simulateIntersectionStep_accumulates rnd i config all cs k :
  (forall n, 0 <= rnd n) ->
  0 <= trafficIntensity config ->
  well_formed i ->
  let r := (simulateIntersectionStep rnd i config all cs k).1 in
  accumulated i r /\ (counters_nonneg i -> counters_nonneg r).
Proof.
  intros Hr Ht [(Hf1 & Hf2 & Hf3 & Hf4) (Hq1 & Hq2 & Hq3 & Hq4)] r. unfold r.
  rewrite simulateIntersectionStep_shape.
  match goal with |- context [updateSignalStrategy ?a ?b ?c ?d] =>
    destruct (updateSignalStrategy_frame a b c d) as (n & e & so & w & ->) end.
  unfold accumulated, counters_nonneg. cbn.
  assert (Hm : forall r, 0 <= r -> 0 <= r * trafficIntensity config * 5).
  { intros r0 Hr0. apply Qmult_le_0_compat; [|lra].
    apply Qmult_le_0_compat; assumption. }
  pose proof (Hm _ (Hr k)). pose proof (Hm _ (Hr (S k))).
  pose proof (Hm _ (Hr (S (S k)))). pose proof (Hm _ (Hr (S (S (S k))))).
  pose proof (capacity_range (northSignal i)).
  pose proof (capacity_range (eastSignal i)).
  pose proof (capacity_range (southSignal i)).
  pose proof (capacity_range (westSignal i)).
  pose proof (Math_min_nonneg (northQueue i) (capacity (northSignal i))).
  pose proof (Math_min_nonneg (eastQueue i) (capacity (eastSignal i))).
  pose proof (Math_min_nonneg (southQueue i) (capacity (southSignal i))).
  pose proof (Math_min_nonneg (westQueue i) (capacity (westSignal i))).
  repeat match goal with
         | |- context [Math_max 0 ?v] =>
             pose proof (Math_max_zero_nonneg v);
             generalize dependent (Math_max 0 v); intros
         end.
  split; [repeat split; lra|].
  intros (? & ? & ?). split; [lra|]. split; [lra|].
  apply Qle_shift_div_l; lra.
Qed.

Lemma accumulated_frame a b c : accumulated a b -> same_frame b c -> accumulated a c.
Proof.
  unfold accumulated, same_frame.
  intros (? & ? & ? & ? & ? & ?)
         (_ & _ & _ & _ & <- & <- & <- & <- & _ & _ & _ & _ & <- & <- & _).
  repeat split; assumption.
Qed.

Lemma counters_nonneg_frame a b :
  same_frame a b -> counters_nonneg a -> counters_nonneg b.
Proof.
  unfold counters_nonneg, same_frame.
  intros (_ & _ & _ & _ & _ & _ & _ & _ & _ & _ & _ & _ & <- & <- & <-). auto.
Qed.

(** X10: with non-negative draws and traffic intensity, a tick of the
    network never lowers what an intersection accumulates: its four flow
    rates (the arrivals per tick grow from tick to tick), its
    [totalThroughput] and its [totalWaitingTime] are each at least what
    they were, provided flows and queues were non-negative before. *)
Theorem simulateNetworkStep_accumulates (rnd : nat -> Q) (state : NetworkState)
    (config : SimulationConfig) (conns : list NetworkConnection) (k : nat) :
  (forall n, 0 <= rnd n) ->
  0 <= trafficIntensity config ->
  Forall well_formed (intersections state) ->
  Forall2 accumulated (intersections state)
    (intersections (simulateNetworkStep rnd state config conns k).1).
Proof.
  intros Hr Ht Hwf.
  unfold simulateNetworkStep, mbind, Rand_bind, mret, Rand_ret.
  set (f := fun i => simulateIntersectionStep rnd i config
                       (intersections state) conns).
  pose proof (mapR_Forall2 accumulated f (intersections state)
    (fun a k' Ha =>
       proj1 (simulateIntersectionStep_accumulates rnd a config _ conns k' Hr Ht
                (proj1 (Forall_forall _ _) Hwf a Ha))) k) as Hacc.
  destruct (mapR f (intersections state) k) as [stepped k']. cbn [fst snd] in *.
  pose proof (foldl_propagate_frame (intersectionMap stepped) conns stepped)
    as Hfr.
  cbn. unfold applyNetworkFlowInfluence.
  eapply Forall2_trans; [|exact Hacc|exact Hfr].
  intros a b c. apply accumulated_frame.
Qed.

Lemma simulateNetworkStep_accumulates_witness :
  Forall2 accumulated tenQueuedGrid
    (intersections
       (simulateNetworkStep halfDraws tenQueuedNetwork fixedTimeRun
          (createNetworkConnections 2) 0%nat).1).
Proof.
  apply (simulateNetworkStep_accumulates halfDraws tenQueuedNetwork fixedTimeRun
           (createNetworkConnections 2) 0%nat).
  - intros n. unfold halfDraws. lra.
  - cbn. lra.
  - repeat (constructor;
            [unfold well_formed, flows_nonneg, queues_nonneg; cbn;
             repeat split; lra|]).
    constructor.
Defined.

Lemma foldl_sum_nonneg {A} (f : A -> Q) (l : list A) (acc : Q) :
  Forall (fun a => 0 <= f a) l -> 0 <= acc ->
  0 <= foldl (fun sum a => sum + f a) acc l.
Proof.
  intros H. revert acc. induction H as [|a l Ha _ IH]; intros acc Hacc; cbn;
    [assumption|].
  apply IH. lra.
Qed.

(** What a step needs of a state, and what it gives back. *)
Lemma simulateNetworkStep_sound rnd state config conns k :
  (forall n, 0 <= rnd n) ->
  0 <= trafficIntensity config ->
  Forall (fun c => 0 <= flowInfluence c) conns ->
  Forall well_formed (intersections state) ->
  Forall counters_nonneg (intersections state) ->
  let s := (simulateNetworkStep rnd state config conns k).1 in
  Forall well_formed (intersections s)
  /\ Forall counters_nonneg (intersections s)
  /\ 0 <= networkEfficiency s /\ 0 <= averageWaitingTime s.
Proof.
  intros Hr Ht Hc Hwf Hcn s.
  destruct (simulateNetworkStep_ok rnd state config conns k Hr Ht Hc Hwf)
    as [Hwf' _]. fold s in Hwf'.
  split; [exact Hwf'|].
  assert (Hcn' : Forall counters_nonneg (intersections s)).
  { unfold s, simulateNetworkStep, mbind, Rand_bind, mret, Rand_ret.
    set (f := fun i => simulateIntersectionStep rnd i config
                         (intersections state) conns).
    pose proof (mapR_Forall counters_nonneg f (intersections state)) as Hstep.
    specialize (Hstep (fun a k' Ha =>
      proj2 (simulateIntersectionStep_accumulates rnd a config _ conns k' Hr Ht
               (proj1 (Forall_forall _ _) Hwf a Ha))
            (proj1 (Forall_forall _ _) Hcn a Ha)) k).
    destruct (mapR f (intersections state) k) as [stepped k']. cbn [fst snd] in *.
    pose proof (foldl_propagate_frame (intersectionMap stepped) conns stepped)
      as Hfr.
    cbn. unfold applyNetworkFlowInfluence.
    apply Forall_lookup_2. intros n i' Hn.
    destruct (Forall2_lookup_r _ _ _ _ _ Hfr Hn) as (i & Hi & Hsame).
    exact (counters_nonneg_frame _ _ Hsame (Forall_lookup_1 _ _ _ _ Hstep Hi)). }
  split; [exact Hcn'|].
  revert Hcn'. unfold s, simulateNetworkStep, mbind, Rand_bind, mret, Rand_ret.
  destruct (mapR _ (intersections state) k) as [stepped k']. cbn.
  intros Hcn'.
  assert (Htw : 0 <= foldl (fun sum i => sum + totalWaitingTime i) 0
                       (applyNetworkFlowInfluence stepped conns)).
  { apply foldl_sum_nonneg; [|lra].
    eapply Forall_impl; [exact Hcn'|]. intros i (? & _). assumption. }
  assert (Htt : 0 <= foldl (fun sum i => sum + totalThroughput i) 0
                       (applyNetworkFlowInfluence stepped conns)).
  { apply foldl_sum_nonneg; [|lra].
    eapply Forall_impl; [exact Hcn'|]. intros i (_ & ? & _). assumption. }
  split.
  - match goal with |- context [Qltb ?a ?b] =>
      pose proof (Qltb_true a b) as Hlt; destruct (Qltb a b) end; [|lra].
    apply Qle_shift_div_l; [apply Hlt; reflexivity|lra].
  - case_bool_decide as Hn; [|lra].
    apply Qle_shift_div_l; [|lra].
    change 0 with (inject_Z 0). rewrite <- Zlt_Qlt. lia.
Qed.

Lemma simulateLoop_sound rnd config conns n :
  (forall n, 0 <= rnd n) ->
  0 <= trafficIntensity config ->
  Forall (fun c => 0 <= flowInfluence c) conns ->
  forall state k,
  Forall well_formed (intersections state) ->
  Forall counters_nonneg (intersections state) ->
  Forall (fun s => Forall counters_nonneg (intersections s)
                   /\ 0 <= networkEfficiency s /\ 0 <= averageWaitingTime s)
    (simulateLoop rnd n state config conns k).1.
Proof.
  intros Hr Ht Hc.
  induction n as [|n IH]; intros state k Hwf Hcn; cbn; [constructor|].
  unfold mbind, Rand_bind, mret, Rand_ret.
  destruct (simulateNetworkStep_sound rnd state config conns k Hr Ht Hc Hwf Hcn)
    as (Hwf' & Hcn' & He & Ha).
  destruct (simulateNetworkStep rnd state config conns k) as [state' k'].
  cbn [fst] in *.
  specialize (IH state' k' Hwf' Hcn').
  destruct (simulateLoop rnd n state' config conns k') as [rest k''].
  cbn in *. constructor; auto.
Qed.

Lemma newIntersection_counters rnd x y k :
  counters_nonneg (newIntersection rnd x y k).1.
Proof.
  unfold counters_nonneg, newIntersection, Math_random, mbind, Rand_bind,
    mret, Rand_ret.
  cbn. repeat split; lra.
Qed.

Lemma initializeNetwork_counters rnd g k :
  Forall counters_nonneg (initializeNetwork rnd g k).1.
Proof.
  unfold initializeNetwork, mbind, Rand_bind, mret, Rand_ret.
  pose proof (mapR_Forall (Forall counters_nonneg)
    (fun x => mapR (fun y => newIntersection rnd x y) (seq 0 g)) (seq 0 g)) as H.
  specialize (H (fun x k' _ =>
    mapR_Forall counters_nonneg (fun y => newIntersection rnd x y) (seq 0 g)
      (fun y k'' _ => newIntersection_counters rnd x y k'') k') k).
  destruct (mapR _ (seq 0 g) k) as [rows k']. cbn in *.
  apply Forall_concat. exact H.
Qed.

(** X11: with non-negative draws and traffic intensity, in every state of
    a run the [totalWaitingTime], [totalThroughput] and [efficiency] of
    every intersection are non-negative, and so are the network's
    [networkEfficiency] and [averageWaitingTime]; the two divisions behind
    them are guarded, by [totalVehicles > 0] and by a non-empty
    intersection list. *)
Theorem metrics_never_negative (rnd : nat -> Q) (config : SimulationConfig)
    (k : nat) :
  (forall n, 0 <= rnd n) ->
  0 <= trafficIntensity config ->
  Forall (fun s => Forall counters_nonneg (intersections s)
                   /\ 0 <= networkEfficiency s /\ 0 <= averageWaitingTime s)
    (runNetworkSimulation rnd config k).1.
Proof.
  intros Hr Ht.
  unfold runNetworkSimulation, mbind, Rand_bind, mret, Rand_ret.
  pose proof (initializeNetwork_well_formed rnd (gridSize config) k Hr) as Hwf.
  pose proof (initializeNetwork_counters rnd (gridSize config) k) as Hcn.
  unfold evalR in Hwf.
  destruct (initializeNetwork rnd (gridSize config) k) as [init k0].
  cbn [fst] in *.
  assert (Hinfl : Forall (fun c => 0 <= flowInfluence c)
                    (createNetworkConnections (gridSize config))).
  { eapply Forall_impl; [apply createNetworkConnections_flowInfluence|].
    intros c Hc. cbn beta in Hc. rewrite Hc. lra. }
  pose proof (simulateLoop_sound rnd config _ (simulationTime config) Hr Ht Hinfl
                (mkNetwork init (createNetworkConnections (gridSize config))
                   0 0 0 0) k0 Hwf Hcn) as Hloop.
  destruct (simulateLoop _ _ _ _ _ k0) as [history k1]. cbn [fst] in *.
  constructor; [|exact Hloop].
  cbn. split; [exact Hcn|]. split; lra.
Qed.

Lemma metrics_never_negative_witness :
  Forall (fun s => 0 <= networkEfficiency s /\ 0 <= averageWaitingTime s)
    (runNetworkSimulation halfDraws fixedTimeRun 0%nat).1.
Proof.
  eapply Forall_impl.
  - apply (metrics_never_negative halfDraws fixedTimeRun 0%nat).
    + intros n. unfold halfDraws. lra.
    + cbn. lra.
  - cbn beta. intros s (_ & H). exact H.
Defined.

(** ** Connections the flow-propagation pass skips *)

Lemma intersectionMap_lookup_id st k j :
  intersectionMap st !! k = Some j ->
  exists i, st !! j = Some i /\ id i = k.
Proof.
  revert j. induction st as [|a st IH] using rev_ind; intros j H.
  { unfold intersectionMap in H. cbn in H. rewrite lookup_empty in H.
    discriminate. }
  rewrite intersectionMap_snoc, lookup_insert in H. case_decide as E.
  - injection H as <-. exists a. split; [|exact E].
    apply list_lookup_middle. reflexivity.
  - destruct (IH j H) as (i & Hi & Hid). exists i. split; [|exact Hid].
    apply lookup_app_l_Some. exact Hi.
Qed.

Lemma propagate_idle st cur c :
  Forall2 same_frame st cur -> idle st c ->
  propagate (intersectionMap st) cur c = cur.
Proof.
  intros Hfr Hidle. unfold propagate.
  destruct (intersectionMap st !! from c) as [i|] eqn:Hfrom; [|reflexivity].
  destruct (intersectionMap st !! to c) as [j|] eqn:Hto; [|reflexivity].
  destruct (cur !! i) as [src|] eqn:Hsrc; [|reflexivity].
  case_bool_decide as Hgreen; [|reflexivity]. exfalso.
  destruct (intersectionMap_lookup_id _ _ _ Hfrom) as (a & Ha & Hida).
  destruct (intersectionMap_lookup_id _ _ _ Hto) as (b & Hb & Hidb).
  destruct Hidle as [H|[H|H]].
  - apply H. rewrite <- Hida. apply list_elem_of_fmap. exists a.
    split; [reflexivity|]. eapply list_elem_of_lookup_2. exact Ha.
  - apply H. rewrite <- Hidb. apply list_elem_of_fmap. exists b.
    split; [reflexivity|]. eapply list_elem_of_lookup_2. exact Hb.
  - apply (H a); [eapply list_elem_of_lookup_2; exact Ha|exact Hida|].
    pose proof (Forall2_lookup_lr _ _ _ _ _ _ Hfr Ha Hsrc) as Hsame.
    rewrite (sourceSignal_frame _ _ _ Hsame). exact Hgreen.
Qed.

(** X12: the flow-propagation pass skips, without an error, a connection
    one of whose ends is no intersection's identifier, and a connection
    whose source does not show green in its direction.  When every
    connection is of that kind (in particular when there is none) the pass
    returns the intersections unchanged. *)
Theorem applyNetworkFlowInfluence_skips_idle
    (st : list IntersectionState) (cs : list NetworkConnection) :
  Forall (idle st) cs -> applyNetworkFlowInfluence st cs = st.
Proof.
  unfold applyNetworkFlowInfluence. intros H.
  induction H as [|c cs Hc _ IH]; cbn [foldl]; [reflexivity|].
  rewrite (propagate_idle st st c); [exact IH| |exact Hc].
  apply Forall_Forall2_diag, Forall_forall. intros. apply same_frame_refl.
Qed.

Lemma applyNetworkFlowInfluence_skips_idle_witness :
  applyNetworkFlowInfluence tenQueuedGrid
    [mkConnection (intersectionId 0 0) (intersectionId 2 0) east 0.3;
     mkConnection (intersectionId 0 0) (intersectionId 0 1) north 0.3]
  = tenQueuedGrid.
Proof.
  apply applyNetworkFlowInfluence_skips_idle.
  constructor; [|constructor; [|constructor]].
  - right; left. apply (bool_decide_unpack _). vm_compute. exact I.
  - right; right. intros i Hi Hid.
    repeat (apply elem_of_cons in Hi as [->|Hi]; [discriminate|]).
    apply elem_of_nil in Hi. contradiction.
Defined.

(** ** [calculateNetworkStats] *)

Lemma foldl_max_ge xs : forall a,
  a <= foldl Math_max a xs /\ Forall (fun x => x <= foldl Math_max a xs) xs.
Proof.
  induction xs as [|x xs IH]; intros a; cbn.
  - split; [lra|constructor].
  - destruct (IH (Math_max a x)) as [H1 H2].
    pose proof (Math_max_ge_l a x). pose proof (Math_max_ge_r a x).
    split; [lra|]. constructor; [lra|exact H2].
Qed.

Lemma foldl_min_le xs : forall a,
  foldl Math_min a xs <= a /\ Forall (fun x => foldl Math_min a xs <= x) xs.
Proof.
  induction xs as [|x xs IH]; intros a; cbn.
  - split; [lra|constructor].
  - destruct (IH (Math_min a x)) as [H1 H2].
    pose proof (Math_min_le_l a x). pose proof (Math_min_le_r a x).
    split; [lra|]. constructor; [lra|exact H2].
Qed.

(** [Math.max] and [Math.min] return one of their arguments, so an extremum
    of a list is one of its elements. *)
Lemma foldl_max_elem xs : forall a, foldl Math_max a xs ∈ a :: xs.
Proof.
  induction xs as [|x xs IH]; intros a; cbn [foldl]; [left|].
  specialize (IH (Math_max a x)). apply elem_of_cons in IH as [->|IH].
  - unfold Math_max. destruct (Qle_bool a x); [right; left|left].
  - right; right. exact IH.
Qed.

Lemma foldl_min_elem xs : forall a, foldl Math_min a xs ∈ a :: xs.
Proof.
  induction xs as [|x xs IH]; intros a; cbn [foldl]; [left|].
  specialize (IH (Math_min a x)). apply elem_of_cons in IH as [->|IH].
  - unfold Math_min. destruct (Qle_bool a x); [left|right; left].
  - right; right. exact IH.
Qed.

Lemma maximum_attained {A} (f : A -> Q) (l : list A) :
  l <> [] -> exists a, a ∈ l /\ maximum (map f l) = Finite (f a).
Proof.
  destruct l as [|a0 l]; [congruence|]. intros _. cbn.
  pose proof (foldl_max_elem (map f l) (f a0)) as H.
  change (f a0 :: map f l) with (map f (a0 :: l)) in H.
  apply list_elem_of_fmap in H as (a & Ha & Hin).
  exists a. split; [exact Hin|]. rewrite Ha. reflexivity.
Qed.

Lemma minimum_attained {A} (f : A -> Q) (l : list A) :
  l <> [] -> exists a, a ∈ l /\ minimum (map f l) = Finite (f a).
Proof.
  destruct l as [|a0 l]; [congruence|]. intros _. cbn.
  pose proof (foldl_min_elem (map f l) (f a0)) as H.
  change (f a0 :: map f l) with (map f (a0 :: l)) in H.
  apply list_elem_of_fmap in H as (a & Ha & Hin).
  exists a. split; [exact Hin|]. rewrite Ha. reflexivity.
Qed.

Lemma maximum_bounds {A} (f : A -> Q) (l : list A) :
  Forall (fun a => finite_le (Finite (f a)) (maximum (map f l))) l.
Proof.
  destruct l as [|a0 l]; [constructor|]. cbn.
  destruct (foldl_max_ge (map f l) (f a0)) as [H1 H2].
  constructor; [exact H1|].
  apply Forall_forall. intros a Ha.
  apply (proj1 (Forall_forall _ _) H2). apply list_elem_of_fmap. eauto.
Qed.

Lemma minimum_bounds {A} (f : A -> Q) (l : list A) :
  Forall (fun a => finite_le (minimum (map f l)) (Finite (f a))) l.
Proof.
  destruct l as [|a0 l]; [constructor|]. cbn.
  destruct (foldl_min_le (map f l) (f a0)) as [H1 H2].
  constructor; [exact H1|].
  apply Forall_forall. intros a Ha.
  apply (proj1 (Forall_forall _ _) H2). apply list_elem_of_fmap. eauto.
Qed.

(** X14: the extrema [calculateNetworkStats] reports.  On a non-empty
    history [maxEfficiency], [minEfficiency] and [maxWaitingTime] are each
    the value of some state of the history, they bound the value of every
    state, and the minimum efficiency is at most the maximum.  On the empty
    history nothing guards the divisions by the length or the empty
    spreads: the three averages are [NaN], the maxima [-Infinity] and the
    minimum [Infinity]. *)
Theorem calculateNetworkStats_extrema (history : list NetworkState) :
  let r := calculateNetworkStats history in
  (history = [] ->
   r = mkNetworkStats NotANumber NegInfinity PosInfinity NotANumber
         NegInfinity NotANumber)
  /\ (history <> [] ->
      finite_le (minEfficiency r) (maxEfficiency r)
      /\ Forall (fun s =>
                   finite_le (Finite (networkEfficiency s)) (maxEfficiency r)
                   /\ finite_le (minEfficiency r) (Finite (networkEfficiency s))
                   /\ finite_le (Finite (averageWaitingTime s))
                        (maxWaitingTime r))
           history
      /\ (exists s, s ∈ history
                    /\ maxEfficiency r = Finite (networkEfficiency s))
      /\ (exists s, s ∈ history
                    /\ minEfficiency r = Finite (networkEfficiency s))
      /\ (exists s, s ∈ history
                    /\ maxWaitingTime r = Finite (averageWaitingTime s))).
Proof.
  intros r. split; [intros ->; reflexivity|]. intros Hne.
  unfold r, calculateNetworkStats.
  cbn [maxEfficiency minEfficiency maxWaitingTime].
  pose proof (maximum_bounds networkEfficiency history) as Hmax.
  pose proof (minimum_bounds networkEfficiency history) as Hmin.
  pose proof (maximum_bounds averageWaitingTime history) as Hwait.
  split; [|split; [|split; [|split]]].
  - destruct (maximum_attained networkEfficiency history Hne) as (s & Hs & ->).
    exact (proj1 (Forall_forall _ _) Hmin s Hs).
  - apply Forall_forall. intros s Hs.
    split; [exact (proj1 (Forall_forall _ _) Hmax s Hs)|].
    split; [exact (proj1 (Forall_forall _ _) Hmin s Hs)|].
    exact (proj1 (Forall_forall _ _) Hwait s Hs).
  - exact (maximum_attained networkEfficiency history Hne).
  - exact (minimum_attained networkEfficiency history Hne).
  - exact (maximum_attained averageWaitingTime history Hne).
Qed.

Lemma calculateNetworkStats_extrema_witness :
  let history :=
    [tenQueuedNetwork;
     (simulateNetworkStep halfDraws tenQueuedNetwork fixedTimeRun
        (createNetworkConnections 2) 0%nat).1] in
  let r := calculateNetworkStats history in
  finite_le (minEfficiency r) (maxEfficiency r)
  /\ exists s, s ∈ history /\ maxEfficiency r = Finite (networkEfficiency s).
Proof.
  intros history r.
  destruct (calculateNetworkStats_extrema history) as (_ & H).
  destruct H as (H1 & _ & H2 & _); [discriminate|split; assumption].
Defined.

(** ** The empty grid *)

Lemma simulateLoop_empty rnd config n : forall t k,
  simulateLoop rnd n (mkNetwork [] [] t 0 0 0) config [] k
  = (map (fun t' => mkNetwork [] [] t' 0 0 0) (seq (t + 1) n), k).
Proof.
  induction n as [|n IH]; intros t k; [reflexivity|].
  cbn [simulateLoop]. unfold mbind, Rand_bind, mret, Rand_ret.
  change (simulateNetworkStep rnd (mkNetwork [] [] t 0 0 0) config [] k)
    with (mkNetwork [] [] (t + 1) 0 0 0, k).
  cbv beta iota. rewrite IH. cbn [seq map].
  replace (t + 1 + 1)%nat with (S (t + 1)) by lia. reflexivity.
Qed.

(** X15: with [gridSize = 0] a run draws no random number and returns
    [simulationTime + 1] states without intersections or connections, whose
    [totalVehicles], [networkEfficiency] and [averageWaitingTime] are all 0:
    the guards keep the two divisions from being evaluated. *)
Theorem empty_grid_run (rnd : nat -> Q) (config : SimulationConfig) (k : nat) :
  gridSize config = 0%nat ->
  runNetworkSimulation rnd config k
  = (map (fun t => mkNetwork [] [] t 0 0 0)
       (seq 0 (simulationTime config + 1)), k).
Proof.
  intros Hg. unfold runNetworkSimulation. rewrite Hg.
  unfold mbind, Rand_bind, mret, Rand_ret.
  change (initializeNetwork rnd 0 k) with (@nil IntersectionState, k).
  change (createNetworkConnections 0) with (@nil NetworkConnection).
  cbv beta iota. rewrite simulateLoop_empty.
  replace (simulationTime config + 1)%nat with (S (simulationTime config))
    by lia.
  reflexivity.
Qed.

Lemma empty_grid_run_witness :
  (runNetworkSimulation halfDraws (mkConfig 0 2 rl_based (1 # 2) false None)
     5%nat).1
  = [mkNetwork [] [] 0 0 0 0; mkNetwork [] [] 1 0 0 0; mkNetwork [] [] 2 0 0 0].
Proof.
  rewrite (empty_grid_run halfDraws (mkConfig 0 2 rl_based (1 # 2) false None)
             5%nat eq_refl).
  reflexivity.
Defined.

End SimulatorProps.

(** * Binary64 arithmetic: symmetry, [NaN] and zeros *)

Module FloatAlgebra.

Import JS FloatFacts.
Local Open Scope float_scope.

Lemma float_add_comm x y : x + y = y + x.
Proof.
  apply Prim2SF_inj. rewrite !FloatAxioms.add_spec. unfold SF64add, SFadd.
  destruct (Prim2SF x) as [[|]|[|]| |sx mx ex];
    destruct (Prim2SF y) as [[|]|[|]| |sy my ey]; try reflexivity.
  rewrite (Z.min_comm ey ex), Z.add_comm. reflexivity.
Qed.

Lemma float_mul_comm x y : x * y = y * x.
Proof.
  apply Prim2SF_inj. rewrite !FloatAxioms.mul_spec. unfold SF64mul, SFmul.
  destruct (Prim2SF x) as [[|]|[|]| |sx mx ex];
    destruct (Prim2SF y) as [[|]|[|]| |sy my ey]; try reflexivity;
    try (destruct sy; reflexivity); try (destruct sx; reflexivity).
  rewrite (xorb_comm sy sx), (Pos.mul_comm my mx), (Z.add_comm ey ex).
  reflexivity.
Qed.

(** Rounding does not look at the sign. *)
Lemma binary_round_aux_abs s s' m e l :
  SFabs (binary_round_aux prec emax s m e l)
  = SFabs (binary_round_aux prec emax s' m e l).
Proof.
  unfold binary_round_aux.
  destruct (shr_fexp prec emax m e l) as [mrs e1].
  destruct (shr_fexp prec emax _ e1 loc_Exact) as [mrs2 e2].
  destruct (shr_m mrs2); try reflexivity.
  destruct (e2 <=? emax - prec)%Z; reflexivity.
Qed.

Lemma binary_round_abs s s' m e :
  SFabs (binary_round prec emax s m e) = SFabs (binary_round prec emax s' m e).
Proof.
  unfold binary_round.
  destruct (shl_align m e _) as [m1 e1].
  apply binary_round_aux_abs.
Qed.

Lemma binary_normalize_opp m e sz :
  SFabs (binary_normalize prec emax (- m) e sz)
  = SFabs (binary_normalize prec emax m e sz).
Proof.
  unfold binary_normalize. destruct m; try reflexivity; apply binary_round_abs.
Qed.

(** [|x - y| = |y - x|] holds exactly. *)
Lemma abs_sub_swap x y : abs (x - y) = abs (y - x).
Proof.
  apply Prim2SF_inj. rewrite !FloatAxioms.abs_spec, !FloatAxioms.sub_spec.
  unfold SF64sub, SFsub.
  destruct (Prim2SF x) as [[|]|[|]| |sx mx ex];
    destruct (Prim2SF y) as [[|]|[|]| |sy my ey]; try reflexivity.
  rewrite (Z.min_comm ey ex).
  rewrite <- binary_normalize_opp. f_equal. f_equal.
  destruct sx, sy; cbn [cond_Zopp negb]; lia.
Qed.

(** Dividing two numbers of the same magnitude by the same number. *)
Lemma abs_div_congr u v z : abs u = abs v -> abs (u / z) = abs (v / z).
Proof.
  intros E. apply (f_equal Prim2SF) in E.
  rewrite !FloatAxioms.abs_spec in E.
  apply Prim2SF_inj. rewrite !FloatAxioms.abs_spec, !FloatAxioms.div_spec.
  unfold SF64div, SFdiv.
  destruct (Prim2SF u) as [su|su| |su mu eu];
    destruct (Prim2SF v) as [sv|sv| |sv mv ev]; try discriminate;
    destruct (Prim2SF z) as [sz|sz| |sz mz ez]; try reflexivity.
  cbn in E. injection E as -> ->.
  destruct (SFdiv_core_binary prec emax (Zpos mv) ev (Zpos mz) ez) as [[q e'] l].
  apply binary_round_aux_abs.
Qed.

(** ** [NaN] propagates *)

Lemma add_nan_l a : nan + a = nan.
Proof. rewrite float_add_comm. apply add_nan_r. Qed.

Lemma mul_nan_l a : nan * a = nan.
Proof. rewrite float_mul_comm. apply mul_nan_r. Qed.

Lemma sub_nan_l a : nan - a = nan.
Proof.
  apply Prim2SF_inj. rewrite FloatAxioms.sub_spec. unfold SF64sub, SFsub.
  change (Prim2SF nan) with S754_nan. reflexivity.
Qed.

Lemma sub_nan_r a : a - nan = nan.
Proof.
  apply Prim2SF_inj. rewrite FloatAxioms.sub_spec. unfold SF64sub, SFsub.
  change (Prim2SF nan) with S754_nan.
  destruct (Prim2SF a) as [s|s| |s m e]; reflexivity.
Qed.

Lemma ltb_nan_l a : (nan <? a) = false.
Proof.
  rewrite FloatAxioms.ltb_spec. unfold SFltb, SFcompare.
  change (Prim2SF nan) with S754_nan. reflexivity.
Qed.

Lemma eqb_nan_l a : (nan =? a) = false.
Proof.
  rewrite FloatAxioms.eqb_spec. unfold SFeqb, SFcompare.
  change (Prim2SF nan) with S754_nan. reflexivity.
Qed.

Ltac nan_step :=
  repeat (progress
            rewrite ?add_nan_l, ?add_nan_r, ?sub_nan_l, ?sub_nan_r,
              ?mul_nan_l, ?mul_nan_r, ?div_nan_l, ?div_nan_r, ?ltb_nan_l,
              ?eqb_nan_l).

(** ** Zeros *)

(** Adding to [+0] changes nothing, except that [-0] becomes [+0]. *)
Lemma zero_add s : 0 + s = s \/ s = neg_zero.
Proof.
  destruct (Prim2SF s) as [[|]|sg| |sg m e] eqn:Es.
  - right. apply Prim2SF_inj. rewrite Es. reflexivity.
  - left. apply Prim2SF_inj. rewrite FloatAxioms.add_spec, Es. reflexivity.
  - left. apply Prim2SF_inj. rewrite FloatAxioms.add_spec, Es. reflexivity.
  - left. apply Prim2SF_inj. rewrite FloatAxioms.add_spec, Es. reflexivity.
  - left. apply Prim2SF_inj. rewrite FloatAxioms.add_spec, Es. reflexivity.
Qed.

Lemma binary_round_aux_sign m e l :
  binary_round_aux prec emax false m e l <> S754_zero true.
Proof.
  unfold binary_round_aux.
  destruct (shr_fexp prec emax m e l) as [mrs e1].
  destruct (shr_fexp prec emax _ e1 loc_Exact) as [mrs2 e2].
  destruct (shr_m mrs2); try discriminate.
  destruct (e2 <=? emax - prec)%Z; discriminate.
Qed.

Lemma of_uint63_not_neg_zero i : of_uint63 i <> neg_zero.
Proof.
  intros Hi. apply (f_equal Prim2SF) in Hi.
  rewrite FloatAxioms.of_uint63_spec in Hi.
  change (Prim2SF neg_zero) with (S754_zero true) in Hi.
  unfold binary_normalize in Hi.
  pose proof (Uint63.to_Z_bounded i) as Hb.
  destruct (Uint63.to_Z i) as [|p|p]; [discriminate| |lia].
  unfold binary_round in Hi.
  destruct (shl_align p 0 _) as [m1 e1].
  exact (binary_round_aux_sign _ _ _ Hi).
Qed.

Lemma ofNat_not_neg_zero n : ofNat n <> neg_zero.
Proof.
  unfold ofNat, ofZ. destruct (Z.of_nat n) as [|p|p] eqn:En.
  - intros Hz. apply (f_equal Prim2SF) in Hz. discriminate.
  - apply of_uint63_not_neg_zero.
  - lia.
Qed.

Lemma zero_add_ofNat n : 0 + ofNat n = ofNat n.
Proof.
  destruct (zero_add (ofNat n)) as [Hz|Hz]; [exact Hz|].
  exfalso. exact (ofNat_not_neg_zero n Hz).
Qed.

Lemma sub_zeroOrNaN u v : zeroOrNaN u -> zeroOrNaN v -> zeroOrNaN (u - v).
Proof.
  intros [->|[->| ->]] [->|[->| ->]]; apply zeroOrNaN_spec; exact I.
Qed.

Lemma mul_zeroOrNaN a z : zeroOrNaN z -> zeroOrNaN (a * z).
Proof.
  intros Hz. apply zeroOrNaN_spec. apply zeroOrNaN_spec in Hz.
  rewrite FloatAxioms.mul_spec. unfold SF64mul, SFmul.
  destruct (Prim2SF z) as [sz|sz| |sz mz ez]; try contradiction;
    destruct (Prim2SF a) as [sa|sa| |sa ma ea]; exact I.
Qed.

Lemma zero_add_zeroOrNaN z : zeroOrNaN z -> zeroOrNaN (0 + z).
Proof. intros [->|[->| ->]]; apply zeroOrNaN_spec; exact I. Qed.

Lemma div_by_zero_zeroOrNaN z : zeroOrNaN z -> z / 0 = nan.
Proof. intros [->|[->| ->]]; reflexivity. Qed.

(** ** Order *)

Lemma SFcompare_swap x y :
  SFcompare y x = option_map CompOpp (SFcompare x y).
Proof.
  assert (Hc : forall mx my,
             Pos.compare_cont Eq my mx = CompOpp (Pos.compare_cont Eq mx my))
    by (intros; symmetry; apply Pos.compare_cont_antisym).
  destruct x as [sx|[|]| |[|] mx ex], y as [sy|[|]| |[|] my ey];
    try reflexivity; cbn;
    rewrite (Z.compare_antisym ex ey); destruct (ex ?= ey)%Z; cbn;
    try reflexivity; rewrite (Hc mx my);
    destruct (Pos.compare_cont Eq mx my); reflexivity.
Qed.

Lemma SFcompare_None x y :
  SFcompare x y = None -> x = S754_nan \/ y = S754_nan.
Proof.
  destruct x as [sx|[|]| |[|] mx ex], y as [sy|[|]| |[|] my ey]; cbn; auto;
    try discriminate;
    destruct (ex ?= ey)%Z; try discriminate;
    destruct (Pos.compare_cont Eq mx my); discriminate.
Qed.

Lemma isNaN_false x : isNaN x = false -> Prim2SF x <> S754_nan.
Proof.
  unfold isNaN. rewrite negb_false_iff, FloatAxioms.eqb_spec. intros E Hn.
  rewrite Hn in E. discriminate.
Qed.

Lemma leb_refl x : isNaN x = false -> (x <=? x) = true.
Proof.
  unfold isNaN.
  rewrite negb_false_iff, FloatAxioms.eqb_spec, FloatAxioms.leb_spec.
  unfold SFeqb, SFleb.
  destruct (SFcompare (Prim2SF x) (Prim2SF x)) as [[| |]|]; congruence.
Qed.

Lemma ltb_leb x y : (x <? y) = true -> (x <=? y) = true.
Proof.
  rewrite FloatAxioms.ltb_spec, FloatAxioms.leb_spec. unfold SFltb, SFleb.
  destruct (SFcompare (Prim2SF x) (Prim2SF y)) as [[| |]|]; congruence.
Qed.

(** On numbers, [x <= y] holds when [y < x] does not. *)
Lemma leb_of_not_ltb x y :
  isNaN x = false -> isNaN y = false -> (y <? x) = false -> (x <=? y) = true.
Proof.
  intros Hx Hy. apply isNaN_false in Hx, Hy.
  rewrite FloatAxioms.ltb_spec, FloatAxioms.leb_spec. unfold SFltb, SFleb.
  rewrite (SFcompare_swap (Prim2SF x) (Prim2SF y)).
  destruct (SFcompare (Prim2SF x) (Prim2SF y)) as [[| |]|] eqn:E; cbn;
    try congruence.
  destruct (SFcompare_None _ _ E); contradiction.
Qed.

End FloatAlgebra.

(** * Correlations *)

Module CorrelationProps.

Import JS Stats FloatFacts FloatAlgebra.
Local Open Scope float_scope.

Lemma pearsonStep_swap d1 d2 m1 m2 l : forall a b c,
  foldl (pearsonStep d2 d1 m2 m1) (a, c, b) l
  = (let '(n, x, y) := foldl (pearsonStep d1 d2 m1 m2) (a, b, c) l in (n, y, x)).
Proof.
  induction l as [|i l IH]; intros a b c; [reflexivity|].
  cbn [foldl]. unfold pearsonStep at 2 4.
  rewrite (float_mul_comm (default NaN (d2 !! i) - m2)). apply IH.
Qed.

Lemma pearsonCorrelation_comm d1 d2 :
  pearsonCorrelation d1 d2 = pearsonCorrelation d2 d1.
Proof.
  unfold pearsonCorrelation. rewrite (Nat.min_comm (length d2)).
  rewrite pearsonStep_swap.
  destruct (foldl _ (0, 0, 0) _) as [[n x] y].
  rewrite (float_mul_comm y x). reflexivity.
Qed.

Lemma foldl_ext_seq {A} (f g : A -> nat -> A) n : forall a,
  (forall a i, (i < n)%nat -> f a i = g a i) ->
  foldl f a (seq 0 n) = foldl g a (seq 0 n).
Proof.
  induction n as [|n IH]; intros a H; [reflexivity|].
  rewrite seq_S, !foldl_app. cbn. rewrite IH by (intros; apply H; lia).
  apply H. lia.
Qed.

Lemma pearsonCorrelation_take d1 d2 :
  let n := Nat.min (length d1) (length d2) in
  pearsonCorrelation d1 d2 = pearsonCorrelation (take n d1) (take n d2).
Proof.
  intros n. unfold pearsonCorrelation. fold n.
  rewrite !length_take.
  replace (Nat.min (Nat.min n (length d1)) (Nat.min n (length d2))) with n
    by (unfold n; lia).
  rewrite !take_take, Nat.min_id.
  rewrite (foldl_ext_seq
             (pearsonStep (take n d1) (take n d2) (sum (take n d1) / ofNat n)
                (sum (take n d2) / ofNat n))
             (pearsonStep d1 d2 (sum (take n d1) / ofNat n)
                (sum (take n d2) / ofNat n))); [reflexivity|].
  intros [[a b] c] i Hi. unfold pearsonStep.
  rewrite !lookup_take_lt by assumption. reflexivity.
Qed.

Lemma pearsonCorrelation_nil_l d : pearsonCorrelation [] d = nan.
Proof. reflexivity. Qed.

(** X16: [pearsonCorrelation] is symmetric in its two arguments, exactly
    and not only up to rounding; it reads only the first [n] elements of
    either array, [n] being the length of the shorter one; and when either
    array is empty it returns [NaN] ([0 / sqrt (0 * 0)]). *)
Theorem pearsonCorrelation_symmetric (data1 data2 : list float) :
  pearsonCorrelation data1 data2 = pearsonCorrelation data2 data1
  /\ (let n := Nat.min (length data1) (length data2) in
      pearsonCorrelation data1 data2
      = pearsonCorrelation (take n data1) (take n data2))
  /\ pearsonCorrelation [] data2 = nan
  /\ pearsonCorrelation data1 [] = nan.
Proof.
  split; [apply pearsonCorrelation_comm|].
  split; [apply pearsonCorrelation_take|].
  split; [reflexivity|].
  rewrite pearsonCorrelation_comm. reflexivity.
Qed.

Lemma calculateCorrelationMatrix_rows metrics :
  let row (i : nat) (di : list float) : gmap string float :=
    <["throughputs" := if (i =? 3)%nat then 1
                       else pearsonCorrelation di (throughputs metrics)]>
    (<["rewards" := if (i =? 2)%nat then 1
                    else pearsonCorrelation di (rewards metrics)]>
     (<["queueLengths" := if (i =? 1)%nat then 1
                          else pearsonCorrelation di (queueLengths metrics)]>
      (<["waitingTimes" := if (i =? 0)%nat then 1
                           else pearsonCorrelation di (waitingTimes metrics)]>
       ∅))) in
  calculateCorrelationMatrix metrics
  = <["throughputs" := row 3%nat (throughputs metrics)]>
    (<["rewards" := row 2%nat (rewards metrics)]>
     (<["queueLengths" := row 1%nat (queueLengths metrics)]>
      (<["waitingTimes" := row 0%nat (waitingTimes metrics)]> ∅))).
Proof. reflexivity. Qed.

Lemma datasets_lookup metrics i k d :
  datasets metrics !! i = Some (k, d) ->
  (i = 0%nat /\ k = "waitingTimes" /\ d = waitingTimes metrics)
  \/ (i = 1%nat /\ k = "queueLengths" /\ d = queueLengths metrics)
  \/ (i = 2%nat /\ k = "rewards" /\ d = rewards metrics)
  \/ (i = 3%nat /\ k = "throughputs" /\ d = throughputs metrics).
Proof.
  destruct i as [|[|[|[|i]]]]; cbn; intros E; try discriminate;
    injection E as <- <-; auto 10.
Qed.

Ltac lookup_key :=
  repeat (rewrite lookup_insert; case_decide; try discriminate);
  try reflexivity.

Lemma calculateCorrelationMatrix_entry metrics i j ki kj di dj :
  datasets metrics !! i = Some (ki, di) ->
  datasets metrics !! j = Some (kj, dj) ->
  entry (calculateCorrelationMatrix metrics) ki kj
  = Some (if (i =? j)%nat then 1 else pearsonCorrelation di dj).
Proof.
  intros Hi Hj. rewrite calculateCorrelationMatrix_rows. cbv zeta.
  unfold entry.
  apply datasets_lookup in Hi as [(-> & -> & ->)|[(-> & -> & ->)|[(-> & -> & ->)|(-> & -> & ->)]]];
  apply datasets_lookup in Hj as [(-> & -> & ->)|[(-> & -> & ->)|[(-> & -> & ->)|(-> & -> & ->)]]];
  lookup_key; cbn [mbind option_bind]; lookup_key.
Qed.

(** X17: [calculateCorrelationMatrix] returns an object with exactly the
    four keys waitingTimes, queueLengths, rewards and throughputs.  Its
    entry for two of these keys is 1 on the diagonal, whatever the data
    (also where [pearsonCorrelation] would give [NaN]), and the Pearson
    coefficient of the two data sets elsewhere; the matrix is symmetric. *)
Theorem calculateCorrelationMatrix_symmetric (metrics : StrategyMetrics)
    (i j : nat) (ki kj : string) (di dj : list float) :
  datasets metrics !! i = Some (ki, di) ->
  datasets metrics !! j = Some (kj, dj) ->
  let m := calculateCorrelationMatrix metrics in
  entry m ki kj = Some (if (i =? j)%nat then 1 else pearsonCorrelation di dj)
  /\ entry m ki kj = entry m kj ki
  /\ dom m = list_to_set (map fst (datasets metrics)).
Proof.
  intros Hi Hj m. unfold m.
  rewrite (calculateCorrelationMatrix_entry metrics i j ki kj di dj Hi Hj).
  rewrite (calculateCorrelationMatrix_entry metrics j i kj ki dj di Hj Hi).
  split; [reflexivity|]. split.
  - rewrite Nat.eqb_sym. destruct (j =? i)%nat; [reflexivity|].
    rewrite pearsonCorrelation_comm. reflexivity.
  - rewrite calculateCorrelationMatrix_rows. cbv zeta.
    unfold CorrelationMatrix.
    rewrite !dom_insert_L, dom_empty_L. cbn. set_solver.
Qed.

Lemma calculateCorrelationMatrix_symmetric_witness :
  let metrics := mkMetrics "RL" [1; 2; 3] [2; 4; 7] [] [5] in
  entry (calculateCorrelationMatrix metrics) "waitingTimes" "rewards"
  = entry (calculateCorrelationMatrix metrics) "rewards" "waitingTimes".
Proof.
  intros metrics.
  apply (calculateCorrelationMatrix_symmetric metrics 0 2 "waitingTimes"
           "rewards" [1; 2; 3] [] eq_refl eq_refl).
Defined.

End CorrelationProps.

(** * Further properties of the hypothesis tests *)

Module TestProps.

Import JS FloatFacts FloatAlgebra StatsProps.
Local Open Scope float_scope.

Section Host.

Context (H : HostMath).

(** X18: [independentTTest] does not depend on the order of its two
    samples: the p-value, the significance flag and the conclusion are the
    same, and the test statistic keeps its magnitude.  This holds exactly,
    for every host and all data. *)
Theorem independentTTest_order (data1 data2 : list float)
    (confidenceLevel : float) :
  let r := Stats.independentTTest data1 data2 confidenceLevel in
  let r' := Stats.independentTTest data2 data1 confidenceLevel in
  Stats.pValue r' = Stats.pValue r
  /\ Stats.isSignificant r' = Stats.isSignificant r
  /\ Stats.conclusion r' = Stats.conclusion r
  /\ Math_abs (Stats.testStatistic r') = Math_abs (Stats.testStatistic r).
Proof.
  unfold Stats.independentTTest. cbv zeta.
  cbn [Stats.testStatistic Stats.pValue Stats.isSignificant Stats.conclusion].
  set (s1 := Stats.calculateBasicStats data1).
  set (s2 := Stats.calculateBasicStats data2).
  set (n1 := ofNat (length data1)). set (n2 := ofNat (length data2)).
  rewrite (float_add_comm (Stats.variance s2 / n2) (Stats.variance s1 / n1)).
  rewrite (float_add_comm (Math_pow (Stats.variance s2 / n2) 2 / (n2 - 1))).
  unfold Math_abs.
  rewrite (abs_div_congr _ _ _ (abs_sub_swap (Stats.mean s2) (Stats.mean s1))).
  repeat split; reflexivity.
Qed.

(** X19: [performTTest] reports the same p-value, degrees of freedom,
    significance flag and effect size whichever of the two samples comes
    first. *)
Theorem performTTest_order (sample1 sample2 : list float) :
  let r := HypothesisTests.performTTest sample1 sample2 in
  let r' := HypothesisTests.performTTest sample2 sample1 in
  HypothesisTests.p_value r' = HypothesisTests.p_value r
  /\ HypothesisTests.degrees_freedom r' = HypothesisTests.degrees_freedom r
  /\ HypothesisTests.significant r' = HypothesisTests.significant r
  /\ HypothesisTests.effect_size r' = HypothesisTests.effect_size r.
Proof.
  unfold HypothesisTests.performTTest. cbv zeta.
  cbn [HypothesisTests.p_value HypothesisTests.degrees_freedom
       HypothesisTests.significant HypothesisTests.effect_size].
  set (m1 := HypothesisTests.mean sample1).
  set (m2 := HypothesisTests.mean sample2).
  set (v1 := HypothesisTests.variance sample1).
  set (v2 := HypothesisTests.variance sample2).
  set (n1 := ofNat (length sample1)). set (n2 := ofNat (length sample2)).
  rewrite (float_add_comm (v2 / n2) (v1 / n1)).
  rewrite (float_add_comm (Math_pow (v2 / n2) 2 / (n2 - 1))).
  rewrite (float_add_comm ((n2 - 1) * v2)), (float_add_comm n2 n1).
  unfold Math_abs.
  rewrite !(abs_div_congr _ _ _ (abs_sub_swap m2 m1)).
  repeat split; reflexivity.
Qed.

Hypothesis E : Ecma H.

Lemma independentTTest_nil_l data confidenceLevel :
  Stats.independentTTest [] data confidenceLevel
  = Stats.mkTest "Independent T-Test" nan nan false
      "No significant difference between strategies" confidenceLevel.
Proof using E.
  unfold Stats.independentTTest. cbv zeta.
  change (Stats.calculateBasicStats [])
    with (Stats.mkStats 0 0 0 0 0 0 0 0 0 0 0).
  cbn [Stats.mean Stats.variance length Math_pow].
  change (ofNat 0) with 0. change (0 / 0) with nan.
  nan_step. change (Math_sqrt nan) with nan. nan_step.
  change (Math_abs nan) with nan. rewrite (tCDF_at_nan H E). nan_step.
  reflexivity.
Qed.

Lemma independentTTest_nil_r data confidenceLevel :
  Stats.independentTTest data [] confidenceLevel
  = Stats.mkTest "Independent T-Test" nan nan false
      "No significant difference between strategies" confidenceLevel.
Proof using E.
  unfold Stats.independentTTest. cbv zeta.
  change (Stats.calculateBasicStats [])
    with (Stats.mkStats 0 0 0 0 0 0 0 0 0 0 0).
  cbn [Stats.mean Stats.variance length Math_pow].
  change (ofNat 0) with 0. change (0 / 0) with nan.
  nan_step. change (Math_sqrt nan) with nan. nan_step.
  change (Math_abs nan) with nan. rewrite (tCDF_at_nan H E). nan_step.
  reflexivity.
Qed.

Lemma tDistributionCDF_nan :
  HypothesisTests.tDistributionCDF nan nan = nan.
Proof using E.
  unfold HypothesisTests.tDistributionCDF. cbv zeta.
  change (30 <? nan) with false. cbv iota.
  change (Math_abs nan) with nan. nan_step.
  rewrite (tanh_nan _ E). nan_step. reflexivity.
Qed.

Lemma performTTest_nil_l sample :
  HypothesisTests.performTTest [] sample
  = HypothesisTests.mkTTest nan nan nan false nan.
Proof using E.
  unfold HypothesisTests.performTTest. cbv zeta.
  change (HypothesisTests.mean []) with nan.
  change (HypothesisTests.variance []) with neg_zero.
  cbn [length Math_pow]. change (ofNat 0) with 0.
  change (neg_zero / 0) with nan.
  nan_step. change (Math_sqrt nan) with nan. nan_step.
  change (Math_abs nan) with nan. rewrite tDistributionCDF_nan. nan_step.
  reflexivity.
Qed.

Lemma performTTest_nil_r sample :
  HypothesisTests.performTTest sample []
  = HypothesisTests.mkTTest nan nan nan false nan.
Proof using E.
  unfold HypothesisTests.performTTest. cbv zeta.
  change (HypothesisTests.mean []) with nan.
  change (HypothesisTests.variance []) with neg_zero.
  cbn [length Math_pow]. change (ofNat 0) with 0.
  change (neg_zero / 0) with nan.
  nan_step. change (Math_sqrt nan) with nan. nan_step.
  change (Math_abs nan) with nan. rewrite tDistributionCDF_nan. nan_step.
  reflexivity.
Qed.

End Host.

(** X20: neither t-test guards against an empty sample.  With an empty
    first or second sample [independentTTest] returns [NaN] for the test
    statistic and the p-value, and [performTTest] returns [NaN] in every
    numeric field; both report no significance. *)
Theorem t_tests_on_an_empty_sample (H : HostMath) (data : list float)
    (confidenceLevel : float) :
  Ecma H ->
  let none := Stats.mkTest "Independent T-Test" nan nan false
                "No significant difference between strategies"
                confidenceLevel in
  Stats.independentTTest [] data confidenceLevel = none
  /\ Stats.independentTTest data [] confidenceLevel = none
  /\ HypothesisTests.performTTest [] data
     = HypothesisTests.mkTTest nan nan nan false nan
  /\ HypothesisTests.performTTest data []
     = HypothesisTests.mkTTest nan nan nan false nan.
Proof.
  intros E none. unfold none.
  split; [apply independentTTest_nil_l; exact E|].
  split; [apply independentTTest_nil_r; exact E|].
  split; [apply performTTest_nil_l; exact E|].
  apply performTTest_nil_r; exact E.
Qed.

Lemma t_tests_on_an_empty_sample_witness :
  Stats.pValue (@Stats.independentTTest referenceHost [] [1; 2; 3] 0.95) = nan.
Proof.
  destruct (t_tests_on_an_empty_sample referenceHost [1; 2; 3] 0.95
              referenceHost_Ecma) as (-> & _).
  reflexivity.
Defined.

Section Anova.

Context (H : HostMath) (E : Ecma H).

Lemma fDistributionCDF_nan df1 df2 :
  HypothesisTests.fDistributionCDF nan df1 df2 = nan.
Proof using E.
  unfold HypothesisTests.fDistributionCDF. nan_step.
  change (- nan) with nan. nan_step.
  rewrite (exp_nan _ E). nan_step. reflexivity.
Qed.

Lemma performANOVA_nan (s1 s2 s3 : list float) :
  forall r,
  r = HypothesisTests.performANOVA s1 s2 s3 ->
  (HypothesisTests.mean s1 = nan \/ HypothesisTests.mean s2 = nan
   \/ HypothesisTests.mean s3 = nan) ->
  HypothesisTests.f_statistic r = nan
  /\ HypothesisTests.anova_p_value r = nan
  /\ HypothesisTests.anova_significant r = false.
Proof using E.
  intros r -> Hm. unfold HypothesisTests.performANOVA. cbv zeta.
  cbn [HypothesisTests.f_statistic HypothesisTests.anova_p_value
       HypothesisTests.anova_significant foldl Math_pow].
  assert (Hss : forall a b c d,
     (HypothesisTests.mean s1 = nan \/ HypothesisTests.mean s2 = nan
      \/ HypothesisTests.mean s3 = nan) ->
     0 + a * ((HypothesisTests.mean s1 - d) * (HypothesisTests.mean s1 - d))
     + b * ((HypothesisTests.mean s2 - d) * (HypothesisTests.mean s2 - d))
     + c * ((HypothesisTests.mean s3 - d) * (HypothesisTests.mean s3 - d)) = nan).
  { intros a b c d [-> | [-> | ->]]; nan_step; reflexivity. }
  rewrite (Hss _ _ _ _ Hm). nan_step.
  rewrite fDistributionCDF_nan. nan_step.
  change (Math_round nan) with nan. nan_step. auto.
Qed.

(** The mean of a group against the grand mean of that group alone. *)
Lemma lone_group_mean g :
  zeroOrNaN (Stats.mean (Stats.calculateBasicStats g)
             - (0 + Stats.sum g) / (0 + ofNat (length g))).
Proof.
  rewrite zero_add_ofNat.
  unfold Stats.calculateBasicStats. case_bool_decide as Hn.
  - cbn [Stats.mean]. rewrite Hn. destruct g; [|discriminate].
    apply zeroOrNaN_spec. exact I.
  - cbv zeta. cbn [Stats.mean].
    destruct (zero_add (Stats.sum g)) as [-> | Hz].
    + destruct (sub_self (Stats.sum g / ofNat (length g))) as [-> | ->];
        apply zeroOrNaN_spec; exact I.
    + rewrite Hz. apply sub_zeroOrNaN; apply div_zeroOrNaN;
        apply zeroOrNaN_spec; exact I.
Qed.

Lemma anovaTest_lone_group g confidenceLevel :
  Stats.anovaTest [g] confidenceLevel
  = Stats.mkTest "ANOVA Test" nan nan false
      "No significant differences between strategies" confidenceLevel.
Proof using E.
  unfold Stats.anovaTest. cbv zeta. cbn [map zip zip_with foldl length Math_pow].
  change (ofNat 1 - 1) with 0.
  pose proof (lone_group_mean g) as Hd.
  set (d := Stats.mean (Stats.calculateBasicStats g)
            - (0 + Stats.sum g) / (0 + ofNat (length g))) in *.
  assert (Hssb : zeroOrNaN (0 + ofNat (length g) * (d * d))).
  { apply zero_add_zeroOrNaN, mul_zeroOrNaN, mul_zeroOrNaN. exact Hd. }
  rewrite (div_by_zero_zeroOrNaN _ Hssb). nan_step.
  unfold Stats.fCDF. cbv zeta. nan_step.
  rewrite (incompleteBeta_nan H E). nan_step. reflexivity.
Qed.

Lemma anovaTest_no_group confidenceLevel :
  Stats.anovaTest [] confidenceLevel
  = Stats.mkTest "ANOVA Test" nan nan false
      "No significant differences between strategies" confidenceLevel.
Proof using E.
  unfold Stats.anovaTest. cbv zeta. cbn [map zip zip_with foldl length].
  change (0 / (ofNat 0 - 1) / (0 / (0 - ofNat 0))) with nan.
  unfold Stats.fCDF. cbv zeta. nan_step.
  rewrite (incompleteBeta_nan H E). nan_step. reflexivity.
Qed.

End Anova.

(** X22: [performANOVA] called with an empty group reports an F statistic
    and a p-value of [NaN] and no significance, whatever the other two
    groups hold: the mean of the empty group is [0 / 0]. *)
Theorem performANOVA_empty_group (H : HostMath) (s1 s2 s3 : list float) :
  Ecma H ->
  s1 = [] \/ s2 = [] \/ s3 = [] ->
  let r := HypothesisTests.performANOVA s1 s2 s3 in
  HypothesisTests.f_statistic r = nan
  /\ HypothesisTests.anova_p_value r = nan
  /\ HypothesisTests.anova_significant r = false.
Proof.
  intros E Hs r. apply (performANOVA_nan H E s1 s2 s3 r eq_refl).
  destruct Hs as [-> | [-> | ->]]; auto.
Qed.

Lemma performANOVA_empty_group_witness :
  HypothesisTests.anova_significant
    (@HypothesisTests.performANOVA referenceHost [1; 2] [] [3; 5]) = false.
Proof.
  apply (performANOVA_empty_group referenceHost [1; 2] [] [3; 5]
           referenceHost_Ecma).
  right; left. reflexivity.
Defined.

(** X23: [anovaTest] needs at least two groups.  With one group (or none)
    the between-group mean square is [0 / 0]: the test statistic and the
    p-value are [NaN] and nothing is reported significant, whatever the
    group holds. *)
Theorem anovaTest_needs_two_groups (H : HostMath) (groups : list (list float))
    (confidenceLevel : float) :
  Ecma H -> (length groups < 2)%nat ->
  Stats.anovaTest groups confidenceLevel
  = Stats.mkTest "ANOVA Test" nan nan false
      "No significant differences between strategies" confidenceLevel.
Proof.
  intros E Hk. destruct groups as [|g [|g' groups]]; cbn in Hk; [| |lia].
  - apply anovaTest_no_group. exact E.
  - apply anovaTest_lone_group. exact E.
Qed.

Lemma anovaTest_needs_two_groups_witness :
  Stats.testStatistic (@Stats.anovaTest referenceHost [[1; 2; 4]] 0.95)
  = nan.
Proof.
  rewrite (anovaTest_needs_two_groups referenceHost [[1; 2; 4]] 0.95
             referenceHost_Ecma); [reflexivity|cbn; lia].
Defined.

End TestProps.

(** * Floors: the sample generators and the scenario-impact table *)

Module FloorProps.

Import JS FloatFacts FloatAlgebra HypothesisTests SimulatorProps NetworkProps.
Import CoreProps.
Local Open Scope float_scope.

(** [Math.max(c, v)] is [NaN] or a number that is at least [c]. *)
Lemma Math_max_floor c v : floored c (Math_max c v).
Proof.
  unfold floored, Math_max.
  destruct (isNaN c) eqn:Hc; [left; reflexivity|].
  destruct (isNaN v) eqn:Hv; [left; reflexivity|]. cbn [orb]. right.
  destruct (c <? v) eqn:E1; [exact (ltb_leb c v E1)|].
  destruct (v <? c) eqn:E2; [exact (leb_refl c Hc)|].
  destruct (isNegZero c);
    [exact (leb_of_not_ltb c v Hc Hv E2)|exact (leb_refl c Hc)].
Qed.

Lemma drawSample_floor (H : HostMath) rnd b v k :
  floored 0 (drawSample rnd b v k).1.
Proof.
  unfold drawSample, Math_random, mbind, Rand_bind, mret, Rand_ret. cbn [fst].
  apply Math_max_floor.
Qed.

(** X21: for each of the four metrics of the table, [generateSampleData]
    returns exactly [samples] values and reads two random numbers per
    value, and [generateDistributionData] returns 100 values from 200
    draws.  Each value is [NaN] or a number that is at least 0: the last
    operation on it is [Math.max(0, ...)], which returns [NaN] for a [NaN]
    argument. *)
Theorem generated_samples_nan_or_nonneg (H : HostMath) (rnd : nat -> float)
    (strategy : StrategyType) (metric : string)
    (scenario : option CustomScenario) (samples k : nat) :
  metric ∈ tableMetrics ->
  let r := generateSampleData rnd strategy metric scenario samples k in
  let d := generateDistributionData rnd strategy metric scenario k in
  length r.1 = samples /\ r.2 = (k + 2 * samples)%nat
  /\ Forall (fun v => isNaN v = true \/ (0 <=? v) = true) r.1
  /\ length d.1 = 100%nat /\ d.2 = (k + 200)%nat
  /\ Forall (fun v => isNaN v = true \/ (0 <=? v) = true) d.1.
Proof.
  intros _. cbv zeta. unfold generateSampleData, generateDistributionData.
  rewrite !mapR_length, !length_seq.
  rewrite !(mapR_draws _ 2)
    by (intros a0 k0; exact (drawSample_count H _ _ rnd a0 k0)).
  rewrite !length_seq.
  split; [reflexivity|]. split; [reflexivity|].
  split; [apply mapR_Forall; intros; apply drawSample_floor|].
  split; [reflexivity|]. split; [reflexivity|].
  apply mapR_Forall; intros; apply drawSample_floor.
Qed.

Lemma generated_samples_nan_or_nonneg_witness :
  let r :=
    generateSampleData (H := referenceHost) halfUniform Fixed_time
      "waitingTime" None 100%nat 0%nat in
  length r.1 = 100%nat /\ r.2 = 200%nat.
Proof.
  intros r.
  destruct (generated_samples_nan_or_nonneg referenceHost halfUniform
              Fixed_time "waitingTime" None 100%nat 0%nat) as (H1 & H2 & _).
  - apply (bool_decide_unpack _). vm_compute. exact I.
  - split; [exact H1|exact H2].
Defined.

(** X25: [calculatePerformanceMetrics] on a scenario.  Each throughput and
    efficiency it reports is [NaN] or a number that is at least its floor:
    10 and 5 for fixed-time, 30 and 40 for rule-based, 50 and 70 for
    RL-based.  For a scenario without traffic, incident or peak hour the
    multiplier is 0.5 and the table is: fixed-time 23.8, 7.6, 120, 70;
    rule-based 8.8, 0.3, 283.3, 300; RL-based 5.4, 0.1, 477.5, 633.3
    (waiting time, queue length, throughput, efficiency). *)
Theorem calculatePerformanceMetrics_floors (scenario : CustomScenario) :
  let r := calculatePerformanceMetrics (Some scenario) in
  floored 10 (throughput (fixedTime r)) /\ floored 5 (efficiency (fixedTime r))
  /\ floored 30 (throughput (ruleBased r))
  /\ floored 40 (efficiency (ruleBased r))
  /\ floored 50 (throughput (rlBased r))
  /\ floored 70 (efficiency (rlBased r))
  /\ (quiet scenario -> r = quietPerformance).
Proof.
  cbv zeta. unfold calculatePerformanceMetrics.
  cbn [fixedTime ruleBased rlBased throughput efficiency].
  do 6 (split; [apply Math_max_floor|]).
  intros (-> & -> & -> & -> & -> & ->). vm_compute. reflexivity.
Qed.

End FloorProps.
